(** * The vector-store rebuild client of the QNA-RAG frontend

    A shallow embedding of [ApiClient.rebuildVectorStore] and
    [ApiClient.rebuildVectorStoreWithProgress] (frontend/src/lib/api.ts) and
    of the [rebuildVectorStore] handler of the settings page
    (frontend/src/pages/SettingsPage.tsx), with the parts of the JavaScript
    runtime they call: [String.prototype.split], [startsWith], [slice],
    [URLSearchParams], [JSON.parse], [fetch] and the stream reader.

    JavaScript strings are modelled as [string], holding the UTF-8 bytes of
    the text.  A response stream is the finite list of text chunks that
    [decoder.decode(value, {stream: true})] yields for the successive
    [reader.read()] calls, followed by how the stream ends. *)

From Stdlib Require Import String Ascii List ZArith NArith Bool Lia.
From Stdlib Require Import DecimalString.
From Stdlib Require Import Sorted.
Import ListNotations.

Local Open Scope list_scope.
Local Open Scope string_scope.

(** ** Strings *)

Module Str.

(** The line feed, the separator of [chunk.split('\n')]. *)
Definition LF : ascii := "010"%char.

(** [s.startsWith(p)]. *)
Fixpoint startsWith (p s : string) : bool :=
  match p with
  | EmptyString => true
  | String a p' =>
      match s with
      | EmptyString => false
      | String b s' => Ascii.eqb a b && startsWith p' s'
      end
  end.

(** [s.slice(n)] for a non-negative [n]: drops the first [n] code units. *)
Fixpoint slice (n : nat) (s : string) : string :=
  match n with
  | O => s
  | S n' => match s with
            | EmptyString => EmptyString
            | String _ s' => slice n' s'
            end
  end.

(** [s.split(sep)] for a one-character separator.  As in JavaScript the
    result is never empty: the empty string splits into one empty line. *)
Fixpoint split (sep : ascii) (s : string) : list string :=
  match s with
  | EmptyString => [EmptyString]
  | String c s' =>
      if Ascii.eqb c sep then EmptyString :: split sep s'
      else match split sep s' with
           | l :: ls => String c l :: ls
           | [] => [String c EmptyString]
           end
  end.

(** [ls.join(sep)]; used only to describe chunks by their lines. *)
Definition join (sep : ascii) (ls : list string) : string :=
  String.concat (String sep EmptyString) ls.

(** No separator inside [s]: [s] is one line. *)
Fixpoint free_of (sep : ascii) (s : string) : bool :=
  match s with
  | EmptyString => true
  | String c s' => negb (Ascii.eqb c sep) && free_of sep s'
  end.

End Str.

(** ** JavaScript values obtained from JSON *)

(** A JSON number literal denotes [num_mant * 10 ^ num_exp]; JavaScript
    holds the double nearest to it. *)
Record number : Type := mkNumber { num_mant : Z; num_exp : Z }.

#[warnings="-register-all"]
Inductive json : Type :=
| JNull
| JBool (b : bool)
| JNum (n : number)
| JStr (s : string)
| JArr (items : list json)
| JObj (members : list (string * json)).

Definition is_number (v : json) : bool :=
  match v with
  | JNum _ => true
  | _ => false
  end.

(** A JavaScript value that may be [undefined]. *)
Definition js_value : Type := option json.

Definition Int (z : Z) : json := JNum (mkNumber z 0).

Module Num.

(** The exact order of the denoted values.  Rounding to a double is
    monotone, so [leb a b = true] implies [a <= b] in JavaScript. *)
Definition leb (a b : number) : bool :=
  let e := Z.min (num_exp a) (num_exp b) in
  (num_mant a * 10 ^ (num_exp a - e) <=? num_mant b * 10 ^ (num_exp b - e))%Z.

(** The literal rounds to the double 0 (positive or negative): its magnitude
    is at most [2 ^ -1075], half the least positive double. *)
Definition is_zero (a : number) : bool :=
  if (0 <=? num_exp a)%Z then (num_mant a =? 0)%Z
  else (Z.abs (num_mant a) * 2 ^ 1075 <=? 10 ^ (- num_exp a))%Z.

End Num.

(** ** [JSON.parse]

    A recursive-descent reading of the JSON grammar (ECMA-404), which is what
    [JSON.parse] accepts: surrounding white space, the three literals,
    numbers, strings with escapes, arrays and objects.  [None] stands for the
    [SyntaxError] that [JSON.parse] throws. *)

Module JSON.

Definition code (c : ascii) : N := N_of_ascii c.

(** The double quote. *)
Definition DQ : ascii := "034"%char.

Definition is_ws (c : ascii) : bool :=
  match code c with
  | 32%N | 9%N | 10%N | 13%N => true
  | _ => false
  end.

Definition is_digit (c : ascii) : bool :=
  ((48 <=? code c) && (code c <=? 57))%N.

Fixpoint skip_ws (s : string) : string :=
  match s with
  | String c s' => if is_ws c then skip_ws s' else s
  | EmptyString => s
  end.

(** The longest run of digits at the front of [s], and what follows it. *)
Fixpoint take_digits (s : string) : string * string :=
  match s with
  | String c s' =>
      if is_digit c
      then let '(d, r) := take_digits s' in (String c d, r)
      else (EmptyString, s)
  | EmptyString => (EmptyString, s)
  end.

Fixpoint digits_value (acc : Z) (d : string) : Z :=
  match d with
  | String c d' => digits_value (10 * acc + Z.of_N (code c - 48)) d'
  | EmptyString => acc
  end.

(** [eat c s]: what follows [c] when [s] starts with it. *)
Definition eat (c : ascii) (s : string) : option string :=
  match s with
  | String c' r => if Ascii.eqb c' c then Some r else None
  | EmptyString => None
  end.

Definition fraction (s : string) : option (string * string) :=
  match eat "." s with
  | Some r =>
      let '(fp, r') := take_digits r in
      if String.eqb fp EmptyString then None else Some (fp, r')
  | None => Some (EmptyString, s)
  end.

Definition exponent (s : string) : option (Z * string) :=
  match (match eat "e" s with Some r => Some r | None => eat "E" s end) with
  | Some r =>
      let '(eneg, r0) :=
        match eat "-" r with
        | Some r1 => (true, r1)
        | None => match eat "+" r with
                  | Some r1 => (false, r1)
                  | None => (false, r)
                  end
        end in
      let '(ed, r') := take_digits r0 in
      if String.eqb ed EmptyString then None
      else let e := digits_value 0 ed in
           Some (if eneg then (- e)%Z else e, r')
  | None => Some (0%Z, s)
  end.

(** int [frac] [exp], int = 0 | digit1-9 digits; [neg] is the sign read. *)
Definition unsigned (neg : bool) (s0 : string) : option (number * string) :=
  let '(ip, s1) := take_digits s0 in
  if String.eqb ip EmptyString then None
  else if Str.startsWith "0" ip && negb (String.eqb ip "0") then None
  else
    match fraction s1 with
    | None => None
    | Some (fp, s2) =>
        match exponent s2 with
        | None => None
        | Some (e, s3) =>
            let m := digits_value 0 (ip ++ fp) in
            Some (mkNumber (if neg then (- m)%Z else m)
                           (e - Z.of_nat (String.length fp)), s3)
        end
    end.

(** number = [-] int [frac] [exp]. *)
Definition parse_number (s : string) : option (number * string) :=
  match eat "-" s with
  | Some r => unsigned true r
  | None => unsigned false s
  end.

Definition hex_value (c : ascii) : option N :=
  let n := code c in
  if ((48 <=? n) && (n <=? 57))%N then Some (n - 48)%N
  else if ((65 <=? n) && (n <=? 70))%N then Some (n - 55)%N
  else if ((97 <=? n) && (n <=? 102))%N then Some (n - 87)%N
  else None.

Definition hex4 (a b c d : ascii) : option N :=
  match hex_value a, hex_value b, hex_value c, hex_value d with
  | Some x, Some y, Some z, Some w => Some (((x * 16 + y) * 16 + z) * 16 + w)%N
  | _, _, _, _ => None
  end.

Definition byte (n : N) : ascii := ascii_of_N n.

(** The UTF-8 bytes of code point [u], put in front of [k].  A surrogate
    that has no partner is written in the same three-byte form. *)
Definition utf8 (u : N) (k : string) : string :=
  if (u <? 128)%N then String (byte u) k
  else if (u <? 2048)%N then
    String (byte (192 + u / 64)) (String (byte (128 + u mod 64)) k)
  else if (u <? 65536)%N then
    String (byte (224 + u / 4096))
      (String (byte (128 + (u / 64) mod 64)) (String (byte (128 + u mod 64)) k))
  else
    String (byte (240 + u / 262144))
      (String (byte (128 + (u / 4096) mod 64))
         (String (byte (128 + (u / 64) mod 64)) (String (byte (128 + u mod 64)) k))).

Definition is_high (u : N) : bool := ((55296 <=? u) && (u <=? 56319))%N.
Definition is_low (u : N) : bool := ((56320 <=? u) && (u <=? 57343))%N.

(** A high surrogate read from [\uXXXX] waits in [hi] for its low half. *)
Definition flush (hi : option N) (k : string) : string :=
  match hi with
  | Some h => utf8 h k
  | None => k
  end.

Definition simple_escape (e : ascii) : option ascii :=
  match code e with
  | 34%N => Some DQ
  | 92%N => Some "\"%char
  | 47%N => Some "/"%char
  | 98%N => Some "008"%char
  | 102%N => Some "012"%char
  | 110%N => Some "010"%char
  | 114%N => Some "013"%char
  | 116%N => Some "009"%char
  | _ => None
  end.

Definition emit (f : string -> string) (r : option (string * string))
  : option (string * string) :=
  match r with
  | Some (t, rest) => Some (f t, rest)
  | None => None
  end.

(** The characters of a string after its opening quote, up to the closing
    one: the decoded text and the input that follows. *)
Fixpoint string_body (hi : option N) (s : string) : option (string * string) :=
  match s with
  | EmptyString => None
  | String c r =>
      if Ascii.eqb c DQ then Some (flush hi EmptyString, r)
      else if Ascii.eqb c "\" then
        match r with
        | EmptyString => None
        | String e r1 =>
            if Ascii.eqb e "u" then
              match r1 with
              | String h1 (String h2 (String h3 (String h4 r2))) =>
                  match hex4 h1 h2 h3 h4 with
                  | None => None
                  | Some u =>
                      match hi with
                      | Some h =>
                          if is_low u
                          then emit (utf8 (65536 + (h - 55296) * 1024 + (u - 56320)))
                                    (string_body None r2)
                          else if is_high u
                          then emit (utf8 h) (string_body (Some u) r2)
                          else emit (fun t => utf8 h (utf8 u t)) (string_body None r2)
                      | None =>
                          if is_high u then string_body (Some u) r2
                          else emit (utf8 u) (string_body None r2)
                      end
                  end
              | _ => None
              end
            else
              match simple_escape e with
              | Some b => emit (fun t => flush hi (String b t)) (string_body None r1)
              | None => None
              end
        end
      else if (code c <? 32)%N then None
      else emit (fun t => flush hi (String c t)) (string_body None r)
  end.

Inductive result (A : Type) : Type :=
| Ok (a : A) (rest : string)
| Bad
| OutOfFuel.
Arguments Ok {A} a rest.
Arguments Bad {A}.
Arguments OutOfFuel {A}.

Definition literal (word : string) (v : json) (s : string) : result json :=
  if Str.startsWith word s then Ok v (Str.slice (String.length word) s) else Bad.

Fixpoint parse_value (fuel : nat) (s : string) : result json :=
  match fuel with
  | O => OutOfFuel
  | S f =>
      match skip_ws s with
      | EmptyString => Bad
      | String c r =>
          if Ascii.eqb c "{" then
            match eat "}" (skip_ws r) with
            | Some r' => Ok (JObj []) r'
            | None => match parse_members f r with
                      | Ok ms r' => Ok (JObj ms) r'
                      | Bad => Bad
                      | OutOfFuel => OutOfFuel
                      end
            end
          else if Ascii.eqb c "[" then
            match eat "]" (skip_ws r) with
            | Some r' => Ok (JArr []) r'
            | None => match parse_elements f r with
                      | Ok vs r' => Ok (JArr vs) r'
                      | Bad => Bad
                      | OutOfFuel => OutOfFuel
                      end
            end
          else if Ascii.eqb c DQ then
            match string_body None r with
            | Some (t, r') => Ok (JStr t) r'
            | None => Bad
            end
          else if Ascii.eqb c "t" then literal "true" (JBool true) (String c r)
          else if Ascii.eqb c "f" then literal "false" (JBool false) (String c r)
          else if Ascii.eqb c "n" then literal "null" JNull (String c r)
          else
            match parse_number (String c r) with
            | Some (n, r') => Ok (JNum n) r'
            | None => Bad
            end
      end
  end

with parse_elements (fuel : nat) (s : string) : result (list json) :=
  match fuel with
  | O => OutOfFuel
  | S f =>
      match parse_value f s with
      | Ok v r =>
          match eat "," (skip_ws r) with
          | Some r' =>
              match parse_elements f r' with
              | Ok vs r'' => Ok (v :: vs) r''
              | Bad => Bad
              | OutOfFuel => OutOfFuel
              end
          | None =>
              match eat "]" (skip_ws r) with
              | Some r' => Ok [v] r'
              | None => Bad
              end
          end
      | Bad => Bad
      | OutOfFuel => OutOfFuel
      end
  end

with parse_members (fuel : nat) (s : string) : result (list (string * json)) :=
  match fuel with
  | O => OutOfFuel
  | S f =>
      match eat DQ (skip_ws s) with
      | None => Bad
      | Some r =>
          match string_body None r with
          | None => Bad
          | Some (k, r0) =>
              match eat ":" (skip_ws r0) with
              | None => Bad
              | Some r1 =>
                  match parse_value f r1 with
                  | Ok v r2 =>
                      match eat "," (skip_ws r2) with
                      | Some r3 =>
                          match parse_members f r3 with
                          | Ok ms r4 => Ok ((k, v) :: ms) r4
                          | Bad => Bad
                          | OutOfFuel => OutOfFuel
                          end
                      | None =>
                          match eat "}" (skip_ws r2) with
                          | Some r3 => Ok [(k, v)] r3
                          | None => Bad
                          end
                      end
                  | Bad => Bad
                  | OutOfFuel => OutOfFuel
                  end
              end
          end
      end
  end.

(** Where a scan of the text stands: outside the strings, inside one, or
    just after a backslash inside one. *)
Inductive lex_state : Type := Outside | Inside | Escaped.

(** The characters that JSON has outside its strings. *)
Definition outside_ok (c : ascii) : bool :=
  is_ws c || is_digit c
  || existsb (Ascii.eqb c)
       ["{"; "}"; "["; "]"; ","; ":"; "+"; "-"; "."; "e"; "E";
        "t"; "r"; "u"; "f"; "a"; "l"; "s"; "n"]%char.

Definition lex_step (st : lex_state) (c : ascii) : option lex_state :=
  match st with
  | Outside => if Ascii.eqb c DQ then Some Inside
               else if outside_ok c then Some Outside else None
  | Inside => if Ascii.eqb c DQ then Some Outside
              else if Ascii.eqb c "\" then Some Escaped else Some Inside
  | Escaped => Some Inside
  end.

Fixpoint lex (st : lex_state) (s : string) : option lex_state :=
  match s with
  | EmptyString => Some st
  | String c s' =>
      match lex_step st c with
      | Some st' => lex st' s'
      | None => None
      end
  end.

(** Two scans of one text that start on different sides of a quote stay on
    different sides. *)
Definition opposite (a b : lex_state) : Prop :=
  match a, b with
  | Inside, Outside | Outside, Inside => True
  | _, _ => False
  end.

(** The parser gets from [s] to [r] by reading a text that takes the scan
    from [st] to [st']. *)
Definition reads (st : lex_state) (s r : string) (st' : lex_state) : Prop :=
  exists c, s = c ++ r /\ lex st c = Some st'.

(** The first character after the white space decides what is parsed;
    anything that opens neither an object, an array, a string nor a literal
    is taken for a number. *)
Definition opens_number (s : string) : bool :=
  match skip_ws s with
  | String c _ =>
      negb (Ascii.eqb c "{" || Ascii.eqb c "[" || Ascii.eqb c DQ
            || Ascii.eqb c "t" || Ascii.eqb c "f" || Ascii.eqb c "n")
  | EmptyString => false
  end.

(** The last character of [s] is white space. *)
Fixpoint ends_in_ws (s : string) : bool :=
  match s with
  | EmptyString => false
  | String c EmptyString => is_ws c
  | String _ s' => ends_in_ws s'
  end.

(** Two units of fuel for each character, and two more, are enough
    (see [JSONFacts.parse_fuel]). *)
Definition fuel_for (s : string) : nat := 2 * String.length s + 2.

(** [JSON.parse(text)]: one value, white space around it, nothing else. *)
Definition parse (text : string) : option json :=
  match parse_value (fuel_for text) text with
  | Ok v rest =>
      match skip_ws rest with
      | EmptyString => Some v
      | _ => None
      end
  | _ => None
  end.

End JSON.


(** ** Property access, truthiness, thrown values *)

Module JS.

(** The binding of [k] in an object that [JSON.parse] built: of two members
    with one name the later one stays. *)
Fixpoint lookup (k : string) (ms : list (string * json)) : js_value :=
  match ms with
  | [] => None
  | (k', v) :: rest =>
      match lookup k rest with
      | Some v' => Some v'
      | None => if String.eqb k k' then Some v else None
      end
  end.

(** [v.k] for a property name that no built-in prototype defines (the names
    read here are status, error, message, progress and the four counters).
    The outer [None] is the [TypeError] of reading a property of [null]. *)
Definition get (v : json) (k : string) : option js_value :=
  match v with
  | JNull => None
  | JObj ms => Some (lookup k ms)
  | _ => Some None
  end.

(** [v === s] for a string constant [s]. *)
Definition is_string (v : js_value) (s : string) : bool :=
  match v with
  | Some (JStr t) => String.eqb t s
  | _ => false
  end.

(** ToBoolean. *)
Definition truthy (v : js_value) : bool :=
  match v with
  | None => false
  | Some JNull => false
  | Some (JBool b) => b
  | Some (JNum n) => negb (Num.is_zero n)
  | Some (JStr s) => negb (String.eqb s EmptyString)
  | Some (JArr _) => true
  | Some (JObj _) => true
  end.

(** A string computed by the program: a known text, or the result of
    ToString on a value that is not a string, which is left symbolic. *)
Inductive text : Type :=
| Text (s : string)
| ToStringOf (v : json).

(** ToString of [v] is the empty string. *)
Fixpoint to_string_is_empty (v : json) : bool :=
  match v with
  | JStr s => String.eqb s EmptyString
  | JArr [] => true
  | JArr [JNull] => true
  | JArr [x] => to_string_is_empty x
  | _ => false
  end.

Definition to_text (v : json) : text :=
  match v with
  | JStr s => Text s
  | _ => ToStringOf v
  end.

Definition text_truthy (t : text) : bool :=
  match t with
  | Text s => negb (String.eqb s EmptyString)
  | ToStringOf v => negb (to_string_is_empty v)
  end.

(** A thrown error object. *)
Record error : Type := mkError { err_name : string; err_message : text }.

Definition Error (message : string) : error := mkError "Error" (Text message).

(** The settlement of a promise. *)
Inductive promise (A : Type) : Type :=
| Resolved (a : A)
| Rejected (e : error).
Arguments Resolved {A} a.
Arguments Rejected {A} e.

End JS.

(** ** [URLSearchParams] *)

Module URLSearchParams.

Definition t : Type := list (string * string).

Definition append (name value : string) (params : t) : t :=
  (params ++ [(name, value)])%list.

Definition hex_digit (n : N) : ascii :=
  if (n <? 10)%N then ascii_of_N (48 + n) else ascii_of_N (55 + n).

(** The application/x-www-form-urlencoded byte serializer: letters, digits
    and [*-._] stay, a space becomes [+], any other byte is percent-encoded. *)
Definition encode_byte (c : ascii) (k : string) : string :=
  let n := N_of_ascii c in
  if ((48 <=? n) && (n <=? 57) || (65 <=? n) && (n <=? 90)
      || (97 <=? n) && (n <=? 122)
      || (n =? 42) || (n =? 45) || (n =? 46) || (n =? 95))%N
  then String c k
  else if (n =? 32)%N then String "+" k
  else String "%" (String (hex_digit (n / 16)) (String (hex_digit (n mod 16)) k)).

Fixpoint encode (s : string) : string :=
  match s with
  | EmptyString => EmptyString
  | String c s' => encode_byte c (encode s')
  end.

Definition toString (params : t) : string :=
  String.concat "&" (map (fun p => encode (fst p) ++ "=" ++ encode (snd p)) params).

End URLSearchParams.

(** ** The API client (frontend/src/lib/api.ts) *)

(** The optional argument of both rebuild operations.  [batch_size] is a
    JavaScript number; the model holds the numbers that are integers. *)
Record filters : Type := mkFilters {
  user_filter : option string;
  document_filter : option string;
  batch_size : option Z
}.

Definition string_truthy (v : option string) : bool :=
  match v with
  | Some s => negb (String.eqb s EmptyString)
  | None => false
  end.

(** [z.toString()] for a safe integer [z] (at most [2 ^ 53 - 1] in
    magnitude): the plain decimal numeral.  Beyond that range JavaScript
    rounds the digits and, from [10 ^ 21] on, writes an exponent; that is not
    modelled, so a statement that depends on the digits assumes
    [safe_integer]. *)
Definition number_toString (z : Z) : string :=
  NilZero.string_of_int (Z.to_int z).

(** [Number.isSafeInteger(z)]. *)
Definition safe_integer (z : Z) : bool :=
  (Z.abs z <=? 9007199254740991)%Z.

(** [filters?.field]. *)
Definition opt_field {A : Type} (f : option filters) (field : filters -> option A)
  : option A :=
  match f with
  | Some x => field x
  | None => None
  end.

(** The three conditional [params.append] calls that open both operations. *)
Definition rebuild_params (f : option filters) : URLSearchParams.t :=
  let params : URLSearchParams.t := [] in
  let params :=
    match opt_field f user_filter with
    | Some u =>
        if string_truthy (Some u)
        then URLSearchParams.append "user_filter" u params else params
    | None => params
    end in
  let params :=
    match opt_field f document_filter with
    | Some d =>
        if string_truthy (Some d)
        then URLSearchParams.append "document_filter" d params else params
    | None => params
    end in
  let params :=
    match opt_field f batch_size with
    | Some b =>
        if negb (b =? 0)%Z
        then URLSearchParams.append "batch_size" (number_toString b) params
        else params
    | None => params
    end in
  params.

(** The template [`${path}${params.toString() ? `?${params.toString()}` : ''}`]. *)
Definition with_query (path : string) (params : URLSearchParams.t) : string :=
  let qs := URLSearchParams.toString params in
  path ++ (if negb (String.eqb qs EmptyString) then "?" ++ qs else EmptyString).

(** [rebuildVectorStore(filters)], over the [this.client.post] it ends in. *)
Definition rebuildVectorStore {R : Type} (post : string -> R)
    (f : option filters) : R :=
  let params := rebuild_params f in
  let url := with_query "/rag/admin/vector/rebuild" params in
  post url.

(** *** The streaming rebuild *)

Record request : Type := mkRequest {
  req_method : string;
  req_url : string;
  req_headers : list (string * string)
}.

(** How a response body ends: the reader reports [done], or a [read()]
    rejects. *)
Inductive stream_end : Type :=
| Done
| ReadError (e : JS.error).

Record stream : Type := mkStream {
  chunks : list string;
  ending : stream_end
}.

Record response : Type := mkResponse {
  status : Z;
  statusText : string;
  body : option stream
}.

(** [response.ok]: the status is in the range 200-299. *)
Definition ok (r : response) : bool :=
  ((200 <=? status r) && (status r <=? 299))%Z.

(** What [await fetch(...)] gives: a response, or a rejection when the
    request could not be made. *)
Inductive fetched : Type :=
| Responded (r : response)
| NetworkError (e : JS.error).

(** What the client reads from its surroundings. *)
Record environment : Type := mkEnvironment {
  baseURL : string;                       (* this.client.defaults.baseURL *)
  access_token : option string;           (* localStorage.getItem('access_token') *)
  fetch : request -> fetched
}.

(** [`Bearer ${localStorage.getItem('access_token')}`]. *)
Definition bearer (token : option string) : string :=
  "Bearer " ++ match token with
               | Some t => t
               | None => "null"
               end.

Definition stream_request (env : environment) (f : option filters) : request :=
  let params := rebuild_params f in
  let url := with_query "/rag/admin/vector/rebuild/stream" params in
  mkRequest "POST" (baseURL env ++ url)
    [("Authorization", bearer (access_token env));
     ("Accept", "text/event-stream");
     ("Cache-Control", "no-cache")].

(** The value the operation resolves to. *)
Record outcome : Type := mkOutcome { success : bool; data : json }.

(** [{ success: true, data: { status: 'completed' } }]. *)
Definition fallback : outcome :=
  mkOutcome true (JObj [("status", JStr "completed")]).

(** A call of the progress callback returns or throws; either way it may
    have changed the caller's state. *)
Inductive called (S : Type) : Type :=
| Returns (s : S)
| Throws (s : S).
Arguments Returns {S} s.
Arguments Throws {S} s.

(** [onProgress(data)] is handed the parsed object itself, and [data] is
    read again after the call: besides returning or throwing, and changing
    the caller's state, the callback may have changed the properties of the
    event.  So it gives two things: the event as it leaves it, and how the
    call ends. *)
Definition callback (S : Type) : Type := json -> S -> json * called S.

(** What a callback can make of the event [d], by assigning to and deleting
    its properties: an object can be left as any object; an array as any
    array and, when it was given named properties, as what is written here
    as the object of its properties; [null], a boolean, a number and a
    string cannot be changed.  Anything else the callback gives is taken for
    no change. *)
Definition left_as (d d' : json) : json :=
  match d, d' with
  | JObj _, JObj _ => d'
  | JArr _, (JArr _ | JObj _) => d'
  | _, _ => d
  end.

(** What an invocation does besides computing its result. *)
Record effects (S : Type) : Type := mkEffects {
  caller : S;                    (* the state the callback works on *)
  calls : list json;             (* the arguments of onProgress, in order *)
  warnings : list string;        (* the lines given to console.warn *)
  requests : list request;       (* the requests given to fetch *)
  reads : nat;                   (* the reader.read() calls *)
  released : bool                (* reader.releaseLock() has run *)
}.
Arguments mkEffects {S}.
Arguments caller {S}.
Arguments calls {S}.
Arguments warnings {S}.
Arguments requests {S}.
Arguments reads {S}.
Arguments released {S}.

Definition start {S : Type} (s : S) : effects S :=
  mkEffects s [] [] [] 0 false.

Section Client.

Context {S : Type}.
Variable onProgress : option (callback S).

Definition warn (line : string) (w : effects S) : effects S :=
  mkEffects (caller w) (calls w) (warnings w ++ [line])%list
            (requests w) (reads w) (released w).

Definition send (r : request) (w : effects S) : effects S :=
  mkEffects (caller w) (calls w) (warnings w)
            (requests w ++ [r])%list (reads w) (released w).

Definition read (w : effects S) : effects S :=
  mkEffects (caller w) (calls w) (warnings w)
            (requests w) (Datatypes.S (reads w)) (released w).

Definition releaseLock (w : effects S) : effects S :=
  mkEffects (caller w) (calls w) (warnings w)
            (requests w) (reads w) true.

Definition called_with (d : json) (s : S) (w : effects S) : effects S :=
  mkEffects s (calls w ++ [d])%list (warnings w)
            (requests w) (reads w) (released w).

(** [if (onProgress) { onProgress(data); }]: [data] after the call, and
    how the call ended. *)
Definition report (d : json) (w : effects S) : json * called (effects S) :=
  match onProgress with
  | None => (d, Returns w)
  | Some f =>
      match f d (caller w) with
      | (d', Returns s) => (left_as d d', Returns (called_with d s w))
      | (d', Throws s) => (left_as d d', Throws (called_with d s w))
      end
  end.

(** [data.status === 'completed' || data.status === 'failed']. *)
Definition terminal (status : js_value) : bool :=
  JS.is_string status "completed" || JS.is_string status "failed".

(** The body of the [for] loop for one line: [Some o] when it returns [o]
    from the whole operation, [None] when the loop goes on. *)
Definition process_line (line : string) (w : effects S)
  : option outcome * effects S :=
  if Str.startsWith "data: " line then
    match JSON.parse (Str.slice 6 line) with
    | None => (None, warn line w)                       (* SyntaxError, caught *)
    | Some d =>
        match report d w with
        | (_, Throws w1) => (None, warn line w1)         (* callback threw, caught *)
        | (d, Returns w1) =>
            match JS.get d "status" with
            | None => (None, warn line w1)               (* TypeError, caught *)
            | Some st =>
                if terminal st
                then (Some (mkOutcome (JS.is_string st "completed") d), w1)
                else (None, w1)
            end
        end
    end
  else (None, w).

(** [for (const line of lines) { ... }]. *)
Fixpoint process_lines (lines : list string) (w : effects S)
  : option outcome * effects S :=
  match lines with
  | [] => (None, w)
  | line :: rest =>
      match process_line line w with
      | (Some o, w1) => (Some o, w1)
      | (None, w1) => process_lines rest w1
      end
  end.

(** How the [while (true)] loop is left. *)
Inductive loop_exit : Type :=
| Returned (o : outcome)
| Broke
| Failed (e : JS.error).

(** [while (true) { read; if (done) break; split; for ... }] over what the
    reader still holds. *)
Fixpoint read_loop (pending : list string) (last : stream_end) (w : effects S)
  : loop_exit * effects S :=
  match pending with
  | [] =>
      match last with
      | Done => (Broke, read w)
      | ReadError e => (Failed e, read w)
      end
  | chunk :: rest =>
      let lines := Str.split Str.LF chunk in
      match process_lines lines (read w) with
      | (Some o, w1) => (Returned o, w1)
      | (None, w1) => read_loop rest last w1
      end
  end.

Definition rebuildVectorStoreWithProgress (env : environment)
    (f : option filters) (w : effects S) : JS.promise outcome * effects S :=
  let req := stream_request env f in
  let w := send req w in
  match fetch env req with
  | NetworkError e => (JS.Rejected e, w)
  | Responded resp =>
      if negb (ok resp)
      then (JS.Rejected (JS.Error ("Rebuild failed: " ++ statusText resp)), w)
      else
        match body resp with
        | None => (JS.Rejected (JS.Error "No response body"), w)
        | Some b =>
            let '(exit, w1) := read_loop (chunks b) (ending b) w in
            let w2 := releaseLock w1 in                     (* finally *)
            match exit with
            | Returned o => (JS.Resolved o, w2)
            | Failed e => (JS.Rejected e, w2)
            | Broke => (JS.Resolved fallback, w2)
            end
        end
  end.

End Client.

(** ** The settings page (frontend/src/pages/SettingsPage.tsx) *)

Module SettingsPage.

(** The [rebuildProgress] state; a field holds whatever the event had. *)
Record progress : Type := mkProgress {
  isActive : bool;
  status : js_value;
  progress_value : js_value;
  message : js_value;
  totalChunks : js_value;
  processedChunks : js_value;
  totalDocuments : js_value;
  processedDocuments : js_value
}.

Record toast : Type := mkToast {
  title : string;
  description : JS.text;
  variant : option string
}.

(** The component's state and the toasts it has raised.  [rebuildProgress]
    is [None] once an updater given to [setRebuildProgress] has thrown. *)
Record page : Type := mkPage {
  backupStats : json;
  isLoading : bool;
  rebuildProgress : option progress;
  toasts : list toast
}.

Definition setIsLoading (b : bool) (p : page) : page :=
  mkPage (backupStats p) b (rebuildProgress p) (toasts p).

Definition setBackupStats (v : json) (p : page) : page :=
  mkPage v (isLoading p) (rebuildProgress p) (toasts p).

Definition raise_toast (t : toast) (p : page) : page :=
  mkPage (backupStats p) (isLoading p) (rebuildProgress p) (toasts p ++ [t])%list.

(** [setRebuildProgress(prev => ...)], the updater returning [None] when it
    throws. *)
Definition setRebuildProgress (f : progress -> option progress) (p : page) : page :=
  mkPage (backupStats p) (isLoading p)
         (match rebuildProgress p with
          | Some prev => f prev
          | None => None
          end)
         (toasts p).

(** The state of the component before the handler runs. *)
Definition initial : page :=
  mkPage JNull false
         (Some (mkProgress false (Some (JStr EmptyString)) (Some (Int 0))
                  (Some (JStr EmptyString)) (Some (Int 0)) (Some (Int 0))
                  (Some (Int 0)) (Some (Int 0))))
         [].

(** The state the handler sets first. *)
Definition initializing : progress :=
  mkProgress true (Some (JStr "starting")) (Some (Int 0))
             (Some (JStr "Initializing rebuild...")) (Some (Int 0)) (Some (Int 0))
             (Some (Int 0)) (Some (Int 0)).

(** The updater of the progress callback: reads seven properties of [data]. *)
Definition from_event (d : json) (prev : progress) : option progress :=
  match JS.get d "status", JS.get d "progress", JS.get d "message",
        JS.get d "total_chunks", JS.get d "processed_chunks",
        JS.get d "total_documents", JS.get d "processed_documents" with
  | Some st, Some pr, Some msg, Some tc, Some pc, Some td, Some pd =>
      Some (mkProgress (isActive prev) st pr msg tc pc td pd)
  | _, _, _, _, _, _, _ => None
  end.

(** The callback handed to the client; it reads the event and leaves it as
    it is, and setting state does not throw. *)
Definition on_progress : callback page :=
  fun d p => (d, Returns (setRebuildProgress (from_event d) p)).

Definition finish (st : option string) (pr : option Z) (prev : progress)
  : option progress :=
  Some (mkProgress false
          (match st with Some s => Some (JStr s) | None => status prev end)
          (match pr with Some z => Some (Int z) | None => progress_value prev end)
          (message prev) (totalChunks prev) (processedChunks prev)
          (totalDocuments prev) (processedDocuments prev)).

(** [fetchBackupStats], given how [apiClient.getBackupStats()] settles. *)
Definition fetchBackupStats (stats : JS.promise json) (p : page) : page :=
  match stats with
  | JS.Resolved d => setBackupStats d p
  | JS.Rejected _ =>
      raise_toast (mkToast "Error" (JS.Text "Failed to fetch backup statistics")
                           (Some "destructive")) p
  end.

(** [result.data?.error || 'Rebuild failed'], as the message of the error
    that is thrown. *)
Definition failure_message (d : json) : JS.text :=
  let v := match JS.get d "error" with
           | Some v => v
           | None => None
           end in
  match v with
  | Some x => if JS.truthy v then JS.to_text x else JS.Text "Rebuild failed"
  | None => JS.Text "Rebuild failed"
  end.

(** The [catch] block. *)
Definition on_error (e : JS.error) (p : page) : page :=
  let p := setRebuildProgress (finish (Some "failed") None) p in
  raise_toast
    (mkToast "Error"
       (if JS.text_truthy (JS.err_message e) then JS.err_message e
        else JS.Text "Failed to rebuild vector store")
       (Some "destructive")) p.

(** The click handler [rebuildVectorStore]. *)
Definition rebuildVectorStore (env : environment) (stats : JS.promise json)
    (p : page) : effects page :=
  let p := setIsLoading true p in
  let p := mkPage (backupStats p) (isLoading p) (Some initializing) (toasts p) in
  let '(result, w) :=
    rebuildVectorStoreWithProgress (Some on_progress) env None (start p) in
  let p := caller w in
  let p :=
    match result with
    | JS.Resolved r =>
        if success r then
          let p := setRebuildProgress (finish (Some "completed") (Some 100%Z)) p in
          let p := raise_toast
                     (mkToast "Rebuild Completed"
                        (JS.Text "Vector store rebuild completed successfully!")
                        None) p in
          fetchBackupStats stats p
        else
          on_error (JS.mkError "Error" (failure_message (data r))) p
    | JS.Rejected e => on_error e p
    end in
  let p := setIsLoading false p in
  mkEffects p (calls w) (warnings w) (requests w) (reads w) (released w).

End SettingsPage.

(** ** Vocabulary of the statements *)

(** The event a line carries: the payload of a [data: ] line that parses. *)
Definition event_of (line : string) : option json :=
  if Str.startsWith "data: " line then JSON.parse (Str.slice 6 line) else None.

(** [data.status], [undefined] also where reading it throws. *)
Definition status_of (d : json) : js_value :=
  match JS.get d "status" with
  | Some st => st
  | None => None
  end.

(** The event has status [completed] or [failed]. *)
Definition terminal_event (d : json) : bool :=
  match JS.get d "status" with
  | Some st => terminal st
  | None => false
  end.

(** The line carries no terminal event. *)
Definition quiet (line : string) : bool :=
  match event_of line with
  | Some d => negb (terminal_event d)
  | None => true
  end.

(** The lines of a stream as the client sees them: chunk by chunk. *)
Definition lines_of (chunks : list string) : list string :=
  flat_map (Str.split Str.LF) chunks.

(** The events of a list of lines, in order. *)
Definition events_of (lines : list string) : list json :=
  flat_map (fun l => match event_of l with Some d => [d] | None => [] end) lines.

(** A [data: ] line, one line long, whose payload [JSON.parse] rejects. *)
Definition malformed (line : string) : Prop :=
  Str.free_of Str.LF line = true /\
  Str.startsWith "data: " line = true /\
  JSON.parse (Str.slice 6 line) = None.

(** The events up to the first terminal one, that one included. *)
Fixpoint up_to_terminal (events : list json) : list json :=
  match events with
  | [] => []
  | d :: rest => if terminal_event d then [d] else d :: up_to_terminal rest
  end.

(** [data.progress] when it is a number. *)
Definition progress_of (d : json) : option number :=
  match JS.get d "progress" with
  | Some (Some (JNum n)) => Some n
  | _ => None
  end.

(** Both events have a numeric progress and the second is not behind. *)
Definition progress_le (a b : json) : Prop :=
  match progress_of a, progress_of b with
  | Some x, Some y => Num.leb x y = true
  | _, _ => False
  end.

(** The counter [part] of the event does not exceed its counter [whole]. *)
Definition bounded (part whole : string) (d : json) : bool :=
  match JS.get d part, JS.get d whole with
  | Some (Some (JNum p)), Some (Some (JNum t)) => Num.leb p t
  | _, _ => false
  end.

(** A well-formed stream: every [data: ] line parses, the counters of every
    event are within their totals, progress never goes down. *)
Definition well_formed (cs : list string) : Prop :=
  Forall (fun l => Str.startsWith "data: " l = true -> event_of l <> None)
         (lines_of cs)
  /\ Forall (fun d => bounded "processed_chunks" "total_chunks" d = true
                      /\ bounded "processed_documents" "total_documents" d = true)
            (events_of (lines_of cs))
  /\ Sorted progress_le (events_of (lines_of cs)).

(** The lines up to the first one that carries a terminal event, included. *)
Fixpoint until_terminal (lines : list string) : list string :=
  match lines with
  | [] => []
  | l :: rest => if quiet l then l :: until_terminal rest else [l]
  end.

(** What the client has after [if (onProgress) onProgress(data)] on the
    event [d], the caller being in state [s]: the event as it is then, and
    how the call ended (no call, when there is no callback, is a call that
    returns). *)
Definition reply {S : Type} (cb : option (callback S)) (d : json) (s : S)
  : json * called S :=
  match cb with
  | None => (d, Returns s)
  | Some f => (left_as d (fst (f d s)), snd (f d s))
  end.

(** The callback returns normally on [d], whatever the caller's state. *)
Definition returns_on {S : Type} (cb : option (callback S)) (d : json) : Prop :=
  forall s, exists d' s', reply cb d s = (d', Returns s').


(** The callback returns on [d] and the event then has the status
    [completed] or [failed], whatever the caller's state. *)
Definition settles {S : Type} (cb : option (callback S)) (d : json) : Prop :=
  forall s, exists d' s',
    reply cb d s = (d', Returns s') /\ terminal_event d' = true.

(** The run returns [o] at this line: the line carries an event, the
    callback (in some state of the caller) returns on it, the event is
    terminal then, and [o] is made of it. *)
Definition returned_at {S : Type} (cb : option (callback S)) (line : string)
    (o : outcome) : Prop :=
  exists d d' s s',
    event_of line = Some d
    /\ reply cb d s = (d', Returns s')
    /\ terminal_event d' = true
    /\ o = mkOutcome (JS.is_string (status_of d') "completed") d'.

(** The line cannot end the run: it carries no event, or the callback throws
    on its event, or the event is not terminal when the callback has
    returned. *)
Definition passes {S : Type} (cb : option (callback S)) (line : string) : Prop :=
  forall d, event_of line = Some d ->
  forall s, match reply cb d s with
            | (d', Returns _) => terminal_event d' = false
            | (_, Throws _) => True
            end.

(** The callback leaves every event terminal, or not, as it was parsed. *)
Definition tame {S : Type} (cb : option (callback S)) : Prop :=
  forall d s, terminal_event (fst (reply cb d s)) = terminal_event d.

(** The callback leaves every event as it was parsed. *)
Definition observer {S : Type} (cb : option (callback S)) : Prop :=
  forall d s, fst (reply cb d s) = d.

(** Two effect records that differ at most in the console warnings. *)
Definition same_but_warnings {S : Type} (w w' : effects S) : Prop :=
  caller w = caller w' /\ calls w = calls w' /\ requests w = requests w' /\
  reads w = reads w' /\ released w = released w'.

(** An environment in which the request is answered by [r]. *)
Definition answering (base : string) (token : option string) (r : response)
  : environment :=
  mkEnvironment base token (fun _ => Responded r).

(** A 200 response whose body delivers [cs] and then ends as [last]. *)
Definition streaming (cs : list string) (last : stream_end) : response :=
  mkResponse 200 "OK" (Some (mkStream cs last)).

(** What the loop itself never touches. *)
Definition framed {S : Type} (w w' : effects S) : Prop :=
  requests w' = requests w /\ reads w' = reads w /\ released w' = released w.



(** What reaches the callback of a list of events: all of it, or nothing
    when no callback was given. *)
Definition delivered {S : Type} (onProgress : option (callback S))
    (events : list json) : list json :=
  match onProgress with
  | Some _ => events
  | None => []
  end.

(** Two lists of lines that the loop cannot tell apart, warnings aside. *)
Definition alike {S : Type} (onProgress : option (callback S))
    (ls ls' : list string) : Prop :=
  forall w w', same_but_warnings w w' ->
    fst (process_lines onProgress ls w) = fst (process_lines onProgress ls' w')
    /\ same_but_warnings (snd (process_lines onProgress ls w))
                         (snd (process_lines onProgress ls' w')).

(** The operation on a 2xx-or-not response with status [code], status text
    [text] and a body that delivers [cs] and ends as [last]. *)
Definition run_on {S : Type} (onProgress : option (callback S))
    (base : string) (token : option string) (code : Z) (text : string)
    (f : option filters) (w : effects S) (last : stream_end)
    (cs : list string) : JS.promise outcome * effects S :=
  rebuildVectorStoreWithProgress onProgress
    (answering base token (mkResponse code text (Some (mkStream cs last)))) f w.

(** Writing event lines down. *)
Module Wire.

Definition quoted (s : string) : string :=
  String JSON.DQ (s ++ String JSON.DQ EmptyString).

Definition member (k v : string) : string := quoted k ++ ":" ++ v.

Definition object (members : list string) : string :=
  "{" ++ String.concat "," members ++ "}".

Definition data_line (payload : string) : string := "data: " ++ payload.

Definition NL : string := String Str.LF EmptyString.

End Wire.

(** ** Scenarios *)

Module Scenario.

Import Wire.

(** [data: {"status":"completed","progress":100}]. *)
Definition completed : string :=
  data_line (object [member "status" (quoted "completed"); member "progress" "100"]).

(** [data: {"status":"failed","message":"X"}]. *)
Definition failed : string :=
  data_line (object [member "status" (quoted "failed"); member "message" (quoted "X")]).

(** A full progress event with the given status, progress and chunk
    counters. *)
Definition event_line (status progress processed total : string) : string :=
  data_line (object [member "status" (quoted status);
                     member "progress" progress;
                     member "message" (quoted "Rebuilding");
                     member "total_chunks" total;
                     member "processed_chunks" processed;
                     member "total_documents" "2";
                     member "processed_documents" "1"]).

Definition processing : string -> string -> string -> string :=
  event_line "processing".

(** A [data: ] line whose payload is cut short. *)
Definition corrupt : string := data_line "{oops".

(** A callback that counts its calls. *)
Definition counting : callback nat := fun d n => (d, Returns (S n)).


Definition serving (cs : list string) (last : stream_end) : environment :=
  answering "http://localhost:8000" (Some "secret") (streaming cs last).


Definition failed_event : json :=
  JObj [("status", JStr "failed"); ("message", JStr "X")].

(** A run of three chunks: progress, then a corrupt line and the completed
    event, then something that is never read. *)
Definition three_chunks : list string :=
  [processing "10" "1" "8" ++ NL ++ NL;
   corrupt ++ NL ++ completed ++ NL;
   failed ++ NL].


(** A well-formed run. *)
Definition healthy : list string :=
  [processing "10" "1" "8" ++ NL ++ NL;
   processing "62.5" "5" "8" ++ NL ++ event_line "completed" "100" "8" "8" ++ NL;
   NL].

(** The carriage return, which [JSON.parse] takes for white space. *)
Definition CR : string := String "013" EmptyString.



End Scenario.


(** ** The document upload (frontend/src/lib/api.ts, [uploadDocument]) *)

Module Upload.

(** The [File] given to the operation. *)
Record File : Type := mkFile { file_name : string; file_content : string }.

(** The request given to [fetch]: a POST whose body is a [FormData]. *)
Record sent : Type := mkSent {
  sent_method : string;
  sent_url : string;
  sent_headers : list (string * string);
  sent_form : list (string * File)
}.

(** The progress callback [(stage, progress) => void]. *)
Definition callback (S : Type) : Type := json -> js_value -> S -> called S.

Record effects (S : Type) : Type := mkEffects {
  caller : S;                          (* the state the callback works on *)
  calls : list (json * js_value);      (* the argument pairs of onProgress *)
  warnings : list string;              (* the lines given to console.warn *)
  requests : list sent;                (* the requests given to fetch *)
  reads : nat;                         (* the reader.read() calls *)
  released : bool                      (* reader.releaseLock() has run *)
}.
Arguments mkEffects {S}.
Arguments caller {S}.
Arguments calls {S}.
Arguments warnings {S}.
Arguments requests {S}.
Arguments reads {S}.
Arguments released {S}.

Definition start {S : Type} (s : S) : effects S :=
  mkEffects s [] [] [] 0 false.

(** [{ data: { success: true } }]. *)
Definition uploaded : json := JObj [("data", JObj [("success", JBool true)])].

Definition upload_request (base : string) (token : option string) (file : File)
  : sent :=
  mkSent "POST" (base ++ "/rag/upload/")
         [("Authorization", bearer token)]
         [("file", file)].

Section Client.

Context {S : Type}.
Variable onProgress : option (callback S).

Definition warn (line : string) (w : effects S) : effects S :=
  mkEffects (caller w) (calls w) (warnings w ++ [line])%list
            (requests w) (reads w) (released w).

Definition send (r : sent) (w : effects S) : effects S :=
  mkEffects (caller w) (calls w) (warnings w)
            (requests w ++ [r])%list (reads w) (released w).

Definition read (w : effects S) : effects S :=
  mkEffects (caller w) (calls w) (warnings w)
            (requests w) (Datatypes.S (reads w)) (released w).

Definition releaseLock (w : effects S) : effects S :=
  mkEffects (caller w) (calls w) (warnings w)
            (requests w) (reads w) true.

Definition called_with (stage : json) (progress : js_value) (s : S)
    (w : effects S) : effects S :=
  mkEffects s (calls w ++ [(stage, progress)])%list (warnings w)
            (requests w) (reads w) (released w).

(** The body of the [for] loop for one line.  Nothing returns from the
    operation here: the loop always goes on. *)
Definition process_line (line : string) (w : effects S) : effects S :=
  if Str.startsWith "data: " line then
    match JSON.parse (Str.slice 6 line) with
    | None => warn line w                                (* SyntaxError, caught *)
    | Some d =>
        match JS.get d "status" with
        | None => warn line w                            (* TypeError, caught *)
        | Some st =>
            match st, onProgress with
            | Some stage, Some f =>
                if JS.truthy st then
                  let progress := match JS.get d "progress" with
                                  | Some v => v
                                  | None => None
                                  end in
                  match f stage progress (caller w) with
                  | Returns s => called_with stage progress s w
                  | Throws s => warn line (called_with stage progress s w)
                  end
                else w
            | _, _ => w
            end
        end
    end
  else w.

Definition process_lines (lines : list string) (w : effects S) : effects S :=
  fold_left (fun w line => process_line line w) lines w.

(** [while (true) { read; if (done) break; split; for ... }]: [None] when
    the loop is left by [break], the error when a [read()] rejects. *)
Fixpoint read_loop (pending : list string) (last : stream_end) (w : effects S)
  : option JS.error * effects S :=
  match pending with
  | [] =>
      match last with
      | Done => (None, read w)
      | ReadError e => (Some e, read w)
      end
  | chunk :: rest =>
      read_loop rest last (process_lines (Str.split Str.LF chunk) (read w))
  end.

Definition uploadDocument (base : string) (token : option string)
    (fetch : sent -> fetched) (file : File) (w : effects S)
  : JS.promise json * effects S :=
  let req := upload_request base token file in
  let w := send req w in
  match fetch req with
  | NetworkError e => (JS.Rejected e, w)
  | Responded resp =>
      if negb (ok resp)
      then (JS.Rejected (JS.Error ("Upload failed: " ++ statusText resp)), w)
      else
        match body resp with
        | None => (JS.Rejected (JS.Error "No response body"), w)
        | Some b =>
            let '(exit, w1) := read_loop (chunks b) (ending b) w in
            let w2 := releaseLock w1 in                     (* finally *)
            match exit with
            | Some e => (JS.Rejected e, w2)
            | None => (JS.Resolved uploaded, w2)
            end
        end
  end.

End Client.

(** What the callback is given for a line: the status and the progress of
    its event, when the status is truthy. *)
Definition report_of (line : string) : list (json * js_value) :=
  match event_of line with
  | Some d =>
      match JS.get d "status" with
      | Some (Some stage) =>
          if JS.truthy (Some stage)
          then [(stage, match JS.get d "progress" with
                        | Some v => v
                        | None => None
                        end)]
          else []
      | _ => []
      end
  | None => []
  end.

Definition reports_of (lines : list string) : list (json * js_value) :=
  flat_map report_of lines.

End Upload.

(** ** The upload component (DocumentUpload, [uploadDocument] handler) *)

Module DocumentUpload.

Inductive status : Type := uploading | success | error.

Definition status_eqb (a b : status) : bool :=
  match a, b with
  | uploading, uploading | success, success | error, error => true
  | _, _ => false
  end.

(** An entry of [uploadedFiles]. *)
Record UploadFile : Type := mkUploadFile {
  file : Upload.File;
  id : string;
  progress : js_value;
  file_status : status;
  stage : js_value;
  file_error : option JS.text
}.

(** The component's list, the toasts it has raised, and what the parent's
    [onUploadComplete] works on. *)
Record state (P : Type) : Type := mkState {
  uploadedFiles : list UploadFile;
  toasts : list SettingsPage.toast;
  parent : P
}.
Arguments mkState {P}.
Arguments uploadedFiles {P}.
Arguments toasts {P}.
Arguments parent {P}.

Section Component.

Context {P : Type}.
Variable onUploadComplete : option (P -> called P).

Definition setUploadedFiles (f : list UploadFile -> list UploadFile)
    (st : state P) : state P :=
  mkState (f (uploadedFiles st)) (toasts st) (parent st).

Definition raise_toast (t : SettingsPage.toast) (st : state P) : state P :=
  mkState (uploadedFiles st) (toasts st ++ [t])%list (parent st).

(** The entry [onDrop] makes for a file. *)
Definition dropped (f : Upload.File) (i : string) : UploadFile :=
  mkUploadFile f i (Some (Int 0)) uploading None None.

(** The updater of the progress callback, for one entry. *)
Definition staged (mine : string) (stg : json) (prog : js_value)
    (f : UploadFile) : UploadFile :=
  if String.eqb (id f) mine
  then mkUploadFile (file f) (id f)
         (if JS.truthy prog then prog else progress f)
         (if JS.is_string (Some stg) "processed" then success else uploading)
         (Some stg) (file_error f)
  else f.

(** The updater run after the upload has resolved. *)
Definition settled (mine : string) (f : UploadFile) : UploadFile :=
  if String.eqb (id f) mine && status_eqb (file_status f) uploading
  then mkUploadFile (file f) (id f) (Some (Int 100)) success
         (Some (JStr "completed")) (file_error f)
  else f.

(** The updater of the [catch] block. *)
Definition failed_with (mine : string) (message : JS.text)
    (f : UploadFile) : UploadFile :=
  if String.eqb (id f) mine
  then mkUploadFile (file f) (id f) (progress f) error
         (Some (JStr "failed")) (Some message)
  else f.

(** [onUploadComplete?.()]. *)
Definition notify_parent (st : state P) : called (state P) :=
  match onUploadComplete with
  | None => Returns st
  | Some g =>
      match g (parent st) with
      | Returns p => Returns (mkState (uploadedFiles st) (toasts st) p)
      | Throws p => Throws (mkState (uploadedFiles st) (toasts st) p)
      end
  end.

(** The callback given to [apiClient.uploadDocument]. *)
Definition on_stage (uploadFile : UploadFile) : Upload.callback (state P) :=
  fun stg prog st =>
    let st := setUploadedFiles (map (staged (id uploadFile) stg prog)) st in
    if JS.is_string (Some stg) "processed" then
      let st := raise_toast
                  (SettingsPage.mkToast "Upload successful"
                     (JS.Text (Upload.file_name (file uploadFile)
                               ++ " has been processed and is ready for use."))
                     None) st in
      notify_parent st
    else Returns st.

(** [error.message || 'Upload failed']. *)
Definition error_message (e : JS.error) : JS.text :=
  if JS.text_truthy (JS.err_message e) then JS.err_message e
  else JS.Text "Upload failed".

(** The handler [uploadDocument(uploadFile)]. *)
Definition uploadDocument (base : string) (token : option string)
    (fetch : Upload.sent -> fetched) (uploadFile : UploadFile)
    (st : state P) : Upload.effects (state P) :=
  let '(result, w) :=
    Upload.uploadDocument (Some (on_stage uploadFile)) base token fetch
      (file uploadFile) (Upload.start st) in
  let st := Upload.caller w in
  let st :=
    match result with
    | JS.Resolved _ => setUploadedFiles (map (settled (id uploadFile))) st
    | JS.Rejected e =>
        let errorMessage := error_message e in
        let st := setUploadedFiles
                    (map (failed_with (id uploadFile) errorMessage)) st in
        raise_toast (SettingsPage.mkToast "Upload failed" errorMessage
                       (Some "destructive")) st
    end in
  Upload.mkEffects st (Upload.calls w) (Upload.warnings w) (Upload.requests w)
                   (Upload.reads w) (Upload.released w).

(** [removeFile(id)]. *)
Definition removeFile (i : string) (st : state P) : state P :=
  setUploadedFiles (filter (fun f => negb (String.eqb (id f) i))) st.

End Component.

End DocumentUpload.

(** ** What the settings page shows *)

Module SettingsView.

(** [disabled={isLoading || rebuildProgress.isActive}] of the rebuild button;
    [None] when the progress state could not be computed. *)
Definition disabled (p : SettingsPage.page) : option bool :=
  match SettingsPage.rebuildProgress p with
  | Some pr => Some (SettingsPage.isLoading p || SettingsPage.isActive pr)
  | None => None
  end.


End SettingsView.

(** ** The session (frontend/src/lib/api.ts: the two interceptors,
    [refreshToken] and [logout]) *)

Module Auth.

(** [localStorage]: the item of a key is its first binding; what is stored
    is always a string. *)
Definition storage : Type := list (string * JS.text).

Fixpoint getItem (k : string) (st : storage) : option JS.text :=
  match st with
  | [] => None
  | (k', v) :: rest => if String.eqb k k' then Some v else getItem k rest
  end.

Definition removeItem (k : string) (st : storage) : storage :=
  filter (fun kv => negb (String.eqb k (fst kv))) st.

Definition setItem (k : string) (v : JS.text) (st : storage) : storage :=
  (k, v) :: removeItem k st.

(** ToString of a value taken from a response, as [setItem] applies it. *)
Definition to_item (v : js_value) : JS.text :=
  match v with
  | Some x => JS.to_text x
  | None => JS.Text "undefined"
  end.

(** A header value: a constant, or the template [`Bearer ${token}`]. *)
Inductive header_value : Type :=
| Plain (s : string)
| Bearer (token : JS.text).

(** A request configuration of axios, with the [_retry] mark this client
    adds; an absent mark is [false]. *)
Record config : Type := mkConfig {
  cfg_method : string;
  cfg_url : string;
  cfg_headers : list (string * header_value);
  cfg_data : option JS.text;
  _retry : bool
}.

(** [headers.k = v]: an existing property keeps its place. *)
Fixpoint set_header (k : string) (v : header_value)
    (hs : list (string * header_value)) : list (string * header_value) :=
  match hs with
  | [] => [(k, v)]
  | (k', v') :: rest =>
      if String.eqb k k' then (k, v) :: rest
      else (k', v') :: set_header k v rest
  end.

Fixpoint header (k : string) (hs : list (string * header_value))
  : option header_value :=
  match hs with
  | [] => None
  | (k', v) :: rest => if String.eqb k k' then Some v else header k rest
  end.

Definition authorized (token : JS.text) (c : config) : config :=
  mkConfig (cfg_method c) (cfg_url c)
           (set_header "Authorization" (Bearer token) (cfg_headers c))
           (cfg_data c) (_retry c).

Definition marked (c : config) : config :=
  mkConfig (cfg_method c) (cfg_url c) (cfg_headers c) (cfg_data c) true.

(** The error axios rejects with: [error.response?.status] and
    [error.config]. *)
Record axios_error : Type := mkAxiosError {
  response_status : option Z;
  err_config : option config
}.

(** What a promise of this part rejects with.  The message of a
    [TypeError] raised by the engine is not modelled. *)
Inductive thrown : Type :=
| Axios (e : axios_error)
| Native (e : JS.error)
| TypeError.

Inductive settled (A : Type) : Type :=
| Fulfilled (a : A)
| Failed (e : thrown).
Arguments Fulfilled {A} a.
Arguments Failed {A} e.

(** What the code reads and writes of the browser. *)
Record browser : Type := mkBrowser {
  localStorage : storage;
  console_errors : list thrown;           (* console.error(_, e) *)
  pathname : string;                      (* window.location.pathname *)
  href : option string                    (* the last window.location.href = _ *)
}.

Definition stored (f : storage -> storage) (b : browser) : browser :=
  mkBrowser (f (localStorage b)) (console_errors b) (pathname b) (href b).

(** The body of [this.client.post(url, body, { headers })] in [refreshToken]. *)
Record posted : Type := mkPosted {
  post_url : string;
  post_body : JS.text;
  post_headers : list (string * string)
}.

(** The browser, and what this code has handed to axios. *)
Record world : Type := mkWorld {
  page : browser;
  posts : list posted;
  retries : list config
}.

Definition on_page (f : browser -> browser) (w : world) : world :=
  mkWorld (f (page w)) (posts w) (retries w).

(** [s.includes(t)]. *)
Fixpoint includes (t s : string) : bool :=
  Str.startsWith t s
  || match s with
     | EmptyString => false
     | String _ s' => includes t s'
     end.

(** [logout()]. *)
Definition logout (b : browser) : browser :=
  let b := stored (removeItem "access_token") b in
  let b := stored (removeItem "refresh_token") b in
  stored (removeItem "user") b.

(** The request interceptor. *)
Definition request_interceptor (c : config) (b : browser) : config :=
  match getItem "access_token" (localStorage b) with
  | Some token => if JS.text_truthy token then authorized token c else c
  | None => c
  end.

Section Client.

(** The responses of the retried requests. *)
Context {R : Type}.

(** How axios settles the refresh call (to [response.data] when it
    resolves) and a retried request; both run the interceptors again and so
    may change the browser. *)
Variable post : posted -> browser -> settled json * browser.
Variable request : config -> browser -> settled R * browser.

(** [refreshToken()]. *)
Definition refreshToken (w : world) : settled unit * world :=
  match getItem "refresh_token" (localStorage (page w)) with
  | None => (Failed (Native (JS.Error "No refresh token")), w)
  | Some refreshToken =>
      if negb (JS.text_truthy refreshToken)
      then (Failed (Native (JS.Error "No refresh token")), w)
      else
        let sent := mkPosted "/rag/auth/refresh" refreshToken
                             [("Content-Type", "application/json")] in
        let w := mkWorld (page w) (posts w ++ [sent])%list (retries w) in
        match post sent (page w) with
        | (Failed e, b) => (Failed e, on_page (fun _ => b) w)
        | (Fulfilled data, b) =>
            match JS.get data "access_token", JS.get data "refresh_token" with
            | Some access_token, Some newRefreshToken =>
                let b := stored (setItem "access_token" (to_item access_token)) b in
                let b := stored (setItem "refresh_token" (to_item newRefreshToken)) b in
                (Fulfilled tt, on_page (fun _ => b) w)
            | _, _ => (Failed TypeError, on_page (fun _ => b) w)
            end
        end
  end.

(** The [catch] block of the response interceptor. *)
Definition refresh_failed (refreshError : thrown) (b : browser) : browser :=
  let b := mkBrowser (localStorage b) (console_errors b ++ [refreshError])%list
                     (pathname b) (href b) in
  let b := logout b in
  if negb (includes "/auth/login" (pathname b))
  then mkBrowser (localStorage b) (console_errors b) (pathname b)
                 (Some "/auth/login")
  else b.

(** The response interceptor's handler of a rejection. *)
Definition response_interceptor (error : axios_error) (w : world)
  : settled R * world :=
  match response_status error with
  | Some 401%Z =>
      match err_config error with
      | None => (Failed TypeError, w)          (* error.config._retry *)
      | Some c =>
          if negb (_retry c) then
            let c := marked c in
            let error := mkAxiosError (response_status error) (Some c) in
            match refreshToken w with
            | (Fulfilled _, w) =>
                match getItem "access_token" (localStorage (page w)) with
                | Some token =>
                    if JS.text_truthy token then
                      let c := authorized token c in
                      let w := mkWorld (page w) (posts w)
                                       (retries w ++ [c])%list in
                      let '(r, b) := request c (page w) in
                      (r, on_page (fun _ => b) w)
                    else (Failed (Axios error), w)
                | None => (Failed (Axios error), w)
                end
            | (Failed refreshError, w) =>
                (Failed (Axios error), on_page (refresh_failed refreshError) w)
            end
          else (Failed (Axios error), w)
      end
  | _ => (Failed (Axios error), w)
  end.

End Client.

End Auth.

(** ** Vocabulary of the further statements *)

(** The line starts with the marker. *)
Definition is_data (line : string) : bool := Str.startsWith "data: " line.

(** The [data: ] lines of a stream, as the client sees them. *)
Definition data_lines (chunks : list string) : list string :=
  filter is_data (lines_of chunks).

(** Two effect records that differ at most in the count of reads. *)
Definition same_but_reads {S : Type} (w w' : effects S) : Prop :=
  caller w = caller w' /\ calls w = calls w' /\ warnings w = warnings w' /\
  requests w = requests w' /\ released w = released w'.

(** The state the callback leaves, returning or throwing. *)
Definition state_after {S : Type} (c : called S) : S :=
  match c with
  | Returns s => s
  | Throws s => s
  end.

(** How the loop is left when no line made the operation return. *)
Definition left_by (last : stream_end) : loop_exit :=
  match last with
  | Done => Broke
  | ReadError e => Failed e
  end.

(** One field of a serialized query: [name=value], both encoded. *)
Definition query_field (p : string * string) : string :=
  URLSearchParams.encode (fst p) ++ "=" ++ URLSearchParams.encode (snd p).

(** ** Further scenarios *)

(** [d.k], [undefined] also where [d] has no properties. *)
Definition field_of (d : json) (k : string) : js_value :=
  match JS.get d k with
  | Some v => v
  | None => None
  end.

(** The keys [logout] removes. *)
Definition session_key (k : string) : bool :=
  String.eqb k "access_token" || String.eqb k "refresh_token"
  || String.eqb k "user".

(** An updater of the upload list that touches only the state of the
    entries with one id. *)
Definition local_to (mine : string)
    (u : DocumentUpload.UploadFile -> DocumentUpload.UploadFile) : Prop :=
  forall f, DocumentUpload.id (u f) = DocumentUpload.id f
            /\ DocumentUpload.file (u f) = DocumentUpload.file f
            /\ (String.eqb (DocumentUpload.id f) mine = false -> u f = f).

(** The ids and files of the upload list in order, and the entries of the
    other uploads. *)
Definition outline (fs : list DocumentUpload.UploadFile)
  : list (string * Upload.File) :=
  map (fun f => (DocumentUpload.id f, DocumentUpload.file f)) fs.

Definition others (mine : string) (fs : list DocumentUpload.UploadFile)
  : list DocumentUpload.UploadFile :=
  filter (fun f => negb (String.eqb (DocumentUpload.id f) mine)) fs.

Module Scenario2.

Import Wire Scenario.


(** The healthy run delivered in one chunk, and line by line with blank
    chunks between. *)
Definition in_one_chunk : list string :=
  [processing "10" "1" "8" ++ NL ++ NL ++ corrupt ++ NL ++ completed ++ NL].

Definition line_by_line : list string :=
  [processing "10" "1" "8" ++ NL; NL; corrupt; NL ++ completed; NL].

(** An upload whose events report a stage without progress, a failure, and
    one line without status. *)
Definition upload_stream : list string :=
  [data_line (object [member "status" (quoted "uploading");
                      member "progress" "30"]) ++ NL;
   data_line (object [member "progress" "50"]) ++ NL
   ++ data_line (object [member "status" (quoted "failed")]) ++ NL].

Definition pdf : Upload.File := Upload.mkFile "report.pdf" "%PDF-1.7".

(** A callback that counts its calls and throws on the stage [failed]. *)
Definition touchy : Upload.callback nat :=
  fun stage _ n =>
    if JS.is_string (Some stage) "failed" then Throws (S n) else Returns (S n).

Definition answers (r : response) : Upload.sent -> fetched :=
  fun _ => Responded r.

(** Two files dropped on the upload list, the first one being uploaded. *)
Definition first_upload : DocumentUpload.UploadFile :=
  DocumentUpload.dropped pdf "k3x9q0z1a".

Definition two_uploads : DocumentUpload.state nat :=
  DocumentUpload.mkState
    [first_upload;
     DocumentUpload.dropped (Upload.mkFile "notes.txt" "hello") "b7m2c4d8e"]
    [] 0.

(** A parent that counts the completed uploads. *)
Definition counting_parent : option (nat -> called nat) :=
  Some (fun n => Returns (S n)).

(** Responses that refuse the request. *)
Definition too_large : response :=
  mkResponse 413 "Payload Too Large" (Some (mkStream [] Done)).

Definition unavailable : response :=
  mkResponse 503 "Service Unavailable" None.

(** A browser with a session, on the documents page. *)
Definition signed_in : Auth.browser :=
  Auth.mkBrowser
    [("access_token", JS.Text "old-access");
     ("refresh_token", JS.Text "old-refresh");
     ("user", JS.Text "{}");
     ("theme", JS.Text "dark")]
    [] "/documents" None.

(** A backend that renews the tokens. *)
Definition renewing : Auth.posted -> Auth.browser -> Auth.settled json * Auth.browser :=
  fun _ b =>
    (Auth.Fulfilled (JObj [("access_token", JStr "new-access");
                           ("refresh_token", JStr "new-refresh")]), b).

(** The refresh call as axios sends it, the request interceptor having
    added the stored access token. *)
Definition refresh_call : Auth.config :=
  Auth.mkConfig "post" "/rag/auth/refresh"
    [("Content-Type", Auth.Plain "application/json");
     ("Authorization", Auth.Bearer (JS.Text "old-access"))]
    (Some (JS.Text "old-refresh")) false.

(** A backend that answers the refresh call with 500: the response
    interceptor hands an error that is not a 401 on as it is, so the call
    rejects with it and the browser is as before. *)
Definition server_error : Auth.axios_error :=
  Auth.mkAxiosError (Some 500%Z) (Some refresh_call).

Definition out_of_order : Auth.posted -> Auth.browser -> Auth.settled json * Auth.browser :=
  fun _ b => (Auth.Failed (Auth.Axios server_error), b).

(** A request for the documents that came back with 401. *)
Definition get_documents : Auth.config :=
  Auth.mkConfig "get" "/rag/upload/"
    [("Content-Type", Auth.Plain "application/json");
     ("Authorization", Auth.Bearer (JS.Text "old-access"))]
    None false.

Definition expired : Auth.axios_error :=
  Auth.mkAxiosError (Some 401%Z) (Some get_documents).

(** A retry that fails again with 401: its request is marked, so the
    response interceptor hands the error on as it is. *)
Definition failing_again : Auth.config -> Auth.browser -> Auth.settled unit * Auth.browser :=
  fun c b => (Auth.Failed (Auth.Axios (Auth.mkAxiosError (Some 401%Z) (Some c))), b).

End Scenario2.

(** ** Lines *)

Lemma split_not_nil (sep : ascii) (s : string) : Str.split sep s <> [].
Proof.
  destruct s as [|c s]; simpl; [discriminate|].
  destruct (Ascii.eqb c sep); [discriminate|].
  destruct (Str.split sep s); discriminate.
Qed.

Lemma split_free (sep : ascii) (s : string) :
  Str.free_of sep s = true -> Str.split sep s = [s].
Proof.
  induction s as [|c s IH]; simpl; [reflexivity|].
  intros H. apply andb_true_iff in H as [Hc Hs].
  apply negb_true_iff in Hc. rewrite Hc, (IH Hs). reflexivity.
Qed.

(** Splitting goes through a separator: the lines of [a], then those of [b]. *)
Lemma split_app_sep (sep : ascii) (a b : string) :
  Str.split sep (a ++ String sep b) = (Str.split sep a ++ Str.split sep b)%list.
Proof.
  induction a as [|c a IH]; simpl.
  - rewrite Ascii.eqb_refl. reflexivity.
  - destruct (Ascii.eqb c sep); rewrite IH; [reflexivity|].
    pose proof (split_not_nil sep a) as Hne.
    destruct (Str.split sep a); [contradiction|reflexivity].
Qed.

Lemma split_join (sep : ascii) (ls : list string) :
  ls <> [] -> Str.split sep (Str.join sep ls) = flat_map (Str.split sep) ls.
Proof.
  unfold Str.join.
  induction ls as [|l ls IH]; [contradiction|]. intros _.
  destruct ls as [|l' ls].
  - simpl. rewrite app_nil_r. reflexivity.
  - change (String.concat (String sep "") (l :: l' :: ls))
      with (l ++ String sep (String.concat (String sep "") (l' :: ls))).
    rewrite split_app_sep, IH by discriminate. reflexivity.
Qed.

(** Every chunk is the join of its lines. *)
Lemma join_split (sep : ascii) (s : string) :
  Str.join sep (Str.split sep s) = s.
Proof.
  unfold Str.join.
  induction s as [|c s IH]; simpl; [reflexivity|].
  destruct (Ascii.eqb_spec c sep) as [->|Hc].
  - pose proof (split_not_nil sep s) as Hne.
    destruct (Str.split sep s) as [|l ls]; [contradiction|].
    simpl in *. rewrite IH. reflexivity.
  - pose proof (split_not_nil sep s) as Hne.
    destruct (Str.split sep s) as [|l ls]; [contradiction|].
    destruct ls; simpl in *; rewrite <- IH; reflexivity.
Qed.

(** ** The fuel of the parser *)

Module JSONFacts.

Import JSON.

Lemma skip_ws_length (s : string) :
  String.length (skip_ws s) <= String.length s.
Proof.
  induction s as [|c s IH]; simpl; [lia|].
  destruct (is_ws c); simpl; lia.
Qed.

Lemma take_digits_length (s d r : string) :
  take_digits s = (d, r) ->
  String.length s = String.length d + String.length r.
Proof.
  revert d r. induction s as [|c s IH]; simpl; intros d r H.
  - inversion H. reflexivity.
  - destruct (is_digit c).
    + destruct (take_digits s) as [d' r'] eqn:E. inversion H; subst.
      simpl. rewrite (IH d' r eq_refl). reflexivity.
    + inversion H. reflexivity.
Qed.

Lemma string_body_length (s : string) :
  forall hi t r, string_body hi s = Some (t, r) ->
                 String.length r < String.length s.
Proof.
  induction s as [s IH] using (well_founded_induction
                                 (Wf_nat.well_founded_ltof _ String.length)).
  unfold Wf_nat.ltof in IH.
  assert (E : forall g s' t r hi, emit g (string_body hi s') = Some (t, r) ->
                String.length s' < String.length s ->
                String.length r < String.length s').
  { intros g s' t r hi H L. unfold emit in H.
    destruct (string_body hi s') as [[t' r']|] eqn:E'; [|discriminate].
    inversion H; subst. eapply IH; eassumption. }
  intros hi t r H. destruct s as [|c s]; [discriminate|].
  cbn [string_body] in H.
  destruct (Ascii.eqb c DQ); [inversion H; cbn [String.length]; lia|].
  destruct (Ascii.eqb c "\").
  - destruct s as [|e s]; [discriminate|].
    destruct (Ascii.eqb e "u").
    + destruct s as [|h1 [|h2 [|h3 [|h4 s]]]]; try discriminate.
      destruct (hex4 h1 h2 h3 h4) as [u|]; [|discriminate].
      destruct hi as [h|].
      * destruct (is_low u); [apply E in H; cbn [String.length] in *; lia|].
        destruct (is_high u); apply E in H; cbn [String.length] in *; lia.
      * destruct (is_high u).
        -- apply IH in H; cbn [String.length] in *; lia.
        -- apply E in H; cbn [String.length] in *; lia.
    + destruct (simple_escape e); [|discriminate].
      apply E in H; cbn [String.length] in *; lia.
  - destruct (code c <? 32)%N; [discriminate|].
    apply E in H; cbn [String.length] in *; lia.
Qed.


Lemma eat_length (c : ascii) (s r : string) :
  eat c s = Some r -> String.length s = S (String.length r).
Proof.
  destruct s as [|c' s]; simpl; [discriminate|].
  destruct (Ascii.eqb c' c); [|discriminate]. intros [= ->]. reflexivity.
Qed.

Lemma fraction_length (s fp r : string) :
  fraction s = Some (fp, r) -> String.length r <= String.length s.
Proof.
  unfold fraction. destruct (eat "." s) as [s'|] eqn:E.
  - apply eat_length in E.
    destruct (take_digits s') as [d r'] eqn:T. apply take_digits_length in T.
    destruct (String.eqb d ""); [discriminate|]. intros [= <- <-]. lia.
  - intros [= <- <-]. lia.
Qed.

Lemma exponent_length (s r : string) (e : Z) :
  exponent s = Some (e, r) -> String.length r <= String.length s.
Proof.
  unfold exponent.
  destruct (match eat "e" s with Some r0 => Some r0 | None => eat "E" s end)
    as [s'|] eqn:E.
  - assert (L : String.length s = S (String.length s')).
    { destruct (eat "e" s) eqn:E1; [inversion E; subst|];
        eapply eat_length; eassumption. }
    assert (exists b r0, (match eat "-" s' with
                          | Some r1 => (true, r1)
                          | None => match eat "+" s' with
                                    | Some r1 => (false, r1)
                                    | None => (false, s')
                                    end
                          end) = (b, r0)
                         /\ String.length r0 <= String.length s')
      as (b & r0 & -> & L0).
    { destruct (eat "-" s') eqn:E1.
      - apply eat_length in E1. eexists _, _. split; [reflexivity|lia].
      - destruct (eat "+" s') eqn:E2.
        + apply eat_length in E2. eexists _, _. split; [reflexivity|lia].
        + eexists _, _. split; [reflexivity|lia]. }
    destruct (take_digits r0) as [d r'] eqn:T. apply take_digits_length in T.
    destruct (String.eqb d ""); [discriminate|]. intros [= <- <-]. lia.
  - intros [= <- <-]. lia.
Qed.

Lemma unsigned_length (neg : bool) (s r : string) (n : number) :
  unsigned neg s = Some (n, r) -> String.length r < String.length s.
Proof.
  unfold unsigned.
  destruct (take_digits s) as [ip s1] eqn:T. apply take_digits_length in T.
  destruct (String.eqb_spec ip "") as [->|Hip]; [discriminate|].
  destruct (Str.startsWith "0" ip && negb (String.eqb ip "0")); [discriminate|].
  destruct (fraction s1) as [[fp s2]|] eqn:F; [|discriminate].
  apply fraction_length in F.
  destruct (exponent s2) as [[e s3]|] eqn:X; [|discriminate].
  apply exponent_length in X. intros [= _ <-].
  destruct ip; [contradiction|]. simpl in T. lia.
Qed.

Lemma parse_number_length (s r : string) (n : number) :
  parse_number s = Some (n, r) -> String.length r < String.length s.
Proof.
  unfold parse_number. destruct (eat "-" s) as [s0|] eqn:E; intros H.
  - apply eat_length in E. apply unsigned_length in H. lia.
  - apply unsigned_length in H. exact H.
Qed.

Lemma literal_length (word : string) (v v' : json) (s r : string) :
  word <> EmptyString -> literal word v s = Ok v' r ->
  String.length r < String.length s.
Proof.
  unfold literal. intros Hw H.
  destruct (Str.startsWith word s) eqn:E; [|discriminate].
  inversion H; subst. clear H. revert s E.
  induction word as [|a word IH]; [contradiction|]. intros s E.
  destruct s as [|b s]; [discriminate|]. simpl in E.
  apply andb_true_iff in E as [_ E]. cbn [String.length Str.slice].
  destruct word as [|a' word]; [simpl; lia|].
  specialize (IH ltac:(discriminate) s E). lia.
Qed.

(** Every parser that succeeds has consumed something. *)
Lemma parse_length (f : nat) :
  (forall s v r, parse_value f s = Ok v r -> String.length r < String.length s)
  /\ (forall s v r, parse_elements f s = Ok v r -> String.length r < String.length s)
  /\ (forall s v r, parse_members f s = Ok v r -> String.length r < String.length s).
Proof.
  induction f as [|f (IHv & IHe & IHm)]; [repeat split; discriminate|].
  repeat split; intros s v r H; cbn [parse_value parse_elements parse_members] in H.
  - pose proof (skip_ws_length s) as Ls.
    destruct (skip_ws s) as [|c s'] eqn:Es; [discriminate|].
    cbn [String.length] in Ls.
    destruct (Ascii.eqb c "{").
    { pose proof (skip_ws_length s') as Ls'.
      destruct (eat "}" (skip_ws s')) as [r'|] eqn:E.
      - apply eat_length in E. inversion H; subst. lia.
      - destruct (parse_members f s') as [ms r'| |] eqn:M; try discriminate.
        apply IHm in M. inversion H; subst. lia. }
    destruct (Ascii.eqb c "[").
    { pose proof (skip_ws_length s') as Ls'.
      destruct (eat "]" (skip_ws s')) as [r'|] eqn:E.
      - apply eat_length in E. inversion H; subst. lia.
      - destruct (parse_elements f s') as [ms r'| |] eqn:M; try discriminate.
        apply IHe in M. inversion H; subst. lia. }
    destruct (Ascii.eqb c DQ).
    { destruct (string_body None s') as [[t r']|] eqn:B; [|discriminate].
      apply string_body_length in B. inversion H; subst. lia. }
    destruct (Ascii.eqb c "t");
      [apply literal_length in H; [cbn [String.length] in H; lia|discriminate]|].
    destruct (Ascii.eqb c "f");
      [apply literal_length in H; [cbn [String.length] in H; lia|discriminate]|].
    destruct (Ascii.eqb c "n");
      [apply literal_length in H; [cbn [String.length] in H; lia|discriminate]|].
    destruct (parse_number (String c s')) as [[n r']|] eqn:N; [|discriminate].
    apply parse_number_length in N. cbn [String.length] in N.
    inversion H; subst. lia.
  - destruct (parse_value f s) as [x r0| |] eqn:V; try discriminate.
    apply IHv in V. pose proof (skip_ws_length r0) as L0.
    destruct (eat "," (skip_ws r0)) as [r1|] eqn:E.
    + apply eat_length in E.
      destruct (parse_elements f r1) as [vs r2| |] eqn:M; try discriminate.
      apply IHe in M. inversion H; subst. lia.
    + destruct (eat "]" (skip_ws r0)) as [r1|] eqn:E'; [|discriminate].
      apply eat_length in E'. inversion H; subst. lia.
  - pose proof (skip_ws_length s) as Ls.
    destruct (eat DQ (skip_ws s)) as [r0|] eqn:E0; [|discriminate].
    apply eat_length in E0.
    destruct (string_body None r0) as [[k r1]|] eqn:B; [|discriminate].
    apply string_body_length in B. pose proof (skip_ws_length r1) as L1.
    destruct (eat ":" (skip_ws r1)) as [r2|] eqn:E2; [|discriminate].
    apply eat_length in E2.
    destruct (parse_value f r2) as [x r3| |] eqn:V; try discriminate.
    apply IHv in V. pose proof (skip_ws_length r3) as L3.
    destruct (eat "," (skip_ws r3)) as [r4|] eqn:E4.
    + apply eat_length in E4.
      destruct (parse_members f r4) as [ms r5| |] eqn:M; try discriminate.
      apply IHm in M. inversion H; subst. lia.
    + destruct (eat "}" (skip_ws r3)) as [r4|] eqn:E5; [|discriminate].
      apply eat_length in E5. inversion H; subst. lia.
Qed.

(** With two units of fuel for each character the parser never runs out. *)
Lemma parse_enough (f : nat) :
  (forall s, 2 * String.length s < f -> parse_value f s <> OutOfFuel)
  /\ (forall s, 2 * String.length s + 1 < f -> parse_elements f s <> OutOfFuel)
  /\ (forall s, 2 * String.length s + 1 < f -> parse_members f s <> OutOfFuel).
Proof.
  induction f as [|f (IHv & IHe & IHm)]; [repeat split; intros; lia|].
  destruct (parse_length f) as (Lv & Le & Lm).
  repeat split; intros s Hf; cbn [parse_value parse_elements parse_members].
  - pose proof (skip_ws_length s) as Ls.
    destruct (skip_ws s) as [|c s'] eqn:Es; [discriminate|].
    cbn [String.length] in Ls.
    destruct (Ascii.eqb c "{").
    { destruct (eat "}" (skip_ws s')); [discriminate|].
      specialize (IHm s' ltac:(lia)).
      destruct (parse_members f s'); congruence. }
    destruct (Ascii.eqb c "[").
    { destruct (eat "]" (skip_ws s')); [discriminate|].
      specialize (IHe s' ltac:(lia)).
      destruct (parse_elements f s'); congruence. }
    destruct (Ascii.eqb c DQ).
    { destruct (string_body None s') as [[t r']|]; discriminate. }
    unfold literal.
    destruct (Ascii.eqb c "t"); [destruct (Str.startsWith _ _); discriminate|].
    destruct (Ascii.eqb c "f"); [destruct (Str.startsWith _ _); discriminate|].
    destruct (Ascii.eqb c "n"); [destruct (Str.startsWith _ _); discriminate|].
    destruct (parse_number (String c s')) as [[n r']|]; discriminate.
  - specialize (IHv s ltac:(lia)).
    destruct (parse_value f s) as [x r0| |] eqn:V; try congruence.
    apply Lv in V. pose proof (skip_ws_length r0) as L0.
    destruct (eat "," (skip_ws r0)) as [r1|] eqn:E.
    + apply eat_length in E. specialize (IHe r1 ltac:(lia)).
      destruct (parse_elements f r1); congruence.
    + destruct (eat "]" (skip_ws r0)); discriminate.
  - pose proof (skip_ws_length s) as Ls.
    destruct (eat DQ (skip_ws s)) as [r0|] eqn:E0; [|discriminate].
    apply eat_length in E0.
    destruct (string_body None r0) as [[k r1]|] eqn:B; [|discriminate].
    apply string_body_length in B. pose proof (skip_ws_length r1) as L1.
    destruct (eat ":" (skip_ws r1)) as [r2|] eqn:E2; [|discriminate].
    apply eat_length in E2. specialize (IHv r2 ltac:(lia)).
    destruct (parse_value f r2) as [x r3| |] eqn:V; try congruence.
    apply Lv in V. pose proof (skip_ws_length r3) as L3.
    destruct (eat "," (skip_ws r3)) as [r4|] eqn:E4.
    + apply eat_length in E4. specialize (IHm r4 ltac:(lia)).
      destruct (parse_members f r4); congruence.
    + destruct (eat "}" (skip_ws r3)); discriminate.
Qed.

(** So the [None] of [parse] is always a syntax error, never a lack of fuel. *)
Lemma parse_fuel (text : string) :
  parse_value (fuel_for text) text <> OutOfFuel.
Proof. apply parse_enough. unfold fuel_for. lia. Qed.


(** *** More fuel changes nothing *)

Lemma parse_elements_step (f : nat) (s : string) :
  parse_elements (S f) s
  = match parse_value f s with
    | Ok v r =>
        match eat "," (skip_ws r) with
        | Some r' =>
            match parse_elements f r' with
            | Ok vs r'' => Ok (v :: vs) r''
            | Bad => Bad
            | OutOfFuel => OutOfFuel
            end
        | None =>
            match eat "]" (skip_ws r) with
            | Some r' => Ok [v] r'
            | None => Bad
            end
        end
    | Bad => Bad
    | OutOfFuel => OutOfFuel
    end.
Proof. reflexivity. Qed.

Lemma parse_members_step (f : nat) (s : string) :
  parse_members (S f) s
  = match eat DQ (skip_ws s) with
    | None => Bad
    | Some r =>
        match string_body None r with
        | None => Bad
        | Some (k, r0) =>
            match eat ":" (skip_ws r0) with
            | None => Bad
            | Some r1 =>
                match parse_value f r1 with
                | Ok v r2 =>
                    match eat "," (skip_ws r2) with
                    | Some r3 =>
                        match parse_members f r3 with
                        | Ok ms r4 => Ok ((k, v) :: ms) r4
                        | Bad => Bad
                        | OutOfFuel => OutOfFuel
                        end
                    | None =>
                        match eat "}" (skip_ws r2) with
                        | Some r3 => Ok [(k, v)] r3
                        | None => Bad
                        end
                    end
                | Bad => Bad
                | OutOfFuel => OutOfFuel
                end
            end
        end
    end.
Proof. reflexivity. Qed.

Lemma parse_more (f : nat) :
  (forall s v r, parse_value f s = Ok v r -> parse_value (S f) s = Ok v r)
  /\ (forall s v r, parse_elements f s = Ok v r -> parse_elements (S f) s = Ok v r)
  /\ (forall s v r, parse_members f s = Ok v r -> parse_members (S f) s = Ok v r).
Proof.
  induction f as [|f (IHv & IHe & IHm)]; [repeat split; discriminate|].
  repeat split; intros s v r H.
  - cbn [parse_value] in H. cbn [parse_value].
    destruct (skip_ws s) as [|c s']; [discriminate|].
    destruct (Ascii.eqb c "{").
    { destruct (eat "}" (skip_ws s')); [exact H|].
      destruct (parse_members f s') as [ms r'| |] eqn:M; try discriminate.
      rewrite (IHm _ _ _ M). exact H. }
    destruct (Ascii.eqb c "[").
    { destruct (eat "]" (skip_ws s')); [exact H|].
      destruct (parse_elements f s') as [ms r'| |] eqn:M; try discriminate.
      rewrite (IHe _ _ _ M). exact H. }
    exact H.
  - rewrite parse_elements_step in H. rewrite parse_elements_step.
    destruct (parse_value f s) as [x r0| |] eqn:V; try discriminate.
    rewrite (IHv _ _ _ V).
    destruct (eat "," (skip_ws r0)) as [r1|]; [|exact H].
    destruct (parse_elements f r1) as [vs r2| |] eqn:M; try discriminate.
    rewrite (IHe _ _ _ M). exact H.
  - rewrite parse_members_step in H. rewrite parse_members_step.
    destruct (eat DQ (skip_ws s)) as [r0|]; [|discriminate].
    destruct (string_body None r0) as [[k r1]|]; [|discriminate].
    destruct (eat ":" (skip_ws r1)) as [r2|]; [|discriminate].
    destruct (parse_value f r2) as [x r3| |] eqn:V; try discriminate.
    rewrite (IHv _ _ _ V).
    destruct (eat "," (skip_ws r3)) as [r4|]; [|exact H].
    destruct (parse_members f r4) as [ms r5| |] eqn:M; try discriminate.
    rewrite (IHm _ _ _ M). exact H.
Qed.

Lemma parse_value_mono (f f' : nat) (s r : string) (v : json) :
  f <= f' -> parse_value f s = Ok v r -> parse_value f' s = Ok v r.
Proof.
  induction 1 as [|f' _ IH]; [trivial|].
  intros H. apply parse_more, IH, H.
Qed.


(** *** Text after the value does not change the value *)

Lemma length_append (a b : string) :
  String.length (a ++ b) = String.length a + String.length b.
Proof. induction a as [|c a IH]; simpl; [reflexivity|rewrite IH; reflexivity]. Qed.

Lemma length_zero (s : string) : String.length s = 0 -> s = EmptyString.
Proof. destruct s; [reflexivity|discriminate]. Qed.

Lemma not_empty_length (s : string) : s <> EmptyString <-> 0 < String.length s.
Proof.
  destruct s; simpl; split; intros H; try lia; congruence.
Qed.

Lemma skip_ws_ext (a z : string) :
  skip_ws a <> EmptyString -> skip_ws (a ++ z) = skip_ws a ++ z.
Proof.
  induction a as [|c a IH]; simpl; [contradiction|].
  destruct (is_ws c); [exact IH|reflexivity].
Qed.

Lemma eat_ext (c : ascii) (a r z : string) :
  eat c a = Some r -> eat c (a ++ z) = Some (r ++ z).
Proof.
  destruct a as [|c' a]; simpl; [discriminate|].
  destruct (Ascii.eqb c' c); [|discriminate]. intros [= ->]. reflexivity.
Qed.

Lemma eat_none_ext (c : ascii) (a z : string) :
  eat c a = None -> a <> EmptyString -> eat c (a ++ z) = None.
Proof.
  destruct a as [|c' a]; simpl; [contradiction|].
  destruct (Ascii.eqb c' c); [discriminate|reflexivity].
Qed.

Lemma take_digits_ext (a d r z : string) :
  take_digits a = (d, r) -> r <> EmptyString ->
  take_digits (a ++ z) = (d, r ++ z).
Proof.
  revert d. induction a as [|c a IH]; simpl; intros d H Hr.
  - inversion H; subst. contradiction.
  - destruct (is_digit c).
    + destruct (take_digits a) as [d' r'] eqn:E. inversion H; subst.
      rewrite (IH d' eq_refl Hr). reflexivity.
    + inversion H; subst. reflexivity.
Qed.

Lemma fraction_ext (a fp r z : string) :
  fraction a = Some (fp, r) -> r <> EmptyString ->
  fraction (a ++ z) = Some (fp, r ++ z).
Proof.
  unfold fraction. intros H Hr. destruct (eat "." a) as [a'|] eqn:E.
  - rewrite (eat_ext _ _ _ z E).
    destruct (take_digits a') as [d r'] eqn:T.
    destruct (String.eqb d "") eqn:Ed; [discriminate|]. inversion H; subst.
    rewrite (take_digits_ext _ _ _ z T Hr), Ed. reflexivity.
  - inversion H; subst. rewrite (eat_none_ext _ _ z E Hr). reflexivity.
Qed.

Lemma exponent_ext (a r z : string) (e : Z) :
  exponent a = Some (e, r) -> r <> EmptyString ->
  exponent (a ++ z) = Some (e, r ++ z).
Proof.
  unfold exponent. intros H Hr.
  destruct (eat "e" a) as [a'|] eqn:E1.
  - rewrite (eat_ext _ _ _ z E1).
    destruct (eat "-" a') as [a1|] eqn:E2.
    + rewrite (eat_ext _ _ _ z E2).
      destruct (take_digits a1) as [d r'] eqn:T.
      destruct (String.eqb d "") eqn:Ed; [discriminate|]. inversion H; subst.
      rewrite (take_digits_ext _ _ _ z T Hr), Ed. reflexivity.
    + assert (Ha' : a' <> EmptyString).
      { intros ->. cbn in H. discriminate. }
      rewrite (eat_none_ext _ _ z E2 Ha').
      destruct (eat "+" a') as [a1|] eqn:E3.
      * rewrite (eat_ext _ _ _ z E3).
        destruct (take_digits a1) as [d r'] eqn:T.
        destruct (String.eqb d "") eqn:Ed; [discriminate|]. inversion H; subst.
        rewrite (take_digits_ext _ _ _ z T Hr), Ed. reflexivity.
      * rewrite (eat_none_ext _ _ z E3 Ha').
        destruct (take_digits a') as [d r'] eqn:T.
        destruct (String.eqb d "") eqn:Ed; [discriminate|]. inversion H; subst.
        rewrite (take_digits_ext _ _ _ z T Hr), Ed. reflexivity.
  - assert (Ha : a <> EmptyString).
    { intros ->. simpl in H. inversion H; subst. contradiction. }
    rewrite (eat_none_ext _ _ z E1 Ha).
    destruct (eat "E" a) as [a'|] eqn:E1'.
    + rewrite (eat_ext _ _ _ z E1').
      destruct (eat "-" a') as [a1|] eqn:E2.
      * rewrite (eat_ext _ _ _ z E2).
        destruct (take_digits a1) as [d r'] eqn:T.
        destruct (String.eqb d "") eqn:Ed; [discriminate|]. inversion H; subst.
        rewrite (take_digits_ext _ _ _ z T Hr), Ed. reflexivity.
      * assert (Ha' : a' <> EmptyString).
        { intros ->. cbn in H. discriminate. }
        rewrite (eat_none_ext _ _ z E2 Ha').
        destruct (eat "+" a') as [a1|] eqn:E3.
        -- rewrite (eat_ext _ _ _ z E3).
           destruct (take_digits a1) as [d r'] eqn:T.
           destruct (String.eqb d "") eqn:Ed; [discriminate|]. inversion H; subst.
           rewrite (take_digits_ext _ _ _ z T Hr), Ed. reflexivity.
        -- rewrite (eat_none_ext _ _ z E3 Ha').
           destruct (take_digits a') as [d r'] eqn:T.
           destruct (String.eqb d "") eqn:Ed; [discriminate|]. inversion H; subst.
           rewrite (take_digits_ext _ _ _ z T Hr), Ed. reflexivity.
    + rewrite (eat_none_ext _ _ z E1' Ha). inversion H; subst. reflexivity.
Qed.


Lemma unsigned_ext (neg : bool) (a r z : string) (n : number) :
  unsigned neg a = Some (n, r) -> r <> EmptyString ->
  unsigned neg (a ++ z) = Some (n, r ++ z).
Proof.
  unfold unsigned. intros H Hr.
  destruct (take_digits a) as [ip s1] eqn:T.
  destruct (String.eqb ip "") eqn:Eip; [discriminate|].
  destruct (Str.startsWith "0" ip && negb (String.eqb ip "0")) eqn:Ez;
    [discriminate|].
  destruct (fraction s1) as [[fp s2]|] eqn:F; [|discriminate].
  destruct (exponent s2) as [[e s3]|] eqn:X; [|discriminate].
  inversion H; subst.
  pose proof (fraction_length _ _ _ F) as LF.
  pose proof (exponent_length _ _ _ X) as LX.
  apply not_empty_length in Hr.
  assert (H2 : s2 <> EmptyString) by (apply not_empty_length; lia).
  assert (H1 : s1 <> EmptyString) by (apply not_empty_length; lia).
  rewrite (take_digits_ext _ _ _ z T H1), Eip, Ez.
  rewrite (fraction_ext _ _ _ z F H2).
  rewrite (exponent_ext _ _ z _ X ltac:(apply not_empty_length; lia)).
  reflexivity.
Qed.

Lemma parse_number_ext (a r z : string) (n : number) :
  parse_number a = Some (n, r) -> r <> EmptyString ->
  parse_number (a ++ z) = Some (n, r ++ z).
Proof.
  unfold parse_number. intros H Hr. destruct (eat "-" a) as [a0|] eqn:E.
  - rewrite (eat_ext _ _ _ z E). apply unsigned_ext; assumption.
  - assert (Ha : a <> EmptyString) by (intros ->; discriminate).
    rewrite (eat_none_ext _ _ z E Ha). apply unsigned_ext; assumption.
Qed.

Lemma string_body_ext (z s : string) :
  forall hi t r, string_body hi s = Some (t, r) ->
                 string_body hi (s ++ z) = Some (t, r ++ z).
Proof.
  induction s as [s IH] using (well_founded_induction
                                 (Wf_nat.well_founded_ltof _ String.length)).
  unfold Wf_nat.ltof in IH.
  assert (E : forall g s' t r hi, emit g (string_body hi s') = Some (t, r) ->
                String.length s' < String.length s ->
                emit g (string_body hi (s' ++ z)) = Some (t, r ++ z)).
  { intros g s' t r hi H L. unfold emit in H.
    destruct (string_body hi s') as [[t' r']|] eqn:E'; [|discriminate].
    inversion H; subst. rewrite (IH s' L _ _ _ E'). reflexivity. }
  intros hi t r H. destruct s as [|c s]; [discriminate|].
  cbn [string_body append] in *.
  destruct (Ascii.eqb c DQ); [inversion H; reflexivity|].
  destruct (Ascii.eqb c "\").
  - destruct s as [|e s]; [discriminate|]. cbn [append].
    destruct (Ascii.eqb e "u").
    + destruct s as [|h1 [|h2 [|h3 [|h4 s]]]]; try discriminate.
      cbn [append].
      destruct (hex4 h1 h2 h3 h4) as [u|]; [|discriminate].
      destruct hi as [h|].
      * destruct (is_low u);
          [apply E; [exact H|cbn [String.length]; lia]|].
        destruct (is_high u); (apply E; [exact H|cbn [String.length]; lia]).
      * destruct (is_high u).
        -- apply IH; [cbn [String.length]; lia|exact H].
        -- apply E; [exact H|cbn [String.length]; lia].
    + destruct (simple_escape e); [|discriminate].
      apply E; [exact H|cbn [String.length]; lia].
  - destruct (code c <? 32)%N; [discriminate|].
    apply E; [exact H|cbn [String.length]; lia].
Qed.

Lemma startsWith_ext (w a z : string) :
  Str.startsWith w a = true -> Str.startsWith w (a ++ z) = true.
Proof.
  revert a. induction w as [|x w IH]; intros a H; [reflexivity|].
  destruct a as [|y a]; [discriminate|]. simpl in *.
  apply andb_true_iff in H as [-> H]. apply IH, H.
Qed.

Lemma slice_ext (w a z : string) :
  Str.startsWith w a = true ->
  Str.slice (String.length w) (a ++ z) = Str.slice (String.length w) a ++ z.
Proof.
  revert a. induction w as [|x w IH]; intros a H; [reflexivity|].
  destruct a as [|y a]; [discriminate|]. simpl in *.
  apply andb_true_iff in H as [_ H]. apply IH, H.
Qed.

Lemma literal_ext (w : string) (v v' : json) (a r z : string) :
  literal w v a = Ok v' r -> literal w v (a ++ z) = Ok v' (r ++ z).
Proof.
  unfold literal. destruct (Str.startsWith w a) eqn:E; [|discriminate].
  intros [= <- <-]. rewrite (startsWith_ext _ _ z E), (slice_ext _ _ z E).
  reflexivity.
Qed.


Lemma eat_not_empty (c : ascii) (a r : string) :
  eat c a = Some r -> a <> EmptyString.
Proof. intros H ->. discriminate. Qed.

(** A value that is closed by its own last character, or is followed by
    something, is read the same whatever comes after. *)
Lemma parse_ext (z : string) (f : nat) :
  (forall s v r, parse_value f s = Ok v r ->
                 r <> EmptyString \/ is_number v = false ->
                 parse_value f (s ++ z) = Ok v (r ++ z))
  /\ (forall s v r, parse_elements f s = Ok v r ->
                    parse_elements f (s ++ z) = Ok v (r ++ z))
  /\ (forall s v r, parse_members f s = Ok v r ->
                    parse_members f (s ++ z) = Ok v (r ++ z)).
Proof.
  induction f as [|f (IHv & IHe & IHm)]; [repeat split; discriminate|].
  repeat split.
  - intros s v r H Hv. cbn [parse_value] in H. cbn [parse_value].
    destruct (skip_ws s) as [|c s'] eqn:Es; [discriminate|].
    rewrite skip_ws_ext, Es by (rewrite Es; discriminate). cbn [append].
    destruct (Ascii.eqb c "{").
    { destruct (eat "}" (skip_ws s')) as [r'|] eqn:E.
      - rewrite skip_ws_ext by (eapply eat_not_empty; eassumption).
        rewrite (eat_ext _ _ _ z E). inversion H; reflexivity.
      - destruct (parse_members f s') as [ms r'| |] eqn:M; try discriminate.
        assert (Hs' : skip_ws s' <> EmptyString).
        { destruct f; [discriminate|]. rewrite parse_members_step in M.
          destruct (eat DQ (skip_ws s')) eqn:E'; [|discriminate].
          eapply eat_not_empty; eassumption. }
        rewrite skip_ws_ext, (eat_none_ext _ _ z E Hs') by exact Hs'.
        rewrite (IHm _ _ _ M). inversion H; reflexivity. }
    destruct (Ascii.eqb c "[").
    { destruct (eat "]" (skip_ws s')) as [r'|] eqn:E.
      - rewrite skip_ws_ext by (eapply eat_not_empty; eassumption).
        rewrite (eat_ext _ _ _ z E). inversion H; reflexivity.
      - destruct (parse_elements f s') as [ms r'| |] eqn:M; try discriminate.
        assert (Hs' : skip_ws s' <> EmptyString).
        { destruct f; [discriminate|]. rewrite parse_elements_step in M.
          destruct (parse_value f s') as [x r0| |] eqn:V; try discriminate.
          destruct f; [discriminate|]. cbn [parse_value] in V.
          destruct (skip_ws s'); [discriminate|discriminate]. }
        rewrite skip_ws_ext, (eat_none_ext _ _ z E Hs') by exact Hs'.
        rewrite (IHe _ _ _ M). inversion H; reflexivity. }
    destruct (Ascii.eqb c DQ).
    { destruct (string_body None s') as [[t r']|] eqn:B; [|discriminate].
      rewrite (string_body_ext z _ _ _ _ B). inversion H; reflexivity. }
    destruct (Ascii.eqb c "t"); [apply (literal_ext _ _ _ (String c s')), H|].
    destruct (Ascii.eqb c "f"); [apply (literal_ext _ _ _ (String c s')), H|].
    destruct (Ascii.eqb c "n"); [apply (literal_ext _ _ _ (String c s')), H|].
    destruct (parse_number (String c s')) as [[n r']|] eqn:N; [|discriminate].
    inversion H; subst. destruct Hv as [Hr|Hn]; [|discriminate].
    pose proof (parse_number_ext (String c s') _ z _ N Hr) as N'.
    cbn [append] in N'. rewrite N'. reflexivity.
  - intros s v r H. rewrite parse_elements_step in H.
    rewrite parse_elements_step.
    destruct (parse_value f s) as [x r0| |] eqn:V; try discriminate.
    assert (H0 : skip_ws r0 <> EmptyString).
    { destruct (eat "," (skip_ws r0)) eqn:E1;
        [eapply eat_not_empty; eassumption|].
      destruct (eat "]" (skip_ws r0)) eqn:E2; [|discriminate].
      eapply eat_not_empty; eassumption. }
    assert (H0' : r0 <> EmptyString) by (intros ->; apply H0; reflexivity).
    rewrite (IHv _ _ _ V (or_introl H0')), skip_ws_ext by exact H0.
    destruct (eat "," (skip_ws r0)) as [r1|] eqn:E.
    + rewrite (eat_ext _ _ _ z E).
      destruct (parse_elements f r1) as [vs r2| |] eqn:M; try discriminate.
      rewrite (IHe _ _ _ M). inversion H; reflexivity.
    + rewrite (eat_none_ext _ _ z E H0).
      destruct (eat "]" (skip_ws r0)) as [r1|] eqn:E'; [|discriminate].
      rewrite (eat_ext _ _ _ z E'). inversion H; reflexivity.
  - intros s v r H. rewrite parse_members_step in H.
    rewrite parse_members_step.
    destruct (eat DQ (skip_ws s)) as [r0|] eqn:E0; [|discriminate].
    rewrite skip_ws_ext by (eapply eat_not_empty; eassumption).
    rewrite (eat_ext _ _ _ z E0).
    destruct (string_body None r0) as [[k r1]|] eqn:B; [|discriminate].
    rewrite (string_body_ext z _ _ _ _ B).
    destruct (eat ":" (skip_ws r1)) as [r2|] eqn:E2; [|discriminate].
    rewrite skip_ws_ext by (eapply eat_not_empty; eassumption).
    rewrite (eat_ext _ _ _ z E2).
    destruct (parse_value f r2) as [x r3| |] eqn:V; try discriminate.
    assert (H3 : skip_ws r3 <> EmptyString).
    { destruct (eat "," (skip_ws r3)) eqn:E1;
        [eapply eat_not_empty; eassumption|].
      destruct (eat "}" (skip_ws r3)) eqn:E3; [|discriminate].
      eapply eat_not_empty; eassumption. }
    assert (H3' : r3 <> EmptyString) by (intros ->; apply H3; reflexivity).
    rewrite (IHv _ _ _ V (or_introl H3')), skip_ws_ext by exact H3.
    destruct (eat "," (skip_ws r3)) as [r4|] eqn:E4.
    + rewrite (eat_ext _ _ _ z E4).
      destruct (parse_members f r4) as [ms r5| |] eqn:M; try discriminate.
      rewrite (IHm _ _ _ M). inversion H; reflexivity.
    + rewrite (eat_none_ext _ _ z E4 H3).
      destruct (eat "}" (skip_ws r3)) as [r4|] eqn:E5; [|discriminate].
      rewrite (eat_ext _ _ _ z E5). inversion H; reflexivity.
Qed.

(** What is parsed is a number exactly when the text opens like one. *)
Lemma parse_value_kind (f : nat) (s r : string) (v : json) :
  parse_value f s = Ok v r -> is_number v = opens_number s.
Proof.
  destruct f; [discriminate|]. cbn [parse_value]. unfold opens_number, literal.
  destruct (skip_ws s) as [|c s']; [discriminate|].
  destruct (Ascii.eqb c "{"); cbn [orb negb].
  { destruct (eat "}" (skip_ws s')); [intros [= <- _]; reflexivity|].
    destruct (parse_members f s'); intros [= <- _]. reflexivity. }
  destruct (Ascii.eqb c "["); cbn [orb negb].
  { destruct (eat "]" (skip_ws s')); [intros [= <- _]; reflexivity|].
    destruct (parse_elements f s'); intros [= <- _]. reflexivity. }
  destruct (Ascii.eqb c DQ); cbn [orb negb].
  { destruct (string_body None s') as [[t r']|]; intros [= <- _]. reflexivity. }
  destruct (Ascii.eqb c "t"); cbn [orb negb];
    [destruct (Str.startsWith _ _); intros [= <- _]; reflexivity|].
  destruct (Ascii.eqb c "f"); cbn [orb negb];
    [destruct (Str.startsWith _ _); intros [= <- _]; reflexivity|].
  destruct (Ascii.eqb c "n"); cbn [orb negb];
    [destruct (Str.startsWith _ _); intros [= <- _]; reflexivity|].
  destruct (parse_number (String c s')) as [[n r']|]; intros [= <- _].
  reflexivity.
Qed.

Lemma opens_number_ext (a z : string) :
  skip_ws a <> EmptyString -> opens_number (a ++ z) = opens_number a.
Proof.
  intros H. unfold opens_number. rewrite skip_ws_ext by exact H.
  destruct (skip_ws a); [contradiction|reflexivity].
Qed.

(** A text that is a value other than a number, with nothing after it: no
    proper beginning of it parses. *)
Lemma parse_cut_short (a z : string) (v : json) :
  parse_value (fuel_for (a ++ z)) (a ++ z) = Ok v EmptyString ->
  is_number v = false ->
  z <> EmptyString ->
  parse a = None.
Proof.
  intros H Hv Hz. unfold parse.
  destruct (parse_value (fuel_for a) a) as [v' r'| |] eqn:V; try reflexivity.
  exfalso.
  assert (Ha : skip_ws a <> EmptyString).
  { intros E. unfold fuel_for in V. rewrite Nat.add_comm in V.
    cbn [Nat.add parse_value] in V. rewrite E in V. discriminate. }
  assert (Hv' : is_number v' = false).
  { rewrite (parse_value_kind _ _ _ _ V), <- (opens_number_ext a z Ha).
    rewrite <- (parse_value_kind _ _ _ _ H). exact Hv. }
  destruct (parse_ext z (fuel_for a)) as (X & _ & _).
  specialize (X _ _ _ V (or_intror Hv')).
  apply (parse_value_mono _ (fuel_for (a ++ z))) in X.
  - rewrite H in X. inversion X as [[Hvv Hr]].
    destruct r'; [|discriminate]. simpl in Hr. symmetry in Hr. contradiction.
  - unfold fuel_for. rewrite length_append. lia.
Qed.


(** *** The parser and the scan *)

Lemma lex_app (st : lex_state) (a b : string) :
  lex st (a ++ b) = match lex st a with
                    | Some st' => lex st' b
                    | None => None
                    end.
Proof.
  revert st. induction a as [|c a IH]; intros st; simpl; [reflexivity|].
  destruct (lex_step st c); [apply IH|reflexivity].
Qed.

Lemma append_assoc (a b c : string) : (a ++ b) ++ c = a ++ b ++ c.
Proof. induction a as [|x a IH]; simpl; [reflexivity|rewrite IH; reflexivity]. Qed.

Lemma append_nil_r (a : string) : a ++ EmptyString = a.
Proof. induction a as [|x a IH]; simpl; [reflexivity|rewrite IH; reflexivity]. Qed.

Lemma reads_refl (st : lex_state) (s : string) : reads st s s st.
Proof. exists EmptyString. split; reflexivity. Qed.

Lemma reads_trans (st st' st'' : lex_state) (s r r' : string) :
  reads st s r st' -> reads st' r r' st'' -> reads st s r' st''.
Proof.
  intros (c & -> & L) (c' & -> & L'). exists (c ++ c'). split.
  - symmetry. apply append_assoc.
  - rewrite lex_app, L. exact L'.
Qed.

Lemma reads_char (st st' : lex_state) (c : ascii) (s : string) :
  lex_step st c = Some st' -> reads st (String c s) s st'.
Proof.
  intros H. exists (String c EmptyString). split; [reflexivity|].
  simpl. rewrite H. reflexivity.
Qed.

Lemma reads_skip_ws (s : string) : reads Outside s (skip_ws s) Outside.
Proof.
  induction s as [|c s IH]; simpl; [apply reads_refl|].
  destruct (is_ws c) eqn:W; [|apply reads_refl].
  eapply reads_trans; [apply reads_char|exact IH].
  unfold lex_step, outside_ok. rewrite W.
  destruct (Ascii.eqb_spec c DQ) as [->|_]; [discriminate|reflexivity].
Qed.

Lemma reads_eat (c : ascii) (s r : string) :
  eat c s = Some r -> outside_ok c = true -> c <> DQ ->
  reads Outside s r Outside.
Proof.
  destruct s as [|c' s]; simpl; [discriminate|].
  destruct (Ascii.eqb_spec c' c) as [->|]; [|discriminate].
  intros [= ->] Hok Hq. apply reads_char. unfold lex_step.
  destruct (Ascii.eqb_spec c DQ); [contradiction|]. rewrite Hok. reflexivity.
Qed.

Lemma reads_quote (s r : string) :
  eat DQ s = Some r -> reads Outside s r Inside.
Proof.
  destruct s as [|c' s]; simpl; [discriminate|].
  destruct (Ascii.eqb_spec c' DQ) as [->|]; [|discriminate].
  intros [= ->]. apply reads_char. reflexivity.
Qed.

Lemma reads_digits (s d r : string) :
  take_digits s = (d, r) -> reads Outside s r Outside.
Proof.
  revert d. induction s as [|c s IH]; simpl; intros d H.
  - inversion H. apply reads_refl.
  - destruct (is_digit c) eqn:D.
    + destruct (take_digits s) as [d' r'] eqn:E. inversion H; subst.
      eapply reads_trans; [apply reads_char|exact (IH d' eq_refl)].
      unfold lex_step, outside_ok. rewrite D, orb_true_r.
      destruct (Ascii.eqb_spec c DQ) as [->|_]; [discriminate|reflexivity].
    + inversion H. apply reads_refl.
Qed.

Lemma reads_sign (s : string) (b : bool) (r : string) :
  (match eat "-" s with
   | Some r1 => (true, r1)
   | None => match eat "+" s with
             | Some r1 => (false, r1)
             | None => (false, s)
             end
   end) = (b, r) ->
  reads Outside s r Outside.
Proof.
  destruct (eat "-" s) eqn:E1.
  - intros [= _ <-]. eapply reads_eat; [exact E1|reflexivity|discriminate].
  - destruct (eat "+" s) eqn:E2; intros [= _ <-].
    + eapply reads_eat; [exact E2|reflexivity|discriminate].
    + apply reads_refl.
Qed.

Lemma reads_fraction (s fp r : string) :
  fraction s = Some (fp, r) -> reads Outside s r Outside.
Proof.
  unfold fraction. destruct (eat "." s) as [s'|] eqn:E.
  - destruct (take_digits s') as [d r'] eqn:T.
    destruct (String.eqb d ""); [discriminate|]. intros [= _ <-].
    eapply reads_trans; [|eapply reads_digits; exact T].
    eapply reads_eat; [exact E|reflexivity|discriminate].
  - intros [= _ <-]. apply reads_refl.
Qed.

Lemma reads_exponent (s r : string) (e : Z) :
  exponent s = Some (e, r) -> reads Outside s r Outside.
Proof.
  unfold exponent.
  destruct (match eat "e" s with Some r0 => Some r0 | None => eat "E" s end)
    as [s'|] eqn:E.
  - assert (R : reads Outside s s' Outside).
    { destruct (eat "e" s) eqn:E1.
      - inversion E; subst.
        eapply reads_eat; [exact E1|reflexivity|discriminate].
      - eapply reads_eat; [exact E|reflexivity|discriminate]. }
    destruct (match eat "-" s' with
              | Some r1 => (true, r1)
              | None => match eat "+" s' with
                        | Some r1 => (false, r1)
                        | None => (false, s')
                        end
              end) as [b r0] eqn:Sg.
    apply reads_sign in Sg.
    destruct (take_digits r0) as [d r'] eqn:T.
    destruct (String.eqb d ""); [discriminate|]. intros [= _ <-].
    eapply reads_trans; [exact R|].
    eapply reads_trans; [exact Sg|]. eapply reads_digits; exact T.
  - intros [= _ <-]. apply reads_refl.
Qed.

Lemma reads_unsigned (neg : bool) (s r : string) (n : number) :
  unsigned neg s = Some (n, r) -> reads Outside s r Outside.
Proof.
  unfold unsigned. destruct (take_digits s) as [ip s1] eqn:T.
  destruct (String.eqb ip ""); [discriminate|].
  destruct (Str.startsWith "0" ip && negb (String.eqb ip "0")); [discriminate|].
  destruct (fraction s1) as [[fp s2]|] eqn:F; [|discriminate].
  destruct (exponent s2) as [[e s3]|] eqn:X; [|discriminate].
  intros [= _ <-].
  eapply reads_trans; [eapply reads_digits; exact T|].
  eapply reads_trans; [eapply reads_fraction; exact F|].
  eapply reads_exponent; exact X.
Qed.

Lemma reads_number (s r : string) (n : number) :
  parse_number s = Some (n, r) -> reads Outside s r Outside.
Proof.
  unfold parse_number. destruct (eat "-" s) as [s'|] eqn:E; intros H.
  - eapply reads_trans; [|eapply reads_unsigned; exact H].
    eapply reads_eat; [exact E|reflexivity|discriminate].
  - eapply reads_unsigned; exact H.
Qed.


Lemma startsWith_split (w s : string) :
  Str.startsWith w s = true -> s = w ++ Str.slice (String.length w) s.
Proof.
  revert s. induction w as [|x w IH]; intros s H; [reflexivity|].
  destruct s as [|y s]; [discriminate|]. simpl in *.
  apply andb_true_iff in H as [E H]. apply Ascii.eqb_eq in E. subst y.
  f_equal. apply IH, H.
Qed.

Lemma reads_literal (w : string) (v v' : json) (s r : string) :
  literal w v s = Ok v' r -> lex Outside w = Some Outside ->
  reads Outside s r Outside.
Proof.
  unfold literal. destruct (Str.startsWith w s) eqn:E; [|discriminate].
  intros [= _ <-] L. exists w. split; [apply startsWith_split, E|exact L].
Qed.

Lemma hex_inside (h : ascii) (x : N) :
  hex_value h = Some x -> lex_step Inside h = Some Inside.
Proof.
  intros H. unfold lex_step.
  destruct (Ascii.eqb_spec h DQ) as [->|_]; [discriminate|].
  destruct (Ascii.eqb_spec h "\") as [->|_]; [discriminate|reflexivity].
Qed.

Lemma hex4_inside (h1 h2 h3 h4 : ascii) (u : N) (s : string) :
  hex4 h1 h2 h3 h4 = Some u ->
  reads Inside (String h1 (String h2 (String h3 (String h4 s)))) s Inside.
Proof.
  unfold hex4.
  destruct (hex_value h1) eqn:H1; [|discriminate].
  destruct (hex_value h2) eqn:H2; [|discriminate].
  destruct (hex_value h3) eqn:H3; [|discriminate].
  destruct (hex_value h4) eqn:H4; [|discriminate]. intros _.
  exists (String h1 (String h2 (String h3 (String h4 EmptyString)))).
  split; [reflexivity|]. cbn [lex].
  rewrite (hex_inside _ _ H1), (hex_inside _ _ H2),
          (hex_inside _ _ H3), (hex_inside _ _ H4). reflexivity.
Qed.

(** The body of a string takes the scan from inside to outside. *)
Lemma reads_string_body (s : string) :
  forall hi t r, string_body hi s = Some (t, r) -> reads Inside s r Outside.
Proof.
  induction s as [s IH] using (well_founded_induction
                                 (Wf_nat.well_founded_ltof _ String.length)).
  unfold Wf_nat.ltof in IH.
  assert (E : forall g s' t r hi, emit g (string_body hi s') = Some (t, r) ->
                String.length s' < String.length s ->
                reads Inside s' r Outside).
  { intros g s' t r hi H L. unfold emit in H.
    destruct (string_body hi s') as [[t' r']|] eqn:E'; [|discriminate].
    inversion H; subst. eapply IH; eassumption. }
  intros hi t r H. destruct s as [|c s]; [discriminate|].
  cbn [string_body] in H.
  destruct (Ascii.eqb c DQ) eqn:Q.
  { inversion H; subst. apply reads_char. unfold lex_step. rewrite Q. reflexivity. }
  destruct (Ascii.eqb c "\") eqn:B.
  - assert (R1 : forall s', reads Inside (String c s') s' Escaped).
    { intros s'. apply reads_char. unfold lex_step. rewrite Q, B. reflexivity. }
    destruct s as [|e s]; [discriminate|].
    assert (R2 : reads Inside (String c (String e s)) s Inside).
    { eapply reads_trans; [apply R1|]. apply reads_char. reflexivity. }
    destruct (Ascii.eqb e "u").
    + destruct s as [|h1 [|h2 [|h3 [|h4 s]]]]; try discriminate.
      destruct (hex4 h1 h2 h3 h4) as [u|] eqn:X; [|discriminate].
      assert (R3 : reads Inside
                     (String c (String e (String h1 (String h2
                        (String h3 (String h4 s)))))) s Inside).
      { eapply reads_trans; [exact R2|]. eapply hex4_inside; exact X. }
      eapply reads_trans; [exact R3|].
      destruct hi as [h|].
      * destruct (is_low u);
          [eapply E; [exact H|cbn [String.length]; lia]|].
        destruct (is_high u); (eapply E; [exact H|cbn [String.length]; lia]).
      * destruct (is_high u).
        -- eapply IH; [|exact H]. cbn [String.length]; lia.
        -- eapply E; [exact H|cbn [String.length]; lia].
    + destruct (simple_escape e); [|discriminate].
      eapply reads_trans; [exact R2|].
      eapply E; [exact H|cbn [String.length]; lia].
  - destruct (code c <? 32)%N; [discriminate|].
    eapply reads_trans;
      [apply reads_char; unfold lex_step; rewrite Q, B; reflexivity|].
    eapply E; [exact H|cbn [String.length]; lia].
Qed.

(** What the parser reads of a text takes the scan from outside the strings
    to outside the strings; what is left is the end of the text. *)
Lemma reads_parse (f : nat) :
  (forall s v r, parse_value f s = Ok v r -> reads Outside s r Outside)
  /\ (forall s v r, parse_elements f s = Ok v r -> reads Outside s r Outside)
  /\ (forall s v r, parse_members f s = Ok v r -> reads Outside s r Outside).
Proof.
  induction f as [|f (IHv & IHe & IHm)]; [repeat split; discriminate|].
  repeat split; intros s v r H.
  - cbn [parse_value] in H.
    eapply reads_trans; [apply reads_skip_ws|].
    destruct (skip_ws s) as [|c s']; [discriminate|].
    destruct (Ascii.eqb_spec c "{") as [->|_].
    { eapply reads_trans; [apply reads_char; reflexivity|].
      destruct (eat "}" (skip_ws s')) as [r'|] eqn:E.
      - inversion H; subst.
        eapply reads_trans; [apply reads_skip_ws|].
        eapply reads_eat; [exact E|reflexivity|discriminate].
      - destruct (parse_members f s') as [ms r'| |] eqn:M; try discriminate.
        inversion H; subst. eapply IHm; exact M. }
    destruct (Ascii.eqb_spec c "[") as [->|_].
    { eapply reads_trans; [apply reads_char; reflexivity|].
      destruct (eat "]" (skip_ws s')) as [r'|] eqn:E.
      - inversion H; subst.
        eapply reads_trans; [apply reads_skip_ws|].
        eapply reads_eat; [exact E|reflexivity|discriminate].
      - destruct (parse_elements f s') as [ms r'| |] eqn:M; try discriminate.
        inversion H; subst. eapply IHe; exact M. }
    destruct (Ascii.eqb_spec c DQ) as [->|_].
    { eapply reads_trans; [apply reads_char; reflexivity|].
      destruct (string_body None s') as [[t r']|] eqn:B; [|discriminate].
      inversion H; subst. eapply reads_string_body; exact B. }
    destruct (Ascii.eqb c "t"); [eapply reads_literal; [exact H|reflexivity]|].
    destruct (Ascii.eqb c "f"); [eapply reads_literal; [exact H|reflexivity]|].
    destruct (Ascii.eqb c "n"); [eapply reads_literal; [exact H|reflexivity]|].
    destruct (parse_number (String c s')) as [[n r']|] eqn:N; [|discriminate].
    inversion H; subst. eapply reads_number; exact N.
  - rewrite parse_elements_step in H.
    destruct (parse_value f s) as [x r0| |] eqn:V; try discriminate.
    eapply reads_trans; [eapply IHv; exact V|].
    eapply reads_trans; [apply reads_skip_ws|].
    destruct (eat "," (skip_ws r0)) as [r1|] eqn:E.
    + eapply reads_trans; [eapply reads_eat; [exact E|reflexivity|discriminate]|].
      destruct (parse_elements f r1) as [vs r2| |] eqn:M; try discriminate.
      inversion H; subst. eapply IHe; exact M.
    + destruct (eat "]" (skip_ws r0)) as [r1|] eqn:E'; [|discriminate].
      inversion H; subst.
      eapply reads_eat; [exact E'|reflexivity|discriminate].
  - rewrite parse_members_step in H.
    eapply reads_trans; [apply reads_skip_ws|].
    destruct (eat DQ (skip_ws s)) as [r0|] eqn:E0; [|discriminate].
    eapply reads_trans; [eapply reads_quote; exact E0|].
    destruct (string_body None r0) as [[k r1]|] eqn:B; [|discriminate].
    eapply reads_trans; [eapply reads_string_body; exact B|].
    eapply reads_trans; [apply reads_skip_ws|].
    destruct (eat ":" (skip_ws r1)) as [r2|] eqn:E2; [|discriminate].
    eapply reads_trans; [eapply reads_eat; [exact E2|reflexivity|discriminate]|].
    destruct (parse_value f r2) as [x r3| |] eqn:V; try discriminate.
    eapply reads_trans; [eapply IHv; exact V|].
    eapply reads_trans; [apply reads_skip_ws|].
    destruct (eat "," (skip_ws r3)) as [r4|] eqn:E4.
    + eapply reads_trans; [eapply reads_eat; [exact E4|reflexivity|discriminate]|].
      destruct (parse_members f r4) as [ms r5| |] eqn:M; try discriminate.
      inversion H; subst. eapply IHm; exact M.
    + destruct (eat "}" (skip_ws r3)) as [r4|] eqn:E5; [|discriminate].
      inversion H; subst.
      eapply reads_eat; [exact E5|reflexivity|discriminate].
Qed.


(** What [parse] accepts consists of a value and white space after it. *)
Lemma parse_inv (text : string) (v : json) :
  parse text = Some v ->
  exists c r, text = c ++ r
              /\ parse_value (fuel_for text) text = Ok v r
              /\ skip_ws r = EmptyString
              /\ lex Outside c = Some Outside.
Proof.
  unfold parse.
  destruct (parse_value (fuel_for text) text) as [v' r| |] eqn:V;
    try discriminate.
  destruct (skip_ws r) eqn:W; [|discriminate]. intros [= ->].
  destruct (reads_parse (fuel_for text)) as (R & _ & _).
  destruct (R _ _ _ V) as (c & E & L).
  exists c, r. repeat split; assumption.
Qed.

Lemma parse_lex (text : string) (v : json) :
  parse text = Some v -> lex Outside text = Some Outside.
Proof.
  intros H. destruct (parse_inv _ _ H) as (c & r & -> & _ & W & L).
  rewrite lex_app, L.
  destruct (reads_skip_ws r) as (c' & E & L'). rewrite W, append_nil_r in E.
  subst c'. exact L'.
Qed.

Lemma lex_opposite (s : string) :
  forall a b a' b', opposite a b ->
                    lex a s = Some a' -> lex b s = Some b' -> opposite a' b'.
Proof.
  induction s as [|c s IH]; intros a b a' b' O; simpl.
  - intros [= <-] [= <-]. exact O.
  - destruct a, b; try contradiction; unfold lex_step;
      destruct (Ascii.eqb c DQ) eqn:Q.
    + apply IH. exact I.
    + destruct (outside_ok c) eqn:K; [|discriminate].
      destruct (Ascii.eqb_spec c "\") as [->|_]; [discriminate|].
      apply IH. exact I.
    + apply IH. exact I.
    + destruct (outside_ok c) eqn:K; [|intros _; discriminate].
      destruct (Ascii.eqb_spec c "\") as [->|_]; [discriminate|].
      apply IH. exact I.
Qed.

(** In a text that parses, what follows the marker [data: ] does not parse
    by itself: the marker stands inside a string, what follows starts there. *)
Lemma parse_after_marker (a b : string) (v : json) :
  parse (a ++ "data: " ++ b) = Some v -> parse b = None.
Proof.
  intros H. apply parse_lex in H. rewrite lex_app in H.
  destruct (lex Outside a) as [st|]; [|discriminate]. rewrite lex_app in H.
  destruct (parse b) as [v'|] eqn:P; [|reflexivity]. apply parse_lex in P.
  exfalso.
  assert (M : lex st "data: " = Some Inside \/ lex st "data: " = None)
    by (destruct st; [right|left|left]; reflexivity).
  destruct M as [M|M]; rewrite M in H; [|discriminate].
  exact (lex_opposite b Inside Outside Outside Outside I H P).
Qed.

Lemma ends_in_ws_blank (r : string) :
  skip_ws r = EmptyString -> r <> EmptyString -> ends_in_ws r = true.
Proof.
  induction r as [|c r IH]; [contradiction|]. intros H _. simpl in H.
  destruct (is_ws c) eqn:W; [|discriminate].
  destruct r as [|c' r]; [exact W|].
  change (ends_in_ws (String c' r) = true). apply IH; [exact H|discriminate].
Qed.

Lemma ends_in_ws_app (a r : string) :
  r <> EmptyString -> ends_in_ws (a ++ r) = ends_in_ws r.
Proof.
  intros Hr. induction a as [|c a IH]; [reflexivity|].
  simpl. destruct (a ++ r) eqn:E; [|exact IH].
  destruct a; simpl in E; [contradiction|discriminate].
Qed.

(** A text that parses and does not end in white space is all value. *)
Lemma parse_exact (text : string) (v : json) :
  parse text = Some v -> ends_in_ws text = false ->
  parse_value (fuel_for text) text = Ok v EmptyString.
Proof.
  intros H E. destruct (parse_inv _ _ H) as (c & r & -> & V & W & _).
  destruct r as [|x r]; [exact V|].
  rewrite ends_in_ws_app, (ends_in_ws_blank _ W) in E by discriminate.
  discriminate.
Qed.

End JSONFacts.

(** ** The read loop *)

Section Loop.

Context {S : Type}.
Variable onProgress : option (callback S).


Lemma framed_refl (w : effects S) : framed w w.
Proof. repeat split. Qed.

Lemma framed_trans (a b c : effects S) : framed a b -> framed b c -> framed a c.
Proof. unfold framed. intuition congruence. Qed.

Lemma same_refl (w : effects S) : same_but_warnings w w.
Proof. repeat split. Qed.

Lemma same_warn (line : string) (w w' : effects S) :
  same_but_warnings w w' -> same_but_warnings (warn line w) w'.
Proof. unfold same_but_warnings. simpl. tauto. Qed.

Lemma same_warn2 (l l' : string) (w w' : effects S) :
  same_but_warnings w w' -> same_but_warnings (warn l w) (warn l' w').
Proof. unfold same_but_warnings. simpl. tauto. Qed.

Lemma same_sym (w w' : effects S) :
  same_but_warnings w w' -> same_but_warnings w' w.
Proof. unfold same_but_warnings. intuition congruence. Qed.

Lemma same_trans (a b c : effects S) :
  same_but_warnings a b -> same_but_warnings b c -> same_but_warnings a c.
Proof. unfold same_but_warnings. intuition congruence. Qed.

Lemma same_read (w w' : effects S) :
  same_but_warnings w w' -> same_but_warnings (read w) (read w').
Proof. unfold same_but_warnings. simpl. intuition congruence. Qed.

Lemma same_called (d : json) (s : S) (w w' : effects S) :
  same_but_warnings w w' ->
  same_but_warnings (called_with d s w) (called_with d s w').
Proof. unfold same_but_warnings. simpl. intuition congruence. Qed.

(** The loop leaves the requests, the read count and the lock alone. *)
Lemma process_line_framed (line : string) (w : effects S) :
  framed w (snd (process_line onProgress line w)).
Proof.
  unfold process_line, report.
  destruct (Str.startsWith "data: " line); [|apply framed_refl].
  destruct (JSON.parse (Str.slice 6 line)) as [d|]; [|repeat split].
  destruct onProgress as [f|].
  - destruct (f d (caller w)) as [d' [s|s]]; [|repeat split].
    destruct (JS.get (left_as d d') "status") as [st|]; [|repeat split].
    destruct (terminal st); repeat split.
  - destruct (JS.get d "status") as [st|]; [|repeat split].
    destruct (terminal st); repeat split.
Qed.

Lemma process_lines_framed (lines : list string) (w : effects S) :
  framed w (snd (process_lines onProgress lines w)).
Proof.
  revert w. induction lines as [|l ls IH]; intros w; simpl.
  - apply framed_refl.
  - pose proof (process_line_framed l w) as F.
    destruct (process_line onProgress l w) as [[o|] w1]; simpl in *; [exact F|].
    eapply framed_trans; [exact F|apply IH].
Qed.

Lemma read_loop_requests (cs : list string) (last : stream_end) (w : effects S) :
  requests (snd (read_loop onProgress cs last w)) = requests w.
Proof.
  revert w. induction cs as [|c cs IH]; intros w; simpl.
  - destruct last; reflexivity.
  - pose proof (process_lines_framed (Str.split Str.LF c) (read w)) as (F & _).
    destruct (process_lines onProgress (Str.split Str.LF c) (read w))
      as [[o|] w1]; simpl in *; [exact F|].
    rewrite IH. exact F.
Qed.

(** A line that carries no event only adds, at most, a warning. *)
Lemma process_line_no_event (line : string) (w : effects S) :
  event_of line = None ->
  process_line onProgress line w
  = (None, if Str.startsWith "data: " line then warn line w else w).
Proof.
  unfold event_of, process_line. intros H.
  destruct (Str.startsWith "data: " line); [rewrite H|]; reflexivity.
Qed.

Lemma process_line_malformed (line : string) (w : effects S) :
  malformed line -> process_line onProgress line w = (None, warn line w).
Proof.
  intros (_ & Hd & Hp). rewrite process_line_no_event.
  - rewrite Hd. reflexivity.
  - unfold event_of. rewrite Hd. exact Hp.
Qed.

(** A line that carries an event: what the call of the callback leaves
    decides whether the operation returns, and with what. *)
Lemma process_line_event (line : string) (d : json) (w : effects S) :
  event_of line = Some d ->
  exists w',
    process_line onProgress line w
    = (match reply onProgress d (caller w) with
       | (d', Returns _) =>
           if terminal_event d'
           then Some (mkOutcome (JS.is_string (status_of d') "completed") d')
           else None
       | (_, Throws _) => None
       end, w')
    /\ framed w w'
    /\ caller w' = state_after (snd (reply onProgress d (caller w))).
Proof.
  unfold event_of, process_line, report, reply, terminal_event, status_of.
  intros He.
  destruct (Str.startsWith "data: " line); [|discriminate]. rewrite He.
  destruct onProgress as [f|].
  - destruct (f d (caller w)) as [d0 [s|s]]; cbn [fst snd state_after].
    + destruct (JS.get (left_as d d0) "status") as [st|].
      * destruct (terminal st); eexists; repeat split.
      * eexists; repeat split.
    + eexists; repeat split.
  - cbn [state_after snd].
    destruct (JS.get d "status") as [st|].
    + destruct (terminal st); eexists; repeat split.
    + eexists; repeat split.
Qed.

(** The callback threw: the line is given to [console.warn] and the loop
    goes on, as for a payload that does not parse. *)
Lemma process_line_throws (line : string) (d d' : json) (f : callback S)
    (s : S) (w : effects S) :
  onProgress = Some f -> event_of line = Some d ->
  f d (caller w) = (d', Throws s) ->
  process_line onProgress line w = (None, warn line (called_with d s w)).
Proof.
  unfold event_of, process_line, report. intros -> He Hf.
  destruct (Str.startsWith "data: " line); [|discriminate].
  rewrite He, Hf. reflexivity.
Qed.

(** The callback returned and the event is terminal then: the operation
    returns, with the event as the callback left it. *)
Lemma process_line_settles (line : string) (d : json) (w : effects S) :
  event_of line = Some d -> settles onProgress d ->
  exists d' s' w',
    reply onProgress d (caller w) = (d', Returns s')
    /\ terminal_event d' = true
    /\ process_line onProgress line w
       = (Some (mkOutcome (JS.is_string (status_of d') "completed") d'), w')
    /\ framed w w'.
Proof.
  intros He Hs. destruct (Hs (caller w)) as (d' & s' & R & T).
  destruct (process_line_event line d w He) as (w' & E & F & _).
  rewrite R, T in E. exists d', s', w'. auto.
Qed.

(** A line that passes never makes the operation return. *)
Lemma process_line_passes (line : string) (w : effects S) :
  passes onProgress line ->
  exists w', process_line onProgress line w = (None, w') /\ framed w w'.
Proof.
  intros Hp. destruct (event_of line) as [d|] eqn:He.
  - destruct (process_line_event line d w He) as (w' & E & F & _).
    specialize (Hp d He (caller w)).
    destruct (reply onProgress d (caller w)) as [d' [s|s]].
    + rewrite Hp in E. exists w'. auto.
    + exists w'. auto.
  - rewrite process_line_no_event by assumption.
    eexists. split; [reflexivity|].
    destruct (Str.startsWith "data: " line); repeat split.
Qed.

(** With a callback that leaves the status of the events alone, the lines
    that pass are those without a terminal event. *)
Lemma quiet_passes (line : string) :
  tame onProgress -> quiet line = true -> passes onProgress line.
Proof.
  intros T Q d He s. specialize (T d s). unfold quiet in Q. rewrite He in Q.
  apply negb_true_iff in Q.
  destruct (reply onProgress d s) as [d' [s'|s']]; [|exact I].
  cbn [fst] in T. congruence.
Qed.

Lemma quiet_calm (lines : list string) :
  tame onProgress -> forallb quiet lines = true ->
  Forall (passes onProgress) lines.
Proof.
  intros T H. apply Forall_forall. intros l Hin.
  apply quiet_passes; [exact T|].
  rewrite forallb_forall in H. apply H, Hin.
Qed.


Lemma process_lines_app (l1 l2 : list string) (w : effects S) :
  process_lines onProgress (l1 ++ l2) w
  = match process_lines onProgress l1 w with
    | (Some o, w1) => (Some o, w1)
    | (None, w1) => process_lines onProgress l2 w1
    end.
Proof.
  revert w. induction l1 as [|l l1 IH]; intros w; simpl; [reflexivity|].
  destruct (process_line onProgress l w) as [[o|] w1]; [reflexivity|apply IH].
Qed.

Lemma process_lines_passes (lines : list string) (w : effects S) :
  Forall (passes onProgress) lines ->
  exists w', process_lines onProgress lines w = (None, w') /\ framed w w'.
Proof.
  intros H. revert w. induction H as [|l ls Hl _ IH]; intros w; simpl.
  - exists w. split; [reflexivity|apply framed_refl].
  - destruct (process_line_passes l w Hl) as (w1 & E1 & F1). rewrite E1.
    destruct (IH w1) as (w2 & E2 & F2).
    exists w2. split; [exact E2|]. eapply framed_trans; eassumption.
Qed.


Lemma process_lines_quiet (lines : list string) (w : effects S) :
  tame onProgress -> forallb quiet lines = true ->
  exists w', process_lines onProgress lines w = (None, w') /\ framed w w'.
Proof. intros T H. apply process_lines_passes, quiet_calm; assumption. Qed.


(** *** The calls of the callback *)

Lemma delivered_app (a b : list json) :
  delivered onProgress (a ++ b) = (delivered onProgress a ++ delivered onProgress b)%list.
Proof. unfold delivered. destruct onProgress; reflexivity. Qed.

Lemma events_of_app (a b : list string) :
  events_of (a ++ b) = (events_of a ++ events_of b)%list.
Proof. apply flat_map_app. Qed.

(** One line: the callback is called once with its event, if it has one. *)
Lemma process_line_calls (line : string) (w : effects S) :
  calls (snd (process_line onProgress line w))
  = (calls w ++ delivered onProgress (events_of [line]))%list.
Proof.
  unfold delivered, events_of, event_of, process_line, report.
  cbn [flat_map]. rewrite app_nil_r.
  destruct (Str.startsWith "data: " line).
  2:{ cbn [snd]. destruct onProgress; rewrite app_nil_r; reflexivity. }
  destruct (JSON.parse (Str.slice 6 line)) as [d|].
  2:{ cbn [snd warn calls]. destruct onProgress; rewrite app_nil_r; reflexivity. }
  destruct onProgress as [f|].
  - destruct (f d (caller w)) as [d' [s|s]]; [|reflexivity].
    destruct (JS.get (left_as d d') "status") as [st|]; [|reflexivity].
    destruct (terminal st); reflexivity.
  - rewrite app_nil_r.
    destruct (JS.get d "status") as [st|]; [|reflexivity].
    destruct (terminal st); reflexivity.
Qed.

(** The operation returns only at a line whose event is terminal when the
    callback has returned on it. *)
Lemma process_line_returned (line : string) (o : outcome) (w w1 : effects S) :
  process_line onProgress line w = (Some o, w1) ->
  returned_at onProgress line o.
Proof.
  intros E. destruct (event_of line) as [d|] eqn:He.
  - destruct (process_line_event line d w He) as (w' & E' & _).
    rewrite E in E'.
    destruct (reply onProgress d (caller w)) as [d' [s|s]] eqn:R;
      [|discriminate].
    destruct (terminal_event d') eqn:T; [|discriminate].
    exists d, d', (caller w), s. repeat split; try assumption. congruence.
  - rewrite process_line_no_event in E by exact He. discriminate.
Qed.

(** The lines of one chunk: the events of the lines gone through, in
    order; the rest is left only by returning. *)
Lemma process_lines_calls (lines : list string) (w : effects S) :
  match process_lines onProgress lines w with
  | (None, w1) =>
      calls w1 = (calls w ++ delivered onProgress (events_of lines))%list
  | (Some o, w1) =>
      exists done line rest,
        lines = (done ++ line :: rest)%list
        /\ returned_at onProgress line o
        /\ calls w1
           = (calls w ++ delivered onProgress (events_of (done ++ [line])))%list
  end.
Proof.
  revert w. induction lines as [|l ls IH]; intros w; cbn [process_lines].
  - cbn. unfold delivered. destruct onProgress; rewrite ?app_nil_r; auto.
  - pose proof (process_line_calls l w) as C.
    destruct (process_line onProgress l w) as [[o|] w1] eqn:E; cbn [fst snd] in *.
    + exists [], l, ls. split; [reflexivity|].
      split; [exact (process_line_returned l o w w1 E)|exact C].
    + specialize (IH w1).
      destruct (process_lines onProgress ls w1) as [[o|] w2].
      * destruct IH as (done & line & rest & El & R & C1).
        exists (l :: done), line, rest. split; [rewrite El; reflexivity|].
        split; [exact R|].
        rewrite C1, C. change ((l :: done) ++ [line])%list
          with ([l] ++ (done ++ [line]))%list.
        rewrite (events_of_app [l]), delivered_app, app_assoc. reflexivity.
      * rewrite IH, C. change (l :: ls) with ([l] ++ ls)%list.
        rewrite events_of_app, delivered_app, app_assoc. reflexivity.
Qed.

(** The whole stream: the events of the lines gone through, in order; the
    rest of the stream is left only by returning. *)
Lemma read_loop_calls (cs : list string) (last : stream_end) (w : effects S) :
  match read_loop onProgress cs last w with
  | (Returned o, w1) =>
      exists done line rest,
        lines_of cs = (done ++ line :: rest)%list
        /\ returned_at onProgress line o
        /\ calls w1
           = (calls w ++ delivered onProgress (events_of (done ++ [line])))%list
  | (_, w1) =>
      calls w1
      = (calls w ++ delivered onProgress (events_of (lines_of cs)))%list
  end.
Proof.
  revert w. induction cs as [|c cs IH]; intros w; cbn [read_loop].
  - cbn. unfold delivered.
    destruct last; destruct onProgress; rewrite ?app_nil_r; auto.
  - pose proof (process_lines_calls (Str.split Str.LF c) (read w)) as C.
    change (lines_of (c :: cs))
      with (Str.split Str.LF c ++ lines_of cs)%list.
    destruct (process_lines onProgress (Str.split Str.LF c) (read w))
      as [[o|] w1]; cbn [fst snd] in *.
    + destruct C as (done & line & rest & E & R & C).
      exists done, line, (rest ++ lines_of cs)%list.
      rewrite E, <- app_assoc. split; [reflexivity|]. split; assumption.
    + specialize (IH w1).
      destruct (read_loop onProgress cs last w1) as [[o| |e] w2].
      * destruct IH as (done & line & rest & E & R & C1).
        exists (Str.split Str.LF c ++ done)%list, line, rest.
        rewrite E, <- !app_assoc. split; [reflexivity|]. split; [exact R|].
        rewrite C1, C.
        rewrite (events_of_app (Str.split Str.LF c) (done ++ [line])).
        rewrite delivered_app, app_assoc. reflexivity.
      * rewrite IH, C, events_of_app, delivered_app, app_assoc. reflexivity.
      * rewrite IH, C, events_of_app, delivered_app, app_assoc. reflexivity.
Qed.

(** With a callback that always returns and leaves the status of the events
    alone, the lines gone through are those up to the first terminal event. *)
Lemma until_terminal_app (a b : list string) :
  until_terminal (a ++ b)
  = if forallb quiet a then (a ++ until_terminal b)%list else until_terminal a.
Proof.
  induction a as [|l a IH]; simpl; [reflexivity|].
  destruct (quiet l); simpl; [|reflexivity].
  rewrite IH. destruct (forallb quiet a); reflexivity.
Qed.

Lemma until_terminal_quiet (a : list string) :
  forallb quiet a = true -> until_terminal a = a.
Proof.
  intros H. rewrite <- (app_nil_r a) at 1. rewrite until_terminal_app, H.
  simpl. apply app_nil_r.
Qed.

Lemma events_of_cons (l : string) (ls : list string) :
  events_of (l :: ls)
  = match event_of l with
    | Some d => d :: events_of ls
    | None => events_of ls
    end.
Proof. unfold events_of. cbn [flat_map]. destruct (event_of l); reflexivity. Qed.

Lemma events_until_terminal (lines : list string) :
  events_of (until_terminal lines) = up_to_terminal (events_of lines).
Proof.
  induction lines as [|l ls IH]; [reflexivity|].
  cbn [until_terminal]. unfold quiet. rewrite (events_of_cons l ls).
  destruct (event_of l) as [d|] eqn:He.
  - cbn [up_to_terminal]. destruct (terminal_event d); cbn [negb].
    + rewrite events_of_cons, He. reflexivity.
    + rewrite events_of_cons, He, IH. reflexivity.
  - rewrite events_of_cons, He, IH. reflexivity.
Qed.

Lemma process_line_loud (line : string) (w : effects S) :
  tame onProgress -> (forall d, returns_on onProgress d) ->
  quiet line = false ->
  exists o, fst (process_line onProgress line w) = Some o.
Proof.
  unfold quiet. intros T Hr Hq.
  destruct (event_of line) as [d|] eqn:He; [|discriminate].
  apply negb_false_iff in Hq.
  destruct (process_line_settles line d w He) as (d' & s' & w' & _ & _ & E & _).
  - intros s. destruct (Hr d s) as (d' & s' & R). exists d', s'.
    split; [exact R|]. specialize (T d s). rewrite R in T. cbn [fst] in T.
    congruence.
  - rewrite E. eexists. reflexivity.
Qed.

Lemma process_lines_exact (lines : list string) (w : effects S) :
  tame onProgress -> (forall d, returns_on onProgress d) ->
  calls (snd (process_lines onProgress lines w))
  = (calls w ++ delivered onProgress (events_of (until_terminal lines)))%list
  /\ (fst (process_lines onProgress lines w) = None <-> forallb quiet lines = true).
Proof.
  intros T Hr. revert w.
  induction lines as [|l ls IH]; intros w; cbn [process_lines until_terminal forallb].
  - cbn. unfold delivered. destruct onProgress; rewrite app_nil_r; tauto.
  - pose proof (process_line_calls l w) as C.
    destruct (quiet l) eqn:Hq.
    + destruct (process_line_passes l w (quiet_passes l T Hq)) as (w1 & E & _).
      rewrite E in *. cbn [fst snd andb] in *.
      destruct (IH w1) as [C1 N]. split; [|exact N].
      rewrite C1, C. change (l :: until_terminal ls)
        with ([l] ++ until_terminal ls)%list.
      rewrite events_of_app, delivered_app, app_assoc. reflexivity.
    + destruct (process_line_loud l w T Hr Hq) as [o E].
      destruct (process_line onProgress l w) as [[o'|] w1]; [|discriminate].
      cbn [fst snd andb] in *. split; [exact C|].
      split; discriminate.
Qed.

Lemma read_loop_exact (cs : list string) (last : stream_end) (w : effects S) :
  tame onProgress -> (forall d, returns_on onProgress d) ->
  calls (snd (read_loop onProgress cs last w))
  = (calls w ++ delivered onProgress (events_of (until_terminal (lines_of cs))))%list.
Proof.
  intros T Hr. revert w. induction cs as [|c cs IH]; intros w; cbn [read_loop].
  - cbn. unfold delivered.
    destruct last; destruct onProgress; rewrite app_nil_r; reflexivity.
  - change (lines_of (c :: cs)) with (Str.split Str.LF c ++ lines_of cs)%list.
    rewrite until_terminal_app.
    destruct (process_lines_exact (Str.split Str.LF c) (read w) T Hr) as [C N].
    destruct (process_lines onProgress (Str.split Str.LF c) (read w))
      as [[o|] w1]; cbn [fst snd] in *.
    + destruct (forallb quiet (Str.split Str.LF c)); [|exact C].
      destruct N as [_ N]. discriminate (N eq_refl).
    + destruct N as [N _]. rewrite (N eq_refl).
      rewrite (until_terminal_quiet _ (N eq_refl)) in C.
      rewrite IH, C, events_of_app, delivered_app, app_assoc. reflexivity.
Qed.

(** *** What was logged stays logged *)










(** *** Runs that differ only in what they warn about *)

Lemma process_line_same (line : string) (w w' : effects S) :
  same_but_warnings w w' ->
  fst (process_line onProgress line w) = fst (process_line onProgress line w')
  /\ same_but_warnings (snd (process_line onProgress line w))
                       (snd (process_line onProgress line w')).
Proof.
  intros H. unfold process_line, report.
  destruct (Str.startsWith "data: " line); [|split; [reflexivity|exact H]].
  destruct (JSON.parse (Str.slice 6 line)) as [d|].
  2:{ split; [reflexivity|]. apply (same_warn2 line line), H. }
  assert (Hc : caller w = caller w') by apply H.
  destruct onProgress as [f|].
  - rewrite <- Hc. destruct (f d (caller w)) as [d' [s|s]].
    + pose proof (same_called d s w w' H) as H'.
      destruct (JS.get (left_as d d') "status") as [st|].
      * destruct (terminal st); split; (reflexivity || exact H').
      * split; [reflexivity|]. apply (same_warn2 line line), H'.
    + split; [reflexivity|]. apply (same_warn2 line line), same_called, H.
  - destruct (JS.get d "status") as [st|].
    + destruct (terminal st); split; (reflexivity || exact H).
    + split; [reflexivity|]. apply (same_warn2 line line), H.
Qed.

Lemma alike_refl (ls : list string) : alike onProgress ls ls.
Proof.
  induction ls as [|l ls IH]; intros w w' H; simpl; [split; [reflexivity|exact H]|].
  destruct (process_line_same l w w' H) as [E Hs].
  destruct (process_line onProgress l w) as [[o|] w1],
           (process_line onProgress l w') as [[o'|] w1'];
    simpl in *; try discriminate.
  - split; assumption.
  - apply IH. exact Hs.
Qed.

Lemma alike_app (a a' b b' : list string) :
  alike onProgress a a' -> alike onProgress b b' -> alike onProgress (a ++ b) (a' ++ b').
Proof.
  intros Ha Hb w w' H. rewrite !process_lines_app.
  destruct (Ha w w' H) as [E Hs].
  destruct (process_lines onProgress a w) as [[o|] w1],
           (process_lines onProgress a' w') as [[o'|] w1'];
    simpl in *; try discriminate.
  - split; assumption.
  - apply Hb. exact Hs.
Qed.

(** A line without an event is as good as no line. *)
Lemma alike_skip (line : string) :
  event_of line = None -> alike onProgress [line] [].
Proof.
  intros He w w' H. cbn [process_lines].
  rewrite process_line_no_event by exact He. cbn [fst snd].
  split; [reflexivity|].
  destruct (Str.startsWith "data: " line); [apply (same_warn line)|]; exact H.
Qed.

Lemma alike_sym (a b : list string) : alike onProgress a b -> alike onProgress b a.
Proof.
  intros Hab w w' H. destruct (Hab w' w (same_sym _ _ H)) as [E Hs].
  split; [symmetry; exact E|apply same_sym, Hs].
Qed.

Lemma alike_trans (a b c : list string) : alike onProgress a b -> alike onProgress b c -> alike onProgress a c.
Proof.
  intros Hab Hbc w w' H.
  destruct (Hab w w (same_refl w)) as [E1 H1].
  destruct (Hbc w w' H) as [E2 H2].
  split; [congruence|eapply same_trans; eassumption].
Qed.

(** The empty chunk has one empty line, which is as good as none. *)
Lemma alike_join (ls : list string) :
  alike onProgress (Str.split Str.LF (Str.join Str.LF ls)) (flat_map (Str.split Str.LF) ls).
Proof.
  destruct ls as [|l ls].
  - apply (alike_skip ""). reflexivity.
  - rewrite split_join by discriminate. apply alike_refl.
Qed.

(** The read loop over two streams whose chunks are alike onProgress one by one. *)
Lemma read_loop_alike (cs cs' : list string) (last : stream_end)
    (w w' : effects S) :
  Forall2 (fun c c' => alike onProgress (Str.split Str.LF c) (Str.split Str.LF c')) cs cs' ->
  same_but_warnings w w' ->
  fst (read_loop onProgress cs last w) = fst (read_loop onProgress cs' last w')
  /\ same_but_warnings (snd (read_loop onProgress cs last w))
                       (snd (read_loop onProgress cs' last w')).
Proof.
  intros HF. revert w w'.
  induction HF as [|c c' cs cs' Hc _ IH]; intros w w' H; simpl.
  - destruct last; (split; [reflexivity|apply same_read, H]).
  - destruct (Hc (read w) (read w') (same_read _ _ H)) as [E Hs].
    destruct (process_lines onProgress (Str.split Str.LF c) (read w))
      as [[o|] w1],
      (process_lines onProgress (Str.split Str.LF c') (read w'))
      as [[o'|] w1']; simpl in *; try discriminate.
    + split; [congruence|exact Hs].
    + apply IH. exact Hs.
Qed.

End Loop.

(** ** The operation as a whole *)

(** C8: every invocation gives exactly one request to [fetch], whatever the
    response and however the stream goes: the requests issued are those of
    before and the one rebuild request, never a second one. *)
Theorem exactly_one_request {S : Type} (onProgress : option (callback S))
    (env : environment) (f : option filters) (w : effects S) :
  requests (snd (rebuildVectorStoreWithProgress onProgress env f w))
  = (requests w ++ [stream_request env f])%list.
Proof.
  unfold rebuildVectorStoreWithProgress.
  destruct (fetch env (stream_request env f)) as [resp|e]; [|reflexivity].
  destruct (ok resp); simpl; [|reflexivity].
  destruct (body resp) as [b|]; [|reflexivity].
  pose proof (read_loop_requests onProgress (chunks b) (ending b)
                (send (stream_request env f) w)) as H.
  destruct (read_loop onProgress (chunks b) (ending b)
              (send (stream_request env f) w)) as [exit w1].
  destruct exit; exact H.
Qed.

(** C3: when the response is not in the 2xx range, or has no body, the
    operation rejects with an error, and all it has done is to send the
    request: the callback was not invoked and nothing was read. *)
Theorem transport_failure_rejects {S : Type} (onProgress : option (callback S))
    (env : environment) (f : option filters) (w : effects S) (resp : response) :
  fetch env (stream_request env f) = Responded resp ->
  ok resp = false \/ body resp = None ->
  let run := rebuildVectorStoreWithProgress onProgress env f w in
  fst run = JS.Rejected
              (JS.Error (if ok resp then "No response body"
                         else "Rebuild failed: " ++ statusText resp))
  /\ snd run = send (stream_request env f) w
  /\ calls (snd run) = calls w
  /\ caller (snd run) = caller w.
Proof.
  intros Hf H. unfold rebuildVectorStoreWithProgress. rewrite Hf.
  destruct (ok resp) eqn:Hok; simpl.
  - destruct H as [H|H]; [discriminate|]. rewrite H. repeat split.
  - repeat split.
Qed.



(** *** Streams that differ in lines without events *)

Lemma run_alike {S : Type} (onProgress : option (callback S))
    (base : string) (token : option string) (code : Z) (text : string)
    (f : option filters) (w : effects S) (last : stream_end)
    (cs cs' : list string) :
  Forall2 (fun c c' => alike onProgress (Str.split Str.LF c) (Str.split Str.LF c'))
          cs cs' ->
  fst (run_on onProgress base token code text f w last cs)
  = fst (run_on onProgress base token code text f w last cs')
  /\ same_but_warnings (snd (run_on onProgress base token code text f w last cs))
                       (snd (run_on onProgress base token code text f w last cs')).
Proof.
  intros HF. unfold run_on, rebuildVectorStoreWithProgress, answering, ok.
  cbn [fetch status body statusText baseURL access_token chunks ending].
  destruct (negb _); [split; [reflexivity|apply same_refl]|].
  set (w0 := send _ w).
  destruct (read_loop_alike onProgress cs cs' last w0 w0 HF (same_refl w0))
    as [E Hs].
  destruct (read_loop onProgress cs last w0) as [x w1],
           (read_loop onProgress cs' last w0) as [x' w1'].
  cbn [fst snd] in *. subst x'.
  assert (Hr : same_but_warnings (releaseLock w1) (releaseLock w1')).
  { unfold same_but_warnings in *. simpl. intuition. }
  destruct x; (split; [reflexivity|exact Hr]).
Qed.

Lemma alike_chunks_refl {S : Type} (onProgress : option (callback S))
    (cs : list string) :
  Forall2 (fun c c' => alike onProgress (Str.split Str.LF c) (Str.split Str.LF c'))
          cs cs.
Proof. induction cs; constructor; [apply alike_refl|assumption]. Qed.

(** C2: a stream in which one malformed [data: ] line stands among the
    lines of a chunk gives the same outcome as the stream without that line,
    and the same calls of the callback: the line is skipped (it only leaves a
    console warning) and the loop goes on. *)
Theorem malformed_line_skipped {S : Type} (onProgress : option (callback S))
    (base : string) (token : option string) (code : Z) (text : string)
    (f : option filters) (w : effects S) (last : stream_end)
    (pre post : list string) (ls1 ls2 : list string) (bad : string) :
  malformed bad ->
  let run := run_on onProgress base token code text f w last in
  let stream_with := (pre ++ Str.join Str.LF (ls1 ++ bad :: ls2) :: post)%list in
  let stream_without := (pre ++ Str.join Str.LF (ls1 ++ ls2) :: post)%list in
  fst (run stream_with) = fst (run stream_without)
  /\ same_but_warnings (snd (run stream_with)) (snd (run stream_without)).
Proof.
  intros Hbad. cbv zeta. apply run_alike.
  apply Forall2_app; [apply alike_chunks_refl|].
  constructor; [|apply alike_chunks_refl].
  eapply alike_trans; [|apply alike_sym, alike_join].
  rewrite split_join by (destruct ls1; discriminate).
  rewrite !flat_map_app. apply alike_app; [apply alike_refl|].
  change (flat_map (Str.split Str.LF) (bad :: ls2))
    with (Str.split Str.LF bad ++ flat_map (Str.split Str.LF) ls2)%list.
  rewrite (split_free Str.LF bad) by apply Hbad.
  apply (alike_app onProgress [bad] [] _ _); [|apply alike_refl].
  apply alike_skip. unfold event_of.
  destruct Hbad as (_ & -> & ->). reflexivity.
Qed.


(** *** What the callback sees *)

Lemma Sorted_app_l {A : Type} (R : A -> A -> Prop) (a b : list A) :
  Sorted R (a ++ b) -> Sorted R a.
Proof.
  induction a as [|x a IH]; simpl; intros H; [constructor|].
  inversion H as [|? ? Hs Hh]; subst. constructor; [apply IH, Hs|].
  destruct a; simpl in *; [constructor|].
  inversion Hh; subst. constructor. assumption.
Qed.

(** C6: on a well-formed stream the callback is called with the events of
    the lines the client goes through, in stream order, each once, none left
    out: what it sees is an initial part of the events, so the progress
    values it sees never go down.  The client leaves the rest of the lines
    only by returning, at a line whose event is terminal when the callback
    has returned on it.  With a callback that always returns and leaves the
    status of the events alone, what it sees is exactly the events up to the
    first terminal one. *)
Theorem callback_sees_events_in_order {S : Type} (onProgress : option (callback S))
    (env : environment) (f : option filters) (w : effects S) (resp : response)
    (cs : list string) (last : stream_end) :
  fetch env (stream_request env f) = Responded resp ->
  ok resp = true ->
  body resp = Some (mkStream cs last) ->
  well_formed cs ->
  let run := rebuildVectorStoreWithProgress onProgress env f w in
  let events := events_of (lines_of cs) in
  exists done rest,
    lines_of cs = (done ++ rest)%list
    /\ calls (snd run) = (calls w ++ delivered onProgress (events_of done))%list
    /\ delivered onProgress events
       = (delivered onProgress (events_of done)
          ++ delivered onProgress (events_of rest))%list
    /\ Sorted progress_le (delivered onProgress (events_of done))
    /\ (rest = []
        \/ exists done0 line o,
             done = (done0 ++ [line])%list
             /\ returned_at onProgress line o
             /\ fst run = JS.Resolved o)
    /\ (tame onProgress -> (forall d, returns_on onProgress d) ->
        delivered onProgress (events_of done)
        = delivered onProgress (up_to_terminal events)).
Proof.
  intros Hf Hok Hb (_ & _ & Hsorted). cbv zeta.
  unfold rebuildVectorStoreWithProgress. rewrite Hf, Hok, Hb.
  cbn [negb chunks ending].
  set (w0 := send (stream_request env f) w).
  pose proof (read_loop_calls onProgress cs last w0) as C.
  pose proof (read_loop_exact onProgress cs last w0) as X.
  assert (G : forall done rest (w1 : effects S),
             lines_of cs = (done ++ rest)%list ->
             calls w1 = (calls w0 ++ delivered onProgress (events_of done))%list ->
             (tame onProgress -> (forall d, returns_on onProgress d) ->
              calls w1
              = (calls w0 ++ delivered onProgress
                               (events_of (until_terminal (lines_of cs))))%list) ->
             delivered onProgress (events_of (lines_of cs))
             = (delivered onProgress (events_of done)
                ++ delivered onProgress (events_of rest))%list
             /\ Sorted progress_le (delivered onProgress (events_of done))
             /\ (tame onProgress -> (forall d, returns_on onProgress d) ->
                 delivered onProgress (events_of done)
                 = delivered onProgress (up_to_terminal (events_of (lines_of cs))))).
  { intros done rest w1 E Hc Hx. split; [|split].
    - rewrite E, events_of_app. apply delivered_app.
    - rewrite E, events_of_app in Hsorted.
      unfold delivered. destruct onProgress; [|constructor].
      eapply Sorted_app_l. exact Hsorted.
    - intros T Hr. specialize (Hx T Hr).
      rewrite Hc in Hx. apply app_inv_head in Hx.
      rewrite Hx, events_until_terminal. reflexivity. }
  destruct (read_loop onProgress cs last w0) as [[o| |e] w1]; cbn [snd fst] in *.
  - destruct C as (done & line & rest & E & R & C).
    exists (done ++ [line])%list, rest.
    assert (E' : lines_of cs = ((done ++ [line]) ++ rest)%list)
      by (rewrite <- app_assoc; exact E).
    split; [exact E'|]. split; [exact C|].
    destruct (G (done ++ [line])%list rest w1 E' C X) as (G1 & G2 & G3).
    split; [exact G1|]. split; [exact G2|]. split; [|exact G3].
    right. exists done, line, o. auto.
  - exists (lines_of cs), []. rewrite app_nil_r.
    split; [reflexivity|]. split; [exact C|].
    destruct (G (lines_of cs) [] w1 (eq_sym (app_nil_r _)) C X) as (G1 & G2 & G3).
    split; [exact G1|]. split; [exact G2|]. split; [left; reflexivity|exact G3].
  - exists (lines_of cs), []. rewrite app_nil_r.
    split; [reflexivity|]. split; [exact C|].
    destruct (G (lines_of cs) [] w1 (eq_sym (app_nil_r _)) C X) as (G1 & G2 & G3).
    split; [exact G1|]. split; [exact G2|]. split; [left; reflexivity|exact G3].
Qed.

(** *** A line cut in two by a chunk boundary *)

Lemma startsWith_length (p s : string) :
  Str.startsWith p s = true -> String.length p <= String.length s.
Proof.
  revert s. induction p as [|a p IH]; intros s H; simpl in *; [lia|].
  destruct s as [|b s]; [discriminate|].
  apply andb_true_iff in H as [_ H]. apply IH in H. simpl. lia.
Qed.

(** A fragment shorter than the marker carries no event. *)
Lemma event_of_short (l : string) : String.length l < 6 -> event_of l = None.
Proof.
  intros H. unfold event_of.
  destruct (Str.startsWith "data: " l) eqn:E; [|reflexivity].
  apply startsWith_length in E. simpl in E. lia.
Qed.

Lemma free_of_app (sep : ascii) (a b : string) :
  Str.free_of sep (a ++ b) = Str.free_of sep a && Str.free_of sep b.
Proof.
  induction a as [|c a IH]; simpl; [reflexivity|].
  rewrite IH, andb_assoc. reflexivity.
Qed.

Lemma append_split (a b c d : string) :
  a ++ b = c ++ d -> String.length a <= String.length c ->
  exists e, c = a ++ e /\ b = e ++ d.
Proof.
  revert c. induction a as [|x a IH]; intros c H L; simpl in *.
  - exists c. split; [reflexivity|exact H].
  - destruct c as [|y c]; simpl in *; [lia|].
    injection H as -> H. destruct (IH c H ltac:(lia)) as (e & -> & ->).
    exists e. split; reflexivity.
Qed.

(** An event line is the marker and a payload that parses. *)
Lemma event_of_inv (line : string) (d : json) :
  event_of line = Some d ->
  exists payload, line = "data: " ++ payload /\ JSON.parse payload = Some d.
Proof.
  unfold event_of. destruct (Str.startsWith "data: " line) eqn:E; [|discriminate].
  intros H. exists (Str.slice 6 line). split; [|exact H].
  exact (JSONFacts.startsWith_split "data: " line E).
Qed.

Lemma skip_ws_behind (a b : string) :
  JSON.skip_ws (a ++ b) = EmptyString -> JSON.skip_ws b = EmptyString.
Proof.
  induction a as [|c a IH]; simpl; [trivial|].
  destruct (JSON.is_ws c); [exact IH|discriminate].
Qed.

(** A text that begins with a value other than a number: nothing that stops
    inside the value parses. *)
Lemma parse_stops_inside (a z r : string) (v : json) :
  JSON.parse_value (JSON.fuel_for (a ++ z ++ r)) (a ++ z ++ r) = JSON.Ok v r ->
  is_number v = false ->
  z <> EmptyString ->
  JSON.parse a = None.
Proof.
  intros H Hv Hz. unfold JSON.parse.
  destruct (JSON.parse_value (JSON.fuel_for a) a) as [v' r'| |] eqn:V;
    try reflexivity.
  exfalso.
  assert (Ha : JSON.skip_ws a <> EmptyString).
  { intros E. unfold JSON.fuel_for in V. rewrite Nat.add_comm in V.
    cbn [Nat.add JSON.parse_value] in V. rewrite E in V. discriminate. }
  assert (Hv' : is_number v' = false).
  { rewrite (JSONFacts.parse_value_kind _ _ _ _ V),
      <- (JSONFacts.opens_number_ext a (z ++ r) Ha).
    rewrite <- (JSONFacts.parse_value_kind _ _ _ _ H). exact Hv. }
  destruct (JSONFacts.parse_ext (z ++ r) (JSON.fuel_for a)) as (X & _ & _).
  specialize (X _ _ _ V (or_intror Hv')).
  apply (JSONFacts.parse_value_mono _ (JSON.fuel_for (a ++ z ++ r))) in X.
  - rewrite H in X. inversion X as [[Hvv Hr]].
    apply (f_equal String.length) in Hr.
    rewrite !JSONFacts.length_append in Hr.
    destruct z; [contradiction|]. simpl in Hr. lia.
  - unfold JSON.fuel_for. rewrite JSONFacts.length_append. lia.
Qed.

(** The first part of a cut event line carries no event, unless the payload
    is a number or the cut leaves only white space behind it. *)
Lemma first_part_no_event (line l1 l2 : string) (d : json) :
  event_of line = Some d -> is_number d = false ->
  line = l1 ++ l2 -> JSON.skip_ws l2 <> EmptyString ->
  event_of l1 = None.
Proof.
  intros He Hn Hl H2. destruct (event_of_inv _ _ He) as (P & -> & HP).
  destruct (Nat.lt_ge_cases (String.length l1) 6) as [L|L];
    [apply event_of_short, L|].
  destruct (append_split "data: " P l1 l2 Hl L) as (e & -> & ->).
  unfold event_of. cbn [append Str.startsWith Str.slice Ascii.eqb Bool.eqb andb].
  destruct (JSONFacts.parse_inv _ _ HP) as (c & r & E & V & W & _).
  destruct (Nat.le_gt_cases (String.length c) (String.length e)) as [Lc|Lc].
  - destruct (append_split c r e l2 (eq_sym E) Lc) as (x & _ & Ex).
    rewrite Ex in W. apply skip_ws_behind in W. contradiction.
  - destruct (append_split e l2 c r E ltac:(lia)) as (z & -> & ->).
    apply (parse_stops_inside e z r d V Hn).
    intros ->. rewrite JSONFacts.append_nil_r in Lc. lia.
Qed.

(** The second part of a cut event line carries no event. *)
Lemma second_part_no_event (line l1 l2 : string) (d : json) :
  event_of line = Some d -> line = l1 ++ l2 -> l1 <> EmptyString ->
  event_of l2 = None.
Proof.
  intros He Hl H1. destruct (event_of_inv _ _ He) as (P & -> & HP).
  destruct (event_of l2) as [d2|] eqn:E2; [|reflexivity]. exfalso.
  destruct (event_of_inv _ _ E2) as (P2 & -> & HP2).
  destruct (Nat.lt_ge_cases (String.length l1) 6) as [L|L].
  - destruct l1 as [|c1 [|c2 [|c3 [|c4 [|c5 [|c6 l1]]]]]];
      simpl in Hl, L; try contradiction; try discriminate; lia.
  - destruct (append_split "data: " P l1 _ Hl L) as (e & _ & ->).
    rewrite (JSONFacts.parse_after_marker e P2 d HP) in HP2. discriminate.
Qed.

(** C10, as the code has it: lines are split chunk by chunk, so an event
    line that arrives cut in two is handled as two lines.  When its payload
    is not a number and the cut leaves more than white space behind it,
    neither part parses, and the event is lost: the outcome and the calls of
    the callback are those of the stream without that line. *)
Theorem split_line_dropped {S : Type} (onProgress : option (callback S))
    (base : string) (token : option string) (code : Z) (text : string)
    (f : option filters) (w : effects S) (last : stream_end)
    (pre post : list string) (ls1 ls2 : list string)
    (line l1 l2 : string) (d : json) :
  event_of line = Some d ->
  Str.free_of Str.LF line = true ->
  is_number d = false ->
  line = l1 ++ l2 -> l1 <> EmptyString -> JSON.skip_ws l2 <> EmptyString ->
  let run := run_on onProgress base token code text f w last in
  let stream_cut :=
    (pre ++ Str.join Str.LF (ls1 ++ [l1]) :: Str.join Str.LF (l2 :: ls2) :: post)%list in
  let stream_without :=
    (pre ++ Str.join Str.LF ls1 :: Str.join Str.LF ls2 :: post)%list in
  event_of l1 = None /\ event_of l2 = None
  /\ fst (run stream_cut) = fst (run stream_without)
  /\ same_but_warnings (snd (run stream_cut)) (snd (run stream_without)).
Proof.
  intros He Hfree Hn Hl H1 H2. cbv zeta.
  pose proof (first_part_no_event line l1 l2 d He Hn Hl H2) as E1.
  pose proof (second_part_no_event line l1 l2 d He Hl H1) as E2.
  rewrite Hl, free_of_app in Hfree. apply andb_true_iff in Hfree as [F1 F2].
  split; [exact E1|]. split; [exact E2|]. apply run_alike.
  apply Forall2_app; [apply alike_chunks_refl|].
  constructor; [|constructor; [|apply alike_chunks_refl]].
  - eapply alike_trans; [|apply alike_sym, alike_join].
    rewrite split_join by (destruct ls1; discriminate).
    rewrite flat_map_app. cbn [flat_map]. rewrite app_nil_r, (split_free _ _ F1).
    rewrite <- (app_nil_r (flat_map _ ls1)) at 2.
    apply alike_app; [apply alike_refl|apply alike_skip, E1].
  - eapply alike_trans; [|apply alike_sym, alike_join].
    rewrite split_join by discriminate.
    cbn [flat_map]. rewrite (split_free _ _ F2).
    apply (alike_app onProgress [l2] [] _ _); [apply alike_skip, E2|apply alike_refl].
Qed.

Import Scenario.

Lemma left_as_same (d : json) : left_as d d = d.
Proof. destruct d; reflexivity. Qed.

(** A callback that gives the event back as it got it is an observer. *)
Lemma looks_only {S : Type} (g : callback S) :
  (forall d s, fst (g d s) = d) -> observer (Some g).
Proof. intros H d s. unfold reply. cbn [fst]. rewrite H. apply left_as_same. Qed.



Lemma counting_returns : forall d, returns_on (Some counting) d.
Proof.
  intros d s. exists d, (S s). unfold reply. cbn. rewrite left_as_same.
  reflexivity.
Qed.



Lemma malformed_line_skipped_witness :
  let run := run_on (Some counting) "http://localhost:8000" (Some "secret")
               200 "OK" None (start 0) Done in
  fst (run [processing "10" "1" "8" ++ Wire.NL;
            Str.join Str.LF [processing "62.5" "5" "8"; corrupt; completed]])
  = fst (run [processing "10" "1" "8" ++ Wire.NL;
              Str.join Str.LF [processing "62.5" "5" "8"; completed]])
  /\ same_but_warnings
       (snd (run [processing "10" "1" "8" ++ Wire.NL;
                  Str.join Str.LF [processing "62.5" "5" "8"; corrupt; completed]]))
       (snd (run [processing "10" "1" "8" ++ Wire.NL;
                  Str.join Str.LF [processing "62.5" "5" "8"; completed]])).
Proof.
  refine (malformed_line_skipped (Some counting) "http://localhost:8000"
            (Some "secret") 200 "OK" None (start 0) Done
            [processing "10" "1" "8" ++ Wire.NL] []
            [processing "62.5" "5" "8"] [completed] corrupt _).
  repeat split.
Defined.

Lemma transport_failure_rejects_witness :
  let env := answering "http://localhost:8000" (Some "secret")
               (mkResponse 500 "Internal Server Error" None) in
  let run := rebuildVectorStoreWithProgress (Some counting) env None (start 0) in
  fst run = JS.Rejected (JS.Error "Rebuild failed: Internal Server Error")
  /\ snd run = send (stream_request env None) (start 0)
  /\ calls (snd run) = []
  /\ caller (snd run) = 0.
Proof.
  exact (transport_failure_rejects (Some counting)
           (answering "http://localhost:8000" (Some "secret")
              (mkResponse 500 "Internal Server Error" None))
           None (start 0) (mkResponse 500 "Internal Server Error" None)
           eq_refl (or_introl eq_refl)).
Defined.



Lemma healthy_well_formed : well_formed healthy.
Proof.
  split; [|split].
  - repeat constructor; discriminate.
  - repeat constructor.
  - repeat constructor.
Defined.

Lemma callback_sees_events_in_order_witness :
  let run := rebuildVectorStoreWithProgress (Some counting)
               (serving healthy Done) None (start 0) in
  let events := events_of (lines_of healthy) in
  exists done rest,
    lines_of healthy = (done ++ rest)%list
    /\ calls (snd run) = ([] ++ delivered (Some counting) (events_of done))%list
    /\ delivered (Some counting) events
       = (delivered (Some counting) (events_of done)
          ++ delivered (Some counting) (events_of rest))%list
    /\ Sorted progress_le (delivered (Some counting) (events_of done))
    /\ (rest = []
        \/ exists done0 line o,
             done = (done0 ++ [line])%list
             /\ returned_at (Some counting) line o
             /\ fst run = JS.Resolved o)
    /\ (tame (Some counting) -> (forall d, returns_on (Some counting) d) ->
        delivered (Some counting) (events_of done)
        = delivered (Some counting) (up_to_terminal events)).
Proof.
  exact (callback_sees_events_in_order (Some counting) (serving healthy Done)
           None (start 0) (streaming healthy Done) healthy Done
           eq_refl eq_refl eq_refl healthy_well_formed).
Defined.




(** The failed event, sent with a carriage return before the line feed, cut
    in the middle of its payload. *)
Lemma split_line_dropped_witness :
  let run := run_on (Some counting) "http://localhost:8000" (Some "secret")
               200 "OK" None (start 0) Done in
  let l1 := String.substring 0 20 (failed ++ CR) in
  let l2 := Str.slice 20 (failed ++ CR) in
  event_of l1 = None /\ event_of l2 = None
  /\ fst (run [Str.join Str.LF [processing "10" "1" "8"; l1];
               Str.join Str.LF [l2; EmptyString]])
     = fst (run [Str.join Str.LF [processing "10" "1" "8"];
                 Str.join Str.LF [EmptyString]])
  /\ same_but_warnings
       (snd (run [Str.join Str.LF [processing "10" "1" "8"; l1];
                  Str.join Str.LF [l2; EmptyString]]))
       (snd (run [Str.join Str.LF [processing "10" "1" "8"];
                  Str.join Str.LF [EmptyString]])).
Proof.
  refine (split_line_dropped (Some counting) "http://localhost:8000"
            (Some "secret") 200 "OK" None (start 0) Done [] []
            [processing "10" "1" "8"] [EmptyString]
            (failed ++ CR) (String.substring 0 20 (failed ++ CR))
            (Str.slice 20 (failed ++ CR))
            failed_event eq_refl eq_refl eq_refl eq_refl _ _);
    discriminate.
Defined.

(** C10 as stated fails: the line [data: {"status":"failed","message":"X"}]
    followed by a carriage return is an event line; cut before the carriage
    return, its first part is itself a line that parses, so the event is
    delivered to the callback and ends the run with [success = false]. *)
Lemma split_line_delivered :
  let line := failed ++ CR in
  let cut := [failed; CR ++ Wire.NL] in
  let run := rebuildVectorStoreWithProgress (Some counting)
               (serving cut Done) None (start 0) in
  event_of line = Some failed_event
  /\ Str.free_of Str.LF line = true
  /\ failed <> EmptyString /\ CR <> EmptyString
  /\ event_of failed = Some failed_event
  /\ calls (snd run) = [failed_event]
  /\ fst run = JS.Resolved (mkOutcome false failed_event).
Proof. cbv zeta. repeat split; discriminate. Qed.

(** ** The failure notification *)

(** The handler takes the text of the notification from [data.error]; an
    event without that property gives the fixed text, whatever its message. *)
Lemma failure_message_without_error (d : json) :
  JS.get d "error" = Some None ->
  SettingsPage.failure_message d = JS.Text "Rebuild failed".
Proof. unfold SettingsPage.failure_message. intros ->. reflexivity. Qed.

(** C5, at the stream [data: {"status":"failed","message":"X"}]: the client
    resolves to [success = false] with the event, message [X] included, as
    its data; the settings page then raises one notification, and its text is
    the fixed [Rebuild failed], not [X]. *)
Theorem failed_event_notification :
  let env := serving [failed ++ Wire.NL ++ Wire.NL] Done in
  let client := rebuildVectorStoreWithProgress (Some SettingsPage.on_progress)
                  env None (start SettingsPage.initial) in
  let page := caller (SettingsPage.rebuildVectorStore env (JS.Resolved JNull)
                        SettingsPage.initial) in
  fst client = JS.Resolved (mkOutcome false failed_event)
  /\ JS.get failed_event "message" = Some (Some (JStr "X"))
  /\ SettingsPage.toasts page
     = [SettingsPage.mkToast "Error" (JS.Text "Rebuild failed") (Some "destructive")]
  /\ SettingsPage.isLoading page = false.
Proof. cbv zeta. repeat split. Qed.

(** ** The query string *)

(** The repository's own test of [rebuildVectorStore] with all three
    filters expects this URL. *)
Example rebuild_with_all_filters :
  rebuildVectorStore (fun url => url)
    (Some (mkFilters (Some "user123") (Some "pdf") (Some 50%Z)))
  = "/rag/admin/vector/rebuild?user_filter=user123&document_filter=pdf&batch_size=50".
Proof. reflexivity. Qed.

(** C7: for the filters [{user_filter: 'u1', batch_size: 50}] both
    operations build the query string [user_filter=u1&batch_size=50], in
    which no [document_filter] key occurs; without filters, or with an empty
    filter object, the URL has no query string. *)
Theorem rebuild_query_string :
  let f := Some (mkFilters (Some "u1") None (Some 50%Z)) in
  let none := Some (mkFilters None None None) in
  URLSearchParams.toString (rebuild_params f) = "user_filter=u1&batch_size=50"
  /\ map fst (rebuild_params f) = ["user_filter"; "batch_size"]
  /\ (forall (R : Type) (post : string -> R),
        rebuildVectorStore post f
        = post "/rag/admin/vector/rebuild?user_filter=u1&batch_size=50")
  /\ (forall env, req_url (stream_request env f)
                  = baseURL env
                    ++ "/rag/admin/vector/rebuild/stream?user_filter=u1&batch_size=50")
  /\ (forall (R : Type) (post : string -> R),
        rebuildVectorStore post None = post "/rag/admin/vector/rebuild"
        /\ rebuildVectorStore post none = post "/rag/admin/vector/rebuild")
  /\ (forall env, req_url (stream_request env None)
                  = baseURL env ++ "/rag/admin/vector/rebuild/stream"
                  /\ req_url (stream_request env none)
                     = baseURL env ++ "/rag/admin/vector/rebuild/stream").
Proof. cbv zeta. repeat split. Qed.

(** * Further properties of the code *)

(** ** The streaming rebuild: errors, the callback, the chunking *)


Section Observation.

Context {S : Type}.
Variable onProgress : option (callback S).
Hypothesis looks : observer onProgress.
Hypothesis returns : forall d, returns_on onProgress d.

(** With a callback that returns and leaves the event as it is, what a line
    does to the operation is decided by the line. *)
Lemma process_line_outcome (line : string) (w : effects S) :
  fst (process_line onProgress line w)
  = match event_of line with
    | Some d => if terminal_event d
                then Some (mkOutcome (JS.is_string (status_of d) "completed") d)
                else None
    | None => None
    end.
Proof.
  destruct (event_of line) as [d|] eqn:He.
  - destruct (process_line_event onProgress line d w He) as (w' & E & _).
    rewrite E. cbn [fst].
    destruct (returns d (caller w)) as (d' & s' & R).
    pose proof (looks d (caller w)) as L. rewrite R in L. cbn [fst] in L.
    subst d'. rewrite R. reflexivity.
  - rewrite process_line_no_event by exact He. reflexivity.
Qed.

End Observation.

Lemma process_lines_outcome {S S' : Type}
    (cb : option (callback S)) (cb' : option (callback S'))
    (lines : list string) (w : effects S) (w' : effects S') :
  observer cb -> (forall d, returns_on cb d) ->
  observer cb' -> (forall d, returns_on cb' d) ->
  fst (process_lines cb lines w) = fst (process_lines cb' lines w').
Proof.
  intros L R L' R'. revert w w'.
  induction lines as [|l ls IH]; intros w w'; simpl; [reflexivity|].
  pose proof (process_line_outcome cb L R l w) as E.
  pose proof (process_line_outcome cb' L' R' l w') as E'.
  destruct (process_line cb l w) as [[o|] w1],
           (process_line cb' l w') as [[o'|] w1']; simpl in *;
    try congruence.
  apply IH.
Qed.

Lemma read_loop_outcome {S S' : Type}
    (cb : option (callback S)) (cb' : option (callback S'))
    (cs : list string) (last : stream_end) (w : effects S) (w' : effects S') :
  observer cb -> (forall d, returns_on cb d) ->
  observer cb' -> (forall d, returns_on cb' d) ->
  fst (read_loop cb cs last w) = fst (read_loop cb' cs last w').
Proof.
  intros L R L' R'. revert w w'.
  induction cs as [|c cs IH]; intros w w'; simpl.
  - destruct last; reflexivity.
  - pose proof (process_lines_outcome cb cb' (Str.split Str.LF c)
                  (read w) (read w') L R L' R') as E.
    destruct (process_lines cb (Str.split Str.LF c) (read w)) as [[o|] w1],
             (process_lines cb' (Str.split Str.LF c) (read w')) as [[o'|] w1'];
      simpl in *; try congruence.
    apply IH.
Qed.

(** X2: a callback that only looks cannot change the result.  With a
    callback that returns normally on every event and leaves the event as it
    was parsed, the operation settles exactly as it does without any
    callback. *)
Theorem callback_only_observes {S : Type} (onProgress : option (callback S))
    (env : environment) (f : option filters) (w : effects S) :
  observer onProgress ->
  (forall d, returns_on onProgress d) ->
  fst (rebuildVectorStoreWithProgress onProgress env f w)
  = fst (rebuildVectorStoreWithProgress (@None (callback unit)) env f (start tt)).
Proof.
  intros L R. unfold rebuildVectorStoreWithProgress.
  destruct (fetch env (stream_request env f)) as [resp|e]; [|reflexivity].
  destruct (negb (ok resp)); [reflexivity|].
  destruct (body resp) as [b|]; [|reflexivity].
  assert (L' : observer (@None (callback unit))) by (intros d s; reflexivity).
  assert (R' : forall d, returns_on (@None (callback unit)) d)
    by (intros d s; exists d, s; reflexivity).
  pose proof (read_loop_outcome onProgress (@None (callback unit))
                (chunks b) (ending b)
                (send (stream_request env f) w)
                (send (stream_request env f) (start tt)) L R L' R') as E.
  destruct (read_loop onProgress (chunks b) (ending b) _) as [x w1],
           (read_loop None (chunks b) (ending b) _) as [x' w1'].
  simpl in E. subst x'. destruct x; reflexivity.
Qed.

Section Chunking.

Context {S : Type}.
Variable onProgress : option (callback S).

Lemma upto_reads_refl (w : effects S) : same_but_reads w w.
Proof. repeat split. Qed.

Lemma upto_reads_trans (a b c : effects S) :
  same_but_reads a b -> same_but_reads b c -> same_but_reads a c.
Proof. unfold same_but_reads. intuition congruence. Qed.

Lemma upto_reads_read (w w' : effects S) :
  same_but_reads w w' -> same_but_reads (read w) w'.
Proof. unfold same_but_reads. simpl. tauto. Qed.

Lemma upto_reads_warn (line : string) (w w' : effects S) :
  same_but_reads w w' -> same_but_reads (warn line w) (warn line w').
Proof. unfold same_but_reads. simpl. intuition congruence. Qed.

Lemma upto_reads_called (d : json) (s : S) (w w' : effects S) :
  same_but_reads w w' ->
  same_but_reads (called_with d s w) (called_with d s w').
Proof. unfold same_but_reads. simpl. intuition congruence. Qed.

Lemma process_line_reads (line : string) (w w' : effects S) :
  same_but_reads w w' ->
  fst (process_line onProgress line w) = fst (process_line onProgress line w')
  /\ same_but_reads (snd (process_line onProgress line w))
                    (snd (process_line onProgress line w')).
Proof.
  intros H. unfold process_line, report.
  destruct (Str.startsWith "data: " line); [|split; [reflexivity|exact H]].
  destruct (JSON.parse (Str.slice 6 line)) as [d|];
    [|split; [reflexivity|apply upto_reads_warn, H]].
  assert (Hc : caller w = caller w') by apply H.
  destruct onProgress as [f|].
  - rewrite <- Hc. destruct (f d (caller w)) as [d' [s|s]].
    + pose proof (upto_reads_called d s w w' H) as H'.
      destruct (JS.get (left_as d d') "status") as [st|].
      * destruct (terminal st); split; (reflexivity || exact H').
      * split; [reflexivity|apply upto_reads_warn, H'].
    + split; [reflexivity|apply upto_reads_warn, upto_reads_called, H].
  - destruct (JS.get d "status") as [st|].
    + destruct (terminal st); split; (reflexivity || exact H).
    + split; [reflexivity|apply upto_reads_warn, H].
Qed.

Lemma process_lines_reads (lines : list string) (w w' : effects S) :
  same_but_reads w w' ->
  fst (process_lines onProgress lines w) = fst (process_lines onProgress lines w')
  /\ same_but_reads (snd (process_lines onProgress lines w))
                    (snd (process_lines onProgress lines w')).
Proof.
  revert w w'. induction lines as [|l ls IH]; intros w w' H; simpl;
    [split; [reflexivity|exact H]|].
  destruct (process_line_reads l w w' H) as [E Hs].
  destruct (process_line onProgress l w) as [[o|] w1],
           (process_line onProgress l w') as [[o'|] w1'];
    simpl in *; try discriminate.
  - split; assumption.
  - apply IH. exact Hs.
Qed.

(** A line without the marker is passed over. *)
Lemma process_lines_data (lines : list string) (w : effects S) :
  process_lines onProgress lines w
  = process_lines onProgress (filter is_data lines) w.
Proof.
  revert w. induction lines as [|l ls IH]; intros w; simpl; [reflexivity|].
  unfold is_data at 1. destruct (Str.startsWith "data: " l) eqn:E.
  - simpl. destruct (process_line onProgress l w) as [[o|] w1];
      [reflexivity|apply IH].
  - unfold process_line at 1. rewrite E. apply IH.
Qed.

(** The loop over the chunks is the loop over all their lines. *)
Lemma read_loop_lines (cs : list string) (last : stream_end)
    (w w0 : effects S) :
  same_but_reads w w0 ->
  fst (read_loop onProgress cs last w)
  = match fst (process_lines onProgress (lines_of cs) w0) with
    | Some o => Returned o
    | None => left_by last
    end
  /\ same_but_reads (snd (read_loop onProgress cs last w))
                    (snd (process_lines onProgress (lines_of cs) w0)).
Proof.
  revert w w0. induction cs as [|c cs IH]; intros w w0 H; cbn [read_loop].
  - cbn. destruct last; (split; [reflexivity|apply upto_reads_read, H]).
  - change (lines_of (c :: cs)) with (Str.split Str.LF c ++ lines_of cs)%list.
    rewrite process_lines_app.
    destruct (process_lines_reads (Str.split Str.LF c) (read w) w0
                (upto_reads_read _ _ H)) as [E Hs].
    destruct (process_lines onProgress (Str.split Str.LF c) (read w))
      as [[o|] w1],
      (process_lines onProgress (Str.split Str.LF c) w0) as [[o'|] w1'];
      cbn [fst snd] in *; try discriminate.
    + inversion E; subst. split; [reflexivity|exact Hs].
    + apply IH. exact Hs.
Qed.

End Chunking.

(** X3: only the [data: ] lines of a stream matter, not how the lines are
    grouped into chunks: two streams with the same sequence of [data: ] lines
    (each line whole within a chunk) give the same outcome, the same calls of
    the callback and the same warnings; they differ at most in the number of
    reads. *)
Theorem only_data_lines_matter {S : Type} (onProgress : option (callback S))
    (base : string) (token : option string) (code : Z) (text : string)
    (f : option filters) (w : effects S) (last : stream_end)
    (cs cs' : list string) :
  data_lines cs = data_lines cs' ->
  let run := run_on onProgress base token code text f w last in
  fst (run cs) = fst (run cs')
  /\ same_but_reads (snd (run cs)) (snd (run cs')).
Proof.
  intros H. cbv zeta.
  unfold run_on, rebuildVectorStoreWithProgress, answering, ok, stream_request.
  cbn [fetch status body statusText baseURL access_token chunks ending].
  destruct (negb _); [split; [reflexivity|apply upto_reads_refl]|].
  set (w0 := send _ w).
  destruct (read_loop_lines onProgress cs last w0 w0 (upto_reads_refl w0)) as [E R].
  destruct (read_loop_lines onProgress cs' last w0 w0 (upto_reads_refl w0)) as [E' R'].
  rewrite (process_lines_data onProgress (lines_of cs)) in E, R.
  rewrite (process_lines_data onProgress (lines_of cs')) in E', R'.
  unfold data_lines in H. rewrite <- H in E', R'.
  destruct (read_loop onProgress cs last w0) as [x w1],
           (read_loop onProgress cs' last w0) as [x' w1'].
  cbn [fst snd] in *.
  assert (Hx : x = x') by congruence. clear E E'. subst x'.
  assert (Hw : same_but_reads (releaseLock w1) (releaseLock w1')).
  { unfold same_but_reads in *. simpl. intuition congruence. }
  destruct x; (split; [reflexivity|exact Hw]).
Qed.

(** ** The query string *)

Lemma encode_byte_free (sep c : ascii) (k : string) :
  sep = "&"%char \/ sep = "="%char ->
  Str.free_of sep (URLSearchParams.encode_byte c k) = Str.free_of sep k.
Proof.
  intros [->| ->]; destruct c as [[] [] [] [] [] [] [] []]; reflexivity.
Qed.

Lemma encode_free (sep : ascii) (s : string) :
  sep = "&"%char \/ sep = "="%char ->
  Str.free_of sep (URLSearchParams.encode s) = true.
Proof.
  intros H. induction s as [|c s IH]; [reflexivity|].
  simpl. rewrite encode_byte_free by exact H. exact IH.
Qed.

Lemma query_field_free (p : string * string) :
  Str.free_of "&" (query_field p) = true.
Proof.
  unfold query_field. rewrite !free_of_app, !encode_free by (left; reflexivity).
  reflexivity.
Qed.

Lemma query_field_split (p : string * string) :
  Str.split "=" (query_field p)
  = [URLSearchParams.encode (fst p); URLSearchParams.encode (snd p)].
Proof.
  unfold query_field.
  change (URLSearchParams.encode (fst p) ++ "=" ++ URLSearchParams.encode (snd p))
    with (URLSearchParams.encode (fst p)
          ++ String "=" (URLSearchParams.encode (snd p))).
  rewrite split_app_sep, !split_free by (apply encode_free; right; reflexivity).
  reflexivity.
Qed.

(** X4: whatever characters the filters hold, the query string of both
    rebuild operations has exactly one [&]-separated field for each parameter
    appended, and each field has exactly one [=], between the encoded name
    and the encoded value: a value cannot add or split a parameter. *)
Theorem query_string_fields (f : option filters) :
  let params := rebuild_params f in
  let qs := URLSearchParams.toString params in
  match params with
  | [] => qs = EmptyString
  | _ :: _ => Str.split "&" qs = map query_field params
  end
  /\ Forall (fun p => Str.split "=" (query_field p)
                      = [URLSearchParams.encode (fst p);
                         URLSearchParams.encode (snd p)]) params.
Proof.
  cbv zeta. split.
  - destruct (rebuild_params f) as [|p ps] eqn:E; [reflexivity|].
    change (URLSearchParams.toString (p :: ps))
      with (Str.join "&" (map query_field (p :: ps))).
    rewrite split_join by discriminate.
    generalize (p :: ps). intros l. induction l as [|x l IH]; [reflexivity|].
    simpl. rewrite (split_free _ _ (query_field_free x)), IH. reflexivity.
  - apply Forall_forall. intros p _. apply query_field_split.
Qed.

Lemma encode_uint (d : Decimal.uint) :
  URLSearchParams.encode (NilEmpty.string_of_uint d) = NilEmpty.string_of_uint d.
Proof. induction d; simpl; [reflexivity|rewrite IHd; reflexivity ..]. Qed.

(** A number's decimal numeral goes through the encoding unchanged. *)
Lemma encode_number (z : Z) :
  URLSearchParams.encode (number_toString z) = number_toString z.
Proof.
  unfold number_toString, NilZero.string_of_int, NilZero.string_of_uint.
  destruct (Z.to_int z) as [d|d]; destruct d; try reflexivity;
    simpl; rewrite encode_uint; reflexivity.
Qed.

(** X5: with all three filters given and truthy, the batch size being a
    safe integer, both operations ask for
    [?user_filter=U&document_filter=D&batch_size=B], in this order, [U] and
    [D] being the encoded strings and [B] the plain decimal numeral. *)
Theorem rebuild_url_with_filters (u d : string) (b : Z) :
  u <> EmptyString -> d <> EmptyString -> b <> 0%Z ->
  safe_integer b = true ->
  let f := Some (mkFilters (Some u) (Some d) (Some b)) in
  let query := "?user_filter=" ++ URLSearchParams.encode u
               ++ "&document_filter=" ++ URLSearchParams.encode d
               ++ "&batch_size=" ++ NilZero.string_of_int (Z.to_int b) in
  (forall (R : Type) (post : string -> R),
     rebuildVectorStore post f = post ("/rag/admin/vector/rebuild" ++ query))
  /\ (forall env, req_url (stream_request env f)
                  = baseURL env ++ "/rag/admin/vector/rebuild/stream" ++ query).
Proof.
  intros Hu Hd Hb _. cbv zeta.
  assert (P : rebuild_params (Some (mkFilters (Some u) (Some d) (Some b)))
              = [("user_filter", u); ("document_filter", d);
                 ("batch_size", number_toString b)]).
  { unfold rebuild_params, opt_field, string_truthy. simpl.
    apply String.eqb_neq in Hu, Hd. apply Z.eqb_neq in Hb.
    rewrite Hu, Hd, Hb. reflexivity. }
  assert (Q : with_query "/rag/admin/vector/rebuild"
                (rebuild_params (Some (mkFilters (Some u) (Some d) (Some b))))
              = "/rag/admin/vector/rebuild?user_filter="
                ++ URLSearchParams.encode u
                ++ "&document_filter=" ++ URLSearchParams.encode d
                ++ "&batch_size=" ++ number_toString b
            /\ with_query "/rag/admin/vector/rebuild/stream"
                (rebuild_params (Some (mkFilters (Some u) (Some d) (Some b))))
              = "/rag/admin/vector/rebuild/stream?user_filter="
                ++ URLSearchParams.encode u
                ++ "&document_filter=" ++ URLSearchParams.encode d
                ++ "&batch_size=" ++ number_toString b).
  { rewrite P. unfold with_query, URLSearchParams.toString.
    cbn [map fst snd String.concat].
    change (URLSearchParams.encode "user_filter") with "user_filter".
    change (URLSearchParams.encode "document_filter") with "document_filter".
    change (URLSearchParams.encode "batch_size") with "batch_size".
    rewrite encode_number. split; reflexivity. }
  destruct Q as [Q1 Q2]. split.
  - intros R post. unfold rebuildVectorStore. rewrite Q1. reflexivity.
  - intros env. unfold stream_request. cbn [req_url]. rewrite Q2. reflexivity.
Qed.

Lemma rebuild_url_with_filters_witness :
  (forall (R : Type) (post : string -> R),
     rebuildVectorStore post
       (Some (mkFilters (Some "user 1") (Some "a&b") (Some (-5)%Z)))
     = post "/rag/admin/vector/rebuild?user_filter=user+1&document_filter=a%26b&batch_size=-5")
  /\ (forall env,
        req_url (stream_request env
                   (Some (mkFilters (Some "user 1") (Some "a&b") (Some (-5)%Z))))
        = baseURL env
          ++ "/rag/admin/vector/rebuild/stream?user_filter=user+1&document_filter=a%26b&batch_size=-5").
Proof.
  refine (rebuild_url_with_filters "user 1" "a&b" (-5)%Z _ _ _ eq_refl);
    discriminate.
Defined.

(** X6: a filter that is the empty string, and a batch size of 0, are
    treated as absent; and no filter object at all is the same as one
    without any filter. *)
Theorem falsy_filters_omitted (u d : option string) (b : option Z) :
  rebuild_params (Some (mkFilters u d b))
  = rebuild_params
      (Some (mkFilters (if string_truthy u then u else None)
                       (if string_truthy d then d else None)
                       (match b with
                        | Some 0%Z => None
                        | _ => b
                        end)))
  /\ rebuild_params None = rebuild_params (Some (mkFilters None None None))
  /\ (string_truthy u = false -> string_truthy d = false ->
      (b = None \/ b = Some 0%Z) ->
      forall env, req_url (stream_request env (Some (mkFilters u d b)))
                  = baseURL env ++ "/rag/admin/vector/rebuild/stream").
Proof.
  split; [|split; [reflexivity|]].
  - unfold rebuild_params, opt_field. cbn [user_filter document_filter batch_size].
    destruct u as [u|], d as [d|], b as [[|b|b]|]; cbn;
      try (destruct (String.eqb u "") eqn:Eu);
      try (destruct (String.eqb d "") eqn:Ed);
      cbn; rewrite ?Eu, ?Ed; cbn; reflexivity.
  - intros Hu Hd Hb env. unfold stream_request, rebuild_params, opt_field.
    cbn [req_url user_filter document_filter batch_size].
    destruct u as [u|], d as [d|]; cbn in Hu, Hd |- *;
      rewrite ?Hu, ?Hd; destruct Hb as [-> | ->]; reflexivity.
Qed.

Lemma falsy_filters_omitted_witness :
  req_url (stream_request (serving [] Done)
             (Some (mkFilters (Some EmptyString) None (Some 0%Z))))
  = "http://localhost:8000/rag/admin/vector/rebuild/stream".
Proof.
  exact (proj2 (proj2 (falsy_filters_omitted (Some EmptyString) None (Some 0%Z)))
           eq_refl eq_refl (or_intror eq_refl) (serving [] Done)).
Defined.

Import Scenario2.


Lemma callback_only_observes_witness :
  fst (rebuildVectorStoreWithProgress (Some counting)
         (serving three_chunks Done) None (start 0))
  = fst (rebuildVectorStoreWithProgress (@None (callback unit))
           (serving three_chunks Done) None (start tt)).
Proof.
  exact (callback_only_observes (Some counting) (serving three_chunks Done)
           None (start 0) (looks_only counting (fun _ _ => eq_refl))
           counting_returns).
Defined.

Lemma only_data_lines_matter_witness :
  let run := run_on (Some counting) "http://localhost:8000" (Some "secret")
               200 "OK" None (start 0) Done in
  fst (run in_one_chunk) = fst (run line_by_line)
  /\ same_but_reads (snd (run in_one_chunk)) (snd (run line_by_line)).
Proof.
  exact (only_data_lines_matter (Some counting) "http://localhost:8000"
           (Some "secret") 200 "OK" None (start 0) Done
           in_one_chunk line_by_line eq_refl).
Defined.

(** ** The document upload *)

Section UploadLoop.

Context {S : Type}.
Variable onProgress : option (Upload.callback S).

(** What the callback is given of a list of lines, if there is a callback. *)
Let told (lines : list string) : list (json * js_value) :=
  match onProgress with
  | Some _ => Upload.reports_of lines
  | None => []
  end.

Lemma upload_line (line : string) (w : Upload.effects S) :
  let w' := Upload.process_line onProgress line w in
  Upload.calls w' = (Upload.calls w ++ told [line])%list
  /\ Upload.requests w' = Upload.requests w
  /\ Upload.reads w' = Upload.reads w
  /\ Upload.released w' = Upload.released w.
Proof.
  unfold told, Upload.reports_of, Upload.report_of, event_of,
    Upload.process_line.
  cbn [flat_map]. rewrite !app_nil_r.
  destruct (Str.startsWith "data: " line).
  2:{ cbn. destruct onProgress; rewrite app_nil_r; auto. }
  destruct (JSON.parse (Str.slice 6 line)) as [d|].
  2:{ cbn. destruct onProgress; rewrite app_nil_r; auto. }
  destruct (JS.get d "status") as [[stage|]|].
  - destruct onProgress as [f|]; [|cbn; rewrite app_nil_r; auto].
    destruct (JS.truthy (Some stage)); [|cbn; rewrite app_nil_r; auto].
    destruct (f stage _ (Upload.caller w)); cbn; auto.
  - cbn. destruct onProgress; rewrite app_nil_r; auto.
  - cbn. destruct onProgress; rewrite app_nil_r; auto.
Qed.

Lemma told_app (a b : list string) : told (a ++ b) = (told a ++ told b)%list.
Proof.
  unfold told, Upload.reports_of. destruct onProgress; [apply flat_map_app|reflexivity].
Qed.

Lemma upload_lines (lines : list string) (w : Upload.effects S) :
  let w' := Upload.process_lines onProgress lines w in
  Upload.calls w' = (Upload.calls w ++ told lines)%list
  /\ Upload.requests w' = Upload.requests w
  /\ Upload.reads w' = Upload.reads w
  /\ Upload.released w' = Upload.released w.
Proof.
  revert w. induction lines as [|l ls IH]; intros w; cbn.
  - unfold told. destruct onProgress; rewrite app_nil_r; auto.
  - destruct (upload_line l w) as (C & Q & R & L).
    destruct (IH (Upload.process_line onProgress l w)) as (C' & Q' & R' & L').
    cbv zeta in *. unfold Upload.process_lines in *.
    rewrite C', Q', R', L', C, Q, R, L.
    change (l :: ls) with ([l] ++ ls)%list.
    rewrite told_app, app_assoc. auto.
Qed.

Lemma upload_loop (cs : list string) (last : stream_end) (w : Upload.effects S) :
  let r := Upload.read_loop onProgress cs last w in
  fst r = match last with
          | Done => None
          | ReadError e => Some e
          end
  /\ Upload.calls (snd r) = (Upload.calls w ++ told (lines_of cs))%list
  /\ Upload.requests (snd r) = Upload.requests w
  /\ Upload.reads (snd r) = Upload.reads w + length cs + 1
  /\ Upload.released (snd r) = Upload.released w.
Proof.
  revert w. induction cs as [|c cs IH]; intros w; cbn [Upload.read_loop].
  - cbn. unfold told.
    destruct last; destruct onProgress; rewrite app_nil_r;
      repeat split; cbn; lia.
  - destruct (upload_lines (Str.split Str.LF c) (Upload.read w))
      as (C & Q & R & L).
    destruct (IH (Upload.process_lines onProgress (Str.split Str.LF c)
                    (Upload.read w))) as (E' & C' & Q' & R' & L').
    cbv zeta in *. rewrite E', C', Q', R', L', C, Q, R, L.
    change (lines_of (c :: cs)) with (Str.split Str.LF c ++ lines_of cs)%list.
    rewrite told_app, app_assoc. cbn. repeat split. lia.
Qed.

(** A property of the caller's state that every call of the callback keeps
    is kept by the whole operation. *)
Lemma upload_keeps (I : S -> Prop) (base : string) (token : option string)
    (fetch : Upload.sent -> fetched) (file : Upload.File)
    (w : Upload.effects S) :
  (forall f stage prog s, onProgress = Some f -> I s ->
                          I (state_after (f stage prog s))) ->
  I (Upload.caller w) ->
  I (Upload.caller (snd (Upload.uploadDocument onProgress base token fetch file w))).
Proof.
  intros Hk H0. unfold Upload.uploadDocument.
  set (w0 := Upload.send _ w).
  assert (H : I (Upload.caller w0)) by exact H0. clearbody w0.
  destruct (fetch _) as [resp|e]; [|exact H].
  destruct (negb (ok resp)); [exact H|].
  destruct (body resp) as [b|]; [|exact H].
  assert (L : forall cs w1, I (Upload.caller w1) ->
                I (Upload.caller (snd (Upload.read_loop onProgress cs (ending b) w1)))).
  { induction cs as [|c cs IH]; intros w1 H1; cbn [Upload.read_loop].
    - destruct (ending b); exact H1.
    - apply IH. unfold Upload.process_lines.
      assert (H2 : I (Upload.caller (Upload.read w1))) by exact H1.
      revert H2. generalize (Upload.read w1).
      induction (Str.split Str.LF c) as [|l ls IHl]; intros w2 H2; cbn;
        [exact H2|].
      apply IHl. unfold Upload.process_line.
      destruct (Str.startsWith "data: " l); [|exact H2].
      destruct (JSON.parse (Str.slice 6 l)) as [d|]; [|exact H2].
      destruct (JS.get d "status") as [[stage|]|]; try exact H2.
      destruct onProgress as [f|] eqn:Ef; [|exact H2].
      destruct (JS.truthy (Some stage)); [|exact H2].
      pose proof (Hk f stage
                    match JS.get d "progress" with
                    | Some v => v
                    | None => None
                    end (Upload.caller w2) eq_refl H2) as H3.
      destruct (f stage _ (Upload.caller w2)); exact H3. }
  specialize (L (chunks b) w0 H).
  destruct (Upload.read_loop onProgress (chunks b) (ending b) w0) as [x w1].
  destruct x; exact L.
Qed.

End UploadLoop.

(** X7: the upload never stops at an event.  Once the response is a stream,
    every chunk is read, and how the stream ends alone decides the result:
    the fixed success value when the reader reports [done], the error when a
    read rejects.  What the events say, a failure included, does not count. *)
Theorem upload_settles_at_stream_end {S : Type}
    (onProgress : option (Upload.callback S))
    (base : string) (token : option string) (fetch : Upload.sent -> fetched)
    (file : Upload.File) (w : Upload.effects S) (resp : response)
    (cs : list string) (last : stream_end) :
  fetch (Upload.upload_request base token file) = Responded resp ->
  ok resp = true ->
  body resp = Some (mkStream cs last) ->
  let run := Upload.uploadDocument onProgress base token fetch file w in
  fst run = match last with
            | Done =>
                JS.Resolved (JObj [("data", JObj [("success", JBool true)])])
            | ReadError e => JS.Rejected e
            end
  /\ Upload.reads (snd run) = Upload.reads w + length cs + 1
  /\ Upload.released (snd run) = true.
Proof.
  intros Hf Hok Hb. cbv zeta. unfold Upload.uploadDocument.
  rewrite Hf, Hok, Hb. cbn [negb chunks ending].
  destruct (upload_loop onProgress cs last
              (Upload.send (Upload.upload_request base token file) w))
    as (E & _ & _ & R & _).
  destruct (Upload.read_loop onProgress cs last _) as [x w1].
  cbn [fst snd] in *. subst x.
  destruct last; repeat split; exact R.
Qed.

(** X8: when the response is not in the 2xx range, or has no body, the
    upload rejects with [Upload failed: <status text>] or [No response body];
    all it has done is to send the one POST of the file to [/rag/upload/]. *)
Theorem upload_transport_failure {S : Type}
    (onProgress : option (Upload.callback S))
    (base : string) (token : option string) (fetch : Upload.sent -> fetched)
    (file : Upload.File) (w : Upload.effects S) (resp : response) :
  fetch (Upload.upload_request base token file) = Responded resp ->
  ok resp = false \/ body resp = None ->
  let run := Upload.uploadDocument onProgress base token fetch file w in
  fst run = JS.Rejected
              (JS.Error (if ok resp then "No response body"
                         else "Upload failed: " ++ statusText resp))
  /\ snd run
     = Upload.send (Upload.mkSent "POST" (base ++ "/rag/upload/")
                      [("Authorization", bearer token)] [("file", file)]) w.
Proof.
  intros Hf H. cbv zeta. unfold Upload.uploadDocument. rewrite Hf.
  destruct (ok resp) eqn:Hok; simpl.
  - destruct H as [H|H]; [discriminate|]. rewrite H. split; reflexivity.
  - split; reflexivity.
Qed.

(** X9: the upload callback is called once for every [data: ] line whose
    event has a truthy status, in stream order, with that status and the
    event's progress; events without a status are not reported.  This holds
    whatever the callback does, also when it throws. *)
Theorem upload_reports_every_stage {S : Type} (f : Upload.callback S)
    (base : string) (token : option string) (fetch : Upload.sent -> fetched)
    (file : Upload.File) (w : Upload.effects S) (resp : response)
    (cs : list string) (last : stream_end) :
  fetch (Upload.upload_request base token file) = Responded resp ->
  ok resp = true ->
  body resp = Some (mkStream cs last) ->
  Upload.calls (snd (Upload.uploadDocument (Some f) base token fetch file w))
  = (Upload.calls w ++ Upload.reports_of (lines_of cs))%list.
Proof.
  intros Hf Hok Hb. unfold Upload.uploadDocument.
  rewrite Hf, Hok, Hb. cbn [negb chunks ending].
  destruct (upload_loop (Some f) cs last
              (Upload.send (Upload.upload_request base token file) w))
    as (_ & C & _).
  destruct (Upload.read_loop (Some f) cs last _) as [x w1].
  cbn [fst snd] in *. destruct x; exact C.
Qed.

(** ** The upload list (frontend/src/components/documents/DocumentList.tsx) *)

Section UploadList.

Import DocumentUpload.

Context {P : Type}.
Variable onUploadComplete : option (P -> called P).

Lemma staged_local (mine : string) (stg : json) (prog : js_value) :
  local_to mine (staged mine stg prog).
Proof.
  intros f. unfold staged. destruct (String.eqb (id f) mine); cbn; auto.
  repeat split; intros; discriminate.
Qed.

Lemma settled_local (mine : string) : local_to mine (settled mine).
Proof.
  intros f. unfold settled.
  destruct (String.eqb (id f) mine); cbn; auto.
  destruct (status_eqb (file_status f) uploading); cbn; auto.
  repeat split; intros; discriminate.
Qed.

Lemma failed_local (mine : string) (m : JS.text) :
  local_to mine (failed_with mine m).
Proof.
  intros f. unfold failed_with. destruct (String.eqb (id f) mine); cbn; auto.
  repeat split; intros; discriminate.
Qed.

Lemma local_map (mine : string) (u : UploadFile -> UploadFile)
    (fs : list UploadFile) :
  local_to mine u ->
  outline (map u fs) = outline fs /\ others mine (map u fs) = others mine fs.
Proof.
  intros L. unfold outline, others.
  induction fs as [|f fs [IH1 IH2]]; cbn; [auto|].
  destruct (L f) as (Hi & Hf & Ho). rewrite Hi, Hf, IH1. split; [reflexivity|].
  destruct (String.eqb (id f) mine) eqn:E; cbn; [exact IH2|].
  rewrite (Ho eq_refl), IH2. reflexivity.
Qed.

Lemma on_stage_files (uploadFile : UploadFile) (stg : json) (prog : js_value)
    (st : state P) :
  uploadedFiles (state_after (on_stage onUploadComplete uploadFile stg prog st))
  = map (staged (id uploadFile) stg prog) (uploadedFiles st).
Proof.
  unfold on_stage, notify_parent.
  destruct (JS.is_string (Some stg) "processed"); [|reflexivity].
  destruct onUploadComplete as [g|]; [|reflexivity]. cbn.
  destruct (g (parent st)); reflexivity.
Qed.

End UploadList.

(** X10: the upload handler only touches the entries of its own upload.
    However the upload goes, the list keeps its entries in order, each with
    its id and file, and the entries with another id are exactly as they
    were. *)
Theorem upload_touches_only_its_entry {P : Type}
    (onUploadComplete : option (P -> called P))
    (base : string) (token : option string) (fetch : Upload.sent -> fetched)
    (uploadFile : DocumentUpload.UploadFile) (st : DocumentUpload.state P) :
  let st' := Upload.caller (DocumentUpload.uploadDocument onUploadComplete
                              base token fetch uploadFile st) in
  outline (DocumentUpload.uploadedFiles st')
  = outline (DocumentUpload.uploadedFiles st)
  /\ others (DocumentUpload.id uploadFile) (DocumentUpload.uploadedFiles st')
     = others (DocumentUpload.id uploadFile) (DocumentUpload.uploadedFiles st).
Proof.
  cbv zeta. unfold DocumentUpload.uploadDocument.
  set (mine := DocumentUpload.id uploadFile).
  pose proof (upload_keeps
                (Some (DocumentUpload.on_stage onUploadComplete uploadFile))
                (fun s => outline (DocumentUpload.uploadedFiles s)
                          = outline (DocumentUpload.uploadedFiles st)
                          /\ others mine (DocumentUpload.uploadedFiles s)
                             = others mine (DocumentUpload.uploadedFiles st))
                base token fetch (DocumentUpload.file uploadFile)
                (Upload.start st)) as K.
  cbv beta in K.
  destruct (Upload.uploadDocument _ base token fetch _ _) as [result w].
  cbn [snd] in K.
  destruct K as [K1 K2].
  - intros f stg prog s Ef [I1 I2]. injection Ef as <-.
    rewrite on_stage_files.
    destruct (local_map mine _ (DocumentUpload.uploadedFiles s)
                (staged_local mine stg prog)) as [L1 L2].
    fold mine. rewrite L1, L2. auto.
  - split; reflexivity.
  - destruct result as [r|e].
    + destruct (local_map mine _ (DocumentUpload.uploadedFiles (Upload.caller w))
                  (settled_local mine)) as [L1 L2].
      split; [exact (eq_trans L1 K1)|exact (eq_trans L2 K2)].
    + destruct (local_map mine _ (DocumentUpload.uploadedFiles (Upload.caller w))
                  (failed_local mine (DocumentUpload.error_message e)))
        as [L1 L2].
      split; [exact (eq_trans L1 K1)|exact (eq_trans L2 K2)].
Qed.

(** X11: when the handler has finished, no entry of its upload is left in
    the status [uploading], however the upload went. *)
Theorem upload_never_left_uploading {P : Type}
    (onUploadComplete : option (P -> called P))
    (base : string) (token : option string) (fetch : Upload.sent -> fetched)
    (uploadFile : DocumentUpload.UploadFile) (st : DocumentUpload.state P) :
  let st' := Upload.caller (DocumentUpload.uploadDocument onUploadComplete
                              base token fetch uploadFile st) in
  Forall (fun f => DocumentUpload.id f = DocumentUpload.id uploadFile ->
                   DocumentUpload.file_status f <> DocumentUpload.uploading)
         (DocumentUpload.uploadedFiles st').
Proof.
  cbv zeta. unfold DocumentUpload.uploadDocument.
  destruct (Upload.uploadDocument _ base token fetch _ _) as [result w].
  destruct result as [r|e]; cbn; apply Forall_forall; intros f Hin Hid;
    apply in_map_iff in Hin as (g & <- & _).
  - revert Hid. unfold DocumentUpload.settled.
    destruct (String.eqb (DocumentUpload.id g) _) eqn:E; cbn.
    + destruct (DocumentUpload.file_status g) eqn:Es; cbn; rewrite ?Es;
        intros _ H; discriminate H.
    + intros Hid. apply String.eqb_neq in E. contradiction.
  - revert Hid. unfold DocumentUpload.failed_with.
    destruct (String.eqb (DocumentUpload.id g) _) eqn:E; cbn.
    + intros _ H; discriminate H.
    + intros Hid. apply String.eqb_neq in E. contradiction.
Qed.

(** X12: an upload whose stream ends is shown as a success, whatever its
    events said.  When the response is a stream that the reader reports
    [done] and no entry of the upload was in the status [error] before, every
    entry of the upload ends in the status [success]; an event with the status
    [failed] or [error] does not change that. *)
Theorem ended_stream_shown_as_success {P : Type}
    (onUploadComplete : option (P -> called P))
    (base : string) (token : option string) (fetch : Upload.sent -> fetched)
    (uploadFile : DocumentUpload.UploadFile) (st : DocumentUpload.state P)
    (resp : response) (cs : list string) :
  fetch (Upload.upload_request base token (DocumentUpload.file uploadFile))
  = Responded resp ->
  ok resp = true ->
  body resp = Some (mkStream cs Done) ->
  Forall (fun f => DocumentUpload.id f = DocumentUpload.id uploadFile ->
                   DocumentUpload.file_status f <> DocumentUpload.error)
         (DocumentUpload.uploadedFiles st) ->
  let st' := Upload.caller (DocumentUpload.uploadDocument onUploadComplete
                              base token fetch uploadFile st) in
  Forall (fun f => DocumentUpload.id f = DocumentUpload.id uploadFile ->
                   DocumentUpload.file_status f = DocumentUpload.success)
         (DocumentUpload.uploadedFiles st').
Proof.
  intros Hf Hok Hb H0. cbv zeta. unfold DocumentUpload.uploadDocument.
  set (mine := DocumentUpload.id uploadFile) in *.
  pose proof (upload_keeps
                (Some (DocumentUpload.on_stage onUploadComplete uploadFile))
                (fun s => Forall (fun f => DocumentUpload.id f = mine ->
                                           DocumentUpload.file_status f
                                           <> DocumentUpload.error)
                                 (DocumentUpload.uploadedFiles s))
                base token fetch (DocumentUpload.file uploadFile)
                (Upload.start st)) as K.
  cbv beta in K.
  assert (R : fst (Upload.uploadDocument
                     (Some (DocumentUpload.on_stage onUploadComplete uploadFile))
                     base token fetch (DocumentUpload.file uploadFile)
                     (Upload.start st)) = JS.Resolved Upload.uploaded).
  { unfold Upload.uploadDocument. rewrite Hf, Hok, Hb. cbn [negb chunks ending].
    destruct (upload_loop
                (Some (DocumentUpload.on_stage onUploadComplete uploadFile))
                cs Done
                (Upload.send (Upload.upload_request base token
                                (DocumentUpload.file uploadFile))
                             (Upload.start st))) as (E & _).
    destruct (Upload.read_loop _ cs Done _) as [x w1].
    cbn [fst] in E. subst x. reflexivity. }
  destruct (Upload.uploadDocument _ base token fetch _ _) as [result w].
  cbn [fst snd] in *. subst result.
  assert (I : Forall (fun f => DocumentUpload.id f = mine ->
                               DocumentUpload.file_status f
                               <> DocumentUpload.error)
                     (DocumentUpload.uploadedFiles (Upload.caller w))).
  { apply K; [|exact H0].
    intros f stg prog s Ef I. injection Ef as <-.
    rewrite on_stage_files. apply Forall_forall. intros g Hin Hid.
    apply in_map_iff in Hin as (g0 & <- & Hin0).
    rewrite Forall_forall in I. specialize (I g0 Hin0).
    revert Hid. unfold DocumentUpload.staged. fold mine.
    destruct (String.eqb (DocumentUpload.id g0) mine) eqn:E.
    - intros _. cbn [DocumentUpload.file_status].
      destruct (JS.is_string (Some stg) "processed"); intros H; discriminate H.
    - exact I. }
  cbn. apply Forall_forall. intros f Hin Hid.
  apply in_map_iff in Hin as (g & <- & Hin).
  rewrite Forall_forall in I. specialize (I g Hin).
  revert Hid. unfold DocumentUpload.settled. fold mine.
  destruct (String.eqb (DocumentUpload.id g) mine) eqn:E; cbn.
  - apply String.eqb_eq in E. specialize (I E).
    destruct (DocumentUpload.file_status g) eqn:Es; cbn; rewrite ?Es;
      intros _; [reflexivity|reflexivity|contradiction I; reflexivity].
  - intros Hid. apply String.eqb_neq in E. contradiction.
Qed.

(** X13: when the response to the upload is not in the 2xx range, or has no
    body, every entry of the upload ends in the status [error] with the stage
    [failed] and the client's message as its error; one destructive toast
    [Upload failed] with that message is raised, and the parent is not
    notified. *)
Theorem refused_upload_shown_as_error {P : Type}
    (onUploadComplete : option (P -> called P))
    (base : string) (token : option string) (fetch : Upload.sent -> fetched)
    (uploadFile : DocumentUpload.UploadFile) (st : DocumentUpload.state P)
    (resp : response) :
  fetch (Upload.upload_request base token (DocumentUpload.file uploadFile))
  = Responded resp ->
  ok resp = false \/ body resp = None ->
  let st' := Upload.caller (DocumentUpload.uploadDocument onUploadComplete
                              base token fetch uploadFile st) in
  let message := JS.Text (if ok resp then "No response body"
                          else "Upload failed: " ++ statusText resp) in
  Forall (fun f => DocumentUpload.id f = DocumentUpload.id uploadFile ->
                   DocumentUpload.file_status f = DocumentUpload.error
                   /\ DocumentUpload.file_error f = Some message
                   /\ DocumentUpload.stage f = Some (JStr "failed"))
         (DocumentUpload.uploadedFiles st')
  /\ DocumentUpload.toasts st'
     = (DocumentUpload.toasts st
        ++ [SettingsPage.mkToast "Upload failed" message (Some "destructive")])%list
  /\ DocumentUpload.parent st' = DocumentUpload.parent st.
Proof.
  intros Hf H. cbv zeta.
  unfold DocumentUpload.uploadDocument, Upload.uploadDocument. rewrite Hf.
  assert (F : forall m : JS.text,
             Forall (fun f => DocumentUpload.id f = DocumentUpload.id uploadFile ->
                              DocumentUpload.file_status f = DocumentUpload.error
                              /\ DocumentUpload.file_error f = Some m
                              /\ DocumentUpload.stage f = Some (JStr "failed"))
                    (map (DocumentUpload.failed_with
                            (DocumentUpload.id uploadFile) m)
                         (DocumentUpload.uploadedFiles st))).
  { intros m. apply Forall_forall. intros f Hin Hid.
    apply in_map_iff in Hin as (g & <- & _). revert Hid.
    unfold DocumentUpload.failed_with.
    destruct (String.eqb (DocumentUpload.id g) _) eqn:E; cbn; [auto|].
    intros Hid. apply String.eqb_neq in E. contradiction. }
  destruct (ok resp) eqn:Hok; cbn [negb].
  - destruct H as [H|H]; [discriminate|]. rewrite H.
    repeat split. apply F.
  - repeat split. apply F.
Qed.

(** ** The settings page, on top of the client *)




(** X14: the rebuild button is released after every run.  However the
    request and the stream go, and whether or not the statistics can be
    fetched afterwards, the handler leaves [isLoading] false and, where the
    progress state is defined, [isActive] false: the button is not left
    disabled. *)
Theorem rebuild_button_released (env : environment) (stats : JS.promise json)
    (p : SettingsPage.page) :
  let p' := caller (SettingsPage.rebuildVectorStore env stats p) in
  SettingsPage.isLoading p' = false
  /\ SettingsView.disabled p' <> Some true.
Proof.
  cbv zeta. unfold SettingsPage.rebuildVectorStore.
  destruct (rebuildVectorStoreWithProgress _ env None _) as [result w].
  unfold SettingsView.disabled.
  destruct result as [r|e].
  - destruct (success r).
    + destruct stats as [d|e];
        cbn; destruct (SettingsPage.rebuildProgress (caller w));
        cbn; split; (reflexivity || discriminate).
    + cbn. destruct (SettingsPage.rebuildProgress (caller w));
        cbn; split; (reflexivity || discriminate).
  - cbn. destruct (SettingsPage.rebuildProgress (caller w));
      cbn; split; (reflexivity || discriminate).
Qed.


(** X16: a refused rebuild request is shown as a failure.  When the response
    is not in the 2xx range, or has no body, the page ends with the initial
    progress state marked [failed] and inactive, one destructive toast
    [Error] whose description is the client's message, and the statistics
    untouched. *)
Theorem refused_rebuild_shown_failed (env : environment)
    (stats : JS.promise json) (p : SettingsPage.page) (resp : response) :
  fetch env (stream_request env None) = Responded resp ->
  ok resp = false \/ body resp = None ->
  let p' := caller (SettingsPage.rebuildVectorStore env stats p) in
  p' = SettingsPage.mkPage
         (SettingsPage.backupStats p) false
         (Some (SettingsPage.mkProgress false (Some (JStr "failed"))
                  (Some (Int 0)) (Some (JStr "Initializing rebuild..."))
                  (Some (Int 0)) (Some (Int 0)) (Some (Int 0)) (Some (Int 0))))
         (SettingsPage.toasts p
          ++ [SettingsPage.mkToast "Error"
                (JS.Text (if ok resp then "No response body"
                          else "Rebuild failed: " ++ statusText resp))
                (Some "destructive")])%list.
Proof.
  intros Hf H. cbv zeta.
  unfold SettingsPage.rebuildVectorStore, rebuildVectorStoreWithProgress.
  rewrite Hf.
  destruct (ok resp) eqn:Hok; cbn [negb].
  - destruct H as [H|H]; [discriminate|]. rewrite H. reflexivity.
  - reflexivity.
Qed.

(** ** The further statements at concrete inputs *)

Lemma upload_settles_at_stream_end_witness :
  let run := Upload.uploadDocument (Some touchy) "http://localhost:8000"
               (Some "secret") (answers (streaming upload_stream Done)) pdf
               (Upload.start 0) in
  fst run = JS.Resolved (JObj [("data", JObj [("success", JBool true)])])
  /\ Upload.reads (snd run) = 3
  /\ Upload.released (snd run) = true.
Proof.
  exact (upload_settles_at_stream_end (Some touchy) "http://localhost:8000"
           (Some "secret") (answers (streaming upload_stream Done)) pdf
           (Upload.start 0) (streaming upload_stream Done) upload_stream Done
           eq_refl eq_refl eq_refl).
Defined.

Lemma upload_transport_failure_witness :
  let run := Upload.uploadDocument (Some touchy) "http://localhost:8000"
               (Some "secret") (answers too_large) pdf (Upload.start 0) in
  fst run = JS.Rejected (JS.Error "Upload failed: Payload Too Large")
  /\ snd run
     = Upload.send (Upload.mkSent "POST" "http://localhost:8000/rag/upload/"
                      [("Authorization", "Bearer secret")] [("file", pdf)])
                   (Upload.start 0).
Proof.
  exact (upload_transport_failure (Some touchy) "http://localhost:8000"
           (Some "secret") (answers too_large) pdf (Upload.start 0) too_large
           eq_refl (or_introl eq_refl)).
Defined.

Lemma upload_reports_every_stage_witness :
  Upload.calls (snd (Upload.uploadDocument (Some touchy) "http://localhost:8000"
                       (Some "secret") (answers (streaming upload_stream Done))
                       pdf (Upload.start 0)))
  = [(JStr "uploading", Some (Int 30)); (JStr "failed", None)].
Proof.
  exact (upload_reports_every_stage touchy "http://localhost:8000"
           (Some "secret") (answers (streaming upload_stream Done)) pdf
           (Upload.start 0) (streaming upload_stream Done) upload_stream Done
           eq_refl eq_refl eq_refl).
Defined.

Lemma ended_stream_shown_as_success_witness :
  Forall (fun f => DocumentUpload.id f = "k3x9q0z1a" ->
                   DocumentUpload.file_status f = DocumentUpload.success)
         (DocumentUpload.uploadedFiles
            (Upload.caller
               (DocumentUpload.uploadDocument counting_parent
                  "http://localhost:8000" (Some "secret")
                  (answers (streaming upload_stream Done))
                  first_upload two_uploads))).
Proof.
  refine (ended_stream_shown_as_success counting_parent
            "http://localhost:8000" (Some "secret")
            (answers (streaming upload_stream Done)) first_upload two_uploads
            (streaming upload_stream Done) upload_stream eq_refl eq_refl
            eq_refl _).
  repeat constructor; discriminate.
Defined.

Lemma refused_upload_shown_as_error_witness :
  let st' := Upload.caller
               (DocumentUpload.uploadDocument counting_parent
                  "http://localhost:8000" (Some "secret") (answers unavailable)
                  first_upload two_uploads) in
  let message := JS.Text "Upload failed: Service Unavailable" in
  Forall (fun f => DocumentUpload.id f = "k3x9q0z1a" ->
                   DocumentUpload.file_status f = DocumentUpload.error
                   /\ DocumentUpload.file_error f = Some message
                   /\ DocumentUpload.stage f = Some (JStr "failed"))
         (DocumentUpload.uploadedFiles st')
  /\ DocumentUpload.toasts st'
     = [SettingsPage.mkToast "Upload failed" message (Some "destructive")]
  /\ DocumentUpload.parent st' = 0.
Proof.
  exact (refused_upload_shown_as_error counting_parent
           "http://localhost:8000" (Some "secret") (answers unavailable)
           first_upload two_uploads unavailable eq_refl (or_introl eq_refl)).
Defined.


Lemma refused_rebuild_shown_failed_witness :
  caller (SettingsPage.rebuildVectorStore
            (answering "http://localhost:8000" (Some "secret") unavailable)
            (JS.Resolved JNull) SettingsPage.initial)
  = SettingsPage.mkPage JNull false
      (Some (SettingsPage.mkProgress false (Some (JStr "failed"))
               (Some (Int 0)) (Some (JStr "Initializing rebuild..."))
               (Some (Int 0)) (Some (Int 0)) (Some (Int 0)) (Some (Int 0))))
      [SettingsPage.mkToast "Error"
         (JS.Text "Rebuild failed: Service Unavailable") (Some "destructive")].
Proof.
  exact (refused_rebuild_shown_failed
           (answering "http://localhost:8000" (Some "secret") unavailable)
           (JS.Resolved JNull) SettingsPage.initial unavailable
           eq_refl (or_introl eq_refl)).
Defined.

(** ** The session *)

Lemma getItem_removed (k : string) (st : Auth.storage) :
  Auth.getItem k (Auth.removeItem k st) = None.
Proof.
  induction st as [|[k' v] st IH]; cbn; [reflexivity|].
  destruct (String.eqb k k') eqn:E; cbn; [exact IH|].
  rewrite E. exact IH.
Qed.

Lemma getItem_remove_other (k k' : string) (st : Auth.storage) :
  String.eqb k' k = false ->
  Auth.getItem k (Auth.removeItem k' st) = Auth.getItem k st.
Proof.
  intros N. induction st as [|[k0 v] st IH]; cbn; [reflexivity|].
  destruct (String.eqb k' k0) eqn:E; cbn.
  - apply String.eqb_eq in E. subst k0.
    rewrite String.eqb_sym, N. exact IH.
  - destruct (String.eqb k k0); [reflexivity|exact IH].
Qed.

Lemma getItem_set (k : string) (v : JS.text) (st : Auth.storage) :
  Auth.getItem k (Auth.setItem k v st) = Some v.
Proof. cbn. rewrite String.eqb_refl. reflexivity. Qed.

Lemma getItem_set_other (k k' : string) (v : JS.text) (st : Auth.storage) :
  String.eqb k' k = false ->
  Auth.getItem k (Auth.setItem k' v st) = Auth.getItem k st.
Proof.
  intros N. cbn. rewrite String.eqb_sym, N. apply getItem_remove_other, N.
Qed.

Lemma session_key_split (k : string) :
  session_key k = false ->
  String.eqb "access_token" k = false
  /\ String.eqb "refresh_token" k = false
  /\ String.eqb "user" k = false.
Proof.
  unfold session_key. intros H.
  apply orb_false_iff in H as [H Hu]. apply orb_false_iff in H as [Ha Hr].
  rewrite (String.eqb_sym "access_token"), (String.eqb_sym "refresh_token"),
    (String.eqb_sym "user"). auto.
Qed.

Lemma logout_items (b : Auth.browser) (k : string) :
  Auth.getItem k (Auth.localStorage (Auth.logout b))
  = if session_key k then None else Auth.getItem k (Auth.localStorage b).
Proof.
  unfold Auth.logout, Auth.stored. cbn [Auth.localStorage].
  destruct (session_key k) eqn:K.
  - unfold session_key in K.
    destruct (String.eqb k "user") eqn:Eu.
    { apply String.eqb_eq in Eu. subst k. apply getItem_removed. }
    rewrite getItem_remove_other by (rewrite String.eqb_sym; exact Eu).
    destruct (String.eqb k "refresh_token") eqn:Er.
    { apply String.eqb_eq in Er. subst k. apply getItem_removed. }
    rewrite getItem_remove_other by (rewrite String.eqb_sym; exact Er).
    destruct (String.eqb k "access_token") eqn:Ea; [|discriminate].
    apply String.eqb_eq in Ea. subst k. apply getItem_removed.
  - destruct (session_key_split k K) as (Ha & Hr & Hu).
    rewrite !getItem_remove_other by assumption. reflexivity.
Qed.

Lemma header_set (k : string) (v : Auth.header_value)
    (hs : list (string * Auth.header_value)) :
  Auth.header k (Auth.set_header k v hs) = Some v.
Proof.
  induction hs as [|[k' v'] hs IH]; cbn.
  - rewrite String.eqb_refl. reflexivity.
  - destruct (String.eqb k k') eqn:E; cbn.
    + rewrite String.eqb_refl. reflexivity.
    + rewrite E. exact IH.
Qed.

(** X17: logging out ends the session.  After [logout] the three session
    items are gone and every other item is as it was; the request
    interceptor then leaves a request without its Authorization header being
    set, and [refreshToken] rejects with [No refresh token] without calling
    the backend. *)
Theorem logout_ends_session
    (post : Auth.posted -> Auth.browser -> Auth.settled json * Auth.browser)
    (b : Auth.browser) (c : Auth.config)
    (ps : list Auth.posted) (rs : list Auth.config) :
  (forall k, Auth.getItem k (Auth.localStorage (Auth.logout b))
             = if session_key k then None
               else Auth.getItem k (Auth.localStorage b))
  /\ Auth.request_interceptor c (Auth.logout b) = c
  /\ Auth.refreshToken post (Auth.mkWorld (Auth.logout b) ps rs)
     = (Auth.Failed (Auth.Native (JS.Error "No refresh token")),
        Auth.mkWorld (Auth.logout b) ps rs).
Proof.
  split; [intros k; apply logout_items|]. split.
  - unfold Auth.request_interceptor.
    rewrite (logout_items b "access_token"). reflexivity.
  - unfold Auth.refreshToken. cbn [Auth.page].
    rewrite (logout_items b "refresh_token"). reflexivity.
Qed.

(** X18: a successful refresh replaces both tokens and nothing else.  With a
    non-empty refresh token stored and the backend answering with an object,
    [refreshToken] posts that token once to [/rag/auth/refresh], stores the
    answer's [access_token] and [refresh_token] (as strings, so a missing
    one as the text [undefined]) and leaves every other item as it was. *)
Theorem refresh_replaces_tokens
    (post : Auth.posted -> Auth.browser -> Auth.settled json * Auth.browser)
    (w : Auth.world) (t : JS.text) (data : json) (b : Auth.browser) :
  Auth.getItem "refresh_token" (Auth.localStorage (Auth.page w)) = Some t ->
  JS.text_truthy t = true ->
  post (Auth.mkPosted "/rag/auth/refresh" t
          [("Content-Type", "application/json")]) (Auth.page w)
  = (Auth.Fulfilled data, b) ->
  data <> JNull ->
  let run := Auth.refreshToken post w in
  let items := Auth.localStorage (Auth.page (snd run)) in
  fst run = Auth.Fulfilled tt
  /\ Auth.posts (snd run)
     = (Auth.posts w ++ [Auth.mkPosted "/rag/auth/refresh" t
                           [("Content-Type", "application/json")]])%list
  /\ Auth.getItem "access_token" items
     = Some (Auth.to_item (field_of data "access_token"))
  /\ Auth.getItem "refresh_token" items
     = Some (Auth.to_item (field_of data "refresh_token"))
  /\ forall k, k <> "access_token" -> k <> "refresh_token" ->
               Auth.getItem k items = Auth.getItem k (Auth.localStorage b).
Proof.
  intros Hg Ht Hp Hd. cbv zeta. unfold Auth.refreshToken, field_of.
  rewrite Hg, Ht. cbn [negb Auth.page]. rewrite Hp.
  destruct data as [| | | | |ms]; try contradiction; cbn [JS.get];
    cbn [fst snd Auth.on_page Auth.page Auth.posts Auth.stored
         Auth.localStorage];
    (split; [reflexivity|split; [reflexivity|]]);
    (split; [rewrite getItem_set_other by reflexivity; apply getItem_set|]);
    (split; [apply getItem_set|]);
    intros k Ha Hr;
    apply String.eqb_neq in Ha, Hr;
    rewrite !getItem_set_other by (rewrite String.eqb_sym; assumption);
    reflexivity.
Qed.

(** X19: a refresh that fails ends the session.  When a request that was not
    yet retried comes back with 401 and [refreshToken] rejects, the
    interceptor logs the refresh error, removes the three session items,
    sends the browser to [/auth/login] unless its path already contains
    that, re-sends nothing, and rejects with the original error, its request
    now marked as retried. *)
Theorem failed_refresh_ends_session {R : Type}
    (post : Auth.posted -> Auth.browser -> Auth.settled json * Auth.browser)
    (request : Auth.config -> Auth.browser -> Auth.settled R * Auth.browser)
    (error : Auth.axios_error) (c : Auth.config) (w w1 : Auth.world)
    (refreshError : Auth.thrown) :
  Auth.response_status error = Some 401%Z ->
  Auth.err_config error = Some c ->
  Auth._retry c = false ->
  Auth.refreshToken post w = (Auth.Failed refreshError, w1) ->
  let run := Auth.response_interceptor post request error w in
  let after := Auth.page (snd run) in
  fst run = Auth.Failed
              (Auth.Axios (Auth.mkAxiosError (Some 401%Z)
                             (Some (Auth.marked c))))
  /\ (forall k, Auth.getItem k (Auth.localStorage after)
                = if session_key k then None
                  else Auth.getItem k (Auth.localStorage (Auth.page w1)))
  /\ Auth.console_errors after
     = (Auth.console_errors (Auth.page w1) ++ [refreshError])%list
  /\ Auth.href after
     = (if Auth.includes "/auth/login" (Auth.pathname (Auth.page w1))
        then Auth.href (Auth.page w1) else Some "/auth/login")
  /\ Auth.retries (snd run) = Auth.retries w1.
Proof.
  intros Hs Hc Hr Hf. cbv zeta. unfold Auth.response_interceptor.
  rewrite Hs, Hc, Hr, Hf. cbn [negb fst snd Auth.on_page Auth.page Auth.retries].
  split; [reflexivity|].
  unfold Auth.refresh_failed.
  set (b1 := Auth.mkBrowser _ (_ ++ [refreshError])%list _ _).
  assert (P : Auth.pathname (Auth.logout b1) = Auth.pathname (Auth.page w1))
    by reflexivity.
  rewrite P.
  destruct (Auth.includes "/auth/login" (Auth.pathname (Auth.page w1)));
    cbn [negb Auth.localStorage Auth.console_errors Auth.href];
    (split; [intros k; apply (logout_items b1 k)|]);
    repeat split.
Qed.

(** X20: a request is re-sent at most once, and only after a 401.  Whatever
    the interceptor hands to axios for a retry is marked as retried and
    carries the access token stored after the refresh; an error whose
    request is so marked, or whose status is not 401, is rejected again as
    it is, with nothing done. *)
Theorem retried_at_most_once {R : Type}
    (post : Auth.posted -> Auth.browser -> Auth.settled json * Auth.browser)
    (request : Auth.config -> Auth.browser -> Auth.settled R * Auth.browser)
    (error : Auth.axios_error) (w : Auth.world) :
  let w' := snd (Auth.response_interceptor post request error w) in
  (Auth.retries w' = Auth.retries w
   \/ exists c token,
        Auth.retries w' = (Auth.retries w ++ [c])%list
        /\ Auth._retry c = true
        /\ Auth.header "Authorization" (Auth.cfg_headers c)
           = Some (Auth.Bearer token)
        /\ Auth.getItem "access_token"
             (Auth.localStorage (Auth.page (snd (Auth.refreshToken post w))))
           = Some token)
  /\ (forall (e : Auth.axios_error) (w0 : Auth.world),
        Auth.response_status e <> Some 401%Z
        \/ (exists c, Auth.err_config e = Some c /\ Auth._retry c = true) ->
        Auth.response_interceptor post request e w0
        = (Auth.Failed (Auth.Axios e), w0)).
Proof.
  cbv zeta. split.
  - assert (Q : forall w0, Auth.retries (snd (Auth.refreshToken post w0))
                           = Auth.retries w0).
    { intros w0. unfold Auth.refreshToken.
      destruct (Auth.getItem "refresh_token" _) as [t|]; [|reflexivity].
      destruct (JS.text_truthy t); [|reflexivity]. cbn [negb Auth.page].
      destruct (post _ _) as [[data|e] b]; [|reflexivity].
      destruct (JS.get data "access_token"); [|reflexivity].
      destruct (JS.get data "refresh_token"); reflexivity. }
    unfold Auth.response_interceptor.
    destruct (Auth.response_status error) as [[|n|n]|]; try (left; reflexivity).
    destruct (Pos.eq_dec n 401) as [->|N].
    2:{ left. do 9 (destruct n as [n|n|]; try reflexivity).
        exfalso. apply N. reflexivity. }
    destruct (Auth.err_config error) as [c|]; [|left; reflexivity].
    destruct (Auth._retry c); [left; reflexivity|]. cbn [negb].
    specialize (Q w).
    destruct (Auth.refreshToken post w) as [[u|e] w1]; cbn [snd] in *.
    + destruct (Auth.getItem "access_token" _) as [token|] eqn:G;
        [|left; exact Q].
      destruct (JS.text_truthy token); [|left; exact Q].
      right. exists (Auth.authorized token (Auth.marked c)), token.
      destruct (request _ _) as [r b]. cbn. rewrite Q.
      repeat split. apply header_set.
    + left. exact Q.
  - intros e w0 [N|(c & Hc & Hr)]; unfold Auth.response_interceptor.
    + destruct (Auth.response_status e) as [[|n|n]|]; try reflexivity.
      destruct (Pos.eq_dec n 401) as [->|N']; [exfalso; apply N; reflexivity|].
      do 9 (destruct n as [n|n|]; try reflexivity).
      exfalso. apply N'. reflexivity.
    + rewrite Hc, Hr.
      destruct (Auth.response_status e) as [[|n|n]|]; try reflexivity.
      do 9 (destruct n as [n|n|]; try reflexivity).
Qed.

Lemma refresh_replaces_tokens_witness :
  let run := Auth.refreshToken renewing (Auth.mkWorld signed_in [] []) in
  let items := Auth.localStorage (Auth.page (snd run)) in
  fst run = Auth.Fulfilled tt
  /\ Auth.posts (snd run)
     = [Auth.mkPosted "/rag/auth/refresh" (JS.Text "old-refresh")
          [("Content-Type", "application/json")]]
  /\ Auth.getItem "access_token" items = Some (JS.Text "new-access")
  /\ Auth.getItem "refresh_token" items = Some (JS.Text "new-refresh")
  /\ forall k, k <> "access_token" -> k <> "refresh_token" ->
               Auth.getItem k items
               = Auth.getItem k (Auth.localStorage signed_in).
Proof.
  refine (refresh_replaces_tokens renewing (Auth.mkWorld signed_in [] [])
            (JS.Text "old-refresh")
            (JObj [("access_token", JStr "new-access");
                   ("refresh_token", JStr "new-refresh")])
            signed_in eq_refl eq_refl eq_refl _).
  discriminate.
Defined.

Lemma failed_refresh_ends_session_witness :
  let run := Auth.response_interceptor out_of_order failing_again expired
               (Auth.mkWorld signed_in [] []) in
  let after := Auth.page (snd run) in
  fst run = Auth.Failed
              (Auth.Axios (Auth.mkAxiosError (Some 401%Z)
                             (Some (Auth.marked get_documents))))
  /\ (forall k, Auth.getItem k (Auth.localStorage after)
                = if session_key k then None
                  else Auth.getItem k (Auth.localStorage signed_in))
  /\ Auth.console_errors after = [Auth.Axios server_error]
  /\ Auth.href after = Some "/auth/login"
  /\ Auth.retries (snd run) = [].
Proof.
  exact (failed_refresh_ends_session out_of_order failing_again expired
           get_documents (Auth.mkWorld signed_in [] [])
           (Auth.mkWorld signed_in
              [Auth.mkPosted "/rag/auth/refresh" (JS.Text "old-refresh")
                 [("Content-Type", "application/json")]] [])
           (Auth.Axios server_error) eq_refl eq_refl eq_refl eq_refl).
Defined.

(** X21: a file taken off the list does not come back.  Removing an entry
    commutes with a progress event of any upload, and a progress event of the
    removed file's own upload leaves the list as the removal left it. *)
Theorem removed_file_stays_removed {P : Type}
    (onUploadComplete : option (P -> called P))
    (uploadFile : DocumentUpload.UploadFile) (stg : json) (prog : js_value)
    (i : string) (st : DocumentUpload.state P) :
  let event := fun st => state_after (DocumentUpload.on_stage onUploadComplete
                                        uploadFile stg prog st) in
  DocumentUpload.uploadedFiles (event (DocumentUpload.removeFile i st))
  = DocumentUpload.uploadedFiles (DocumentUpload.removeFile i (event st))
  /\ DocumentUpload.uploadedFiles
       (event (DocumentUpload.removeFile (DocumentUpload.id uploadFile) st))
     = DocumentUpload.uploadedFiles
         (DocumentUpload.removeFile (DocumentUpload.id uploadFile) st).
Proof.
  cbv beta zeta. rewrite !on_stage_files.
  unfold DocumentUpload.removeFile, DocumentUpload.setUploadedFiles.
  cbn [DocumentUpload.uploadedFiles]. rewrite ?on_stage_files.
  set (mine := DocumentUpload.id uploadFile).
  generalize (DocumentUpload.uploadedFiles st) as fs.
  intros fs. split.
  - induction fs as [|f fs IH]; [reflexivity|].
    destruct (staged_local mine stg prog f) as (Hi & _).
    cbn [filter map]. rewrite Hi.
    destruct (negb (String.eqb (DocumentUpload.id f) i)); cbn [map];
      rewrite IH; reflexivity.
  - induction fs as [|f fs IH]; [reflexivity|].
    cbn [filter].
    destruct (String.eqb (DocumentUpload.id f) mine) eqn:E; cbn [negb map];
      [exact IH|].
    destruct (staged_local mine stg prog f) as (_ & _ & Ho).
    rewrite (Ho E), IH. reflexivity.
Qed.
